(** * Annotation aggregation and agreement statistics of the benchmark report

    A shallow embedding of [scripts/generate_report.py]: the record
    normaliser, the reliability-matrix builder and the two Krippendorff
    wrappers, the pairwise win-rate and overall-win calculators and the two
    bootstrap confidence-interval functions.

    Conventions of the embedding.
    - A pandas frame is the list of its rows, in row order.
    - A [float] is an exact rational of [Q]; counts that the code keeps in
      a float cell ([1.0], [+= 1.0]) are integers of [Z].  [NaN] in a
      frame cell is [None].
    - A Python [dict] and a label-indexed frame of numbers are finite maps
      ([gmap]); a key that is absent from a frame of [NaN]s is a [NaN] cell.
    - An exception is a value of [exn] returned on the left of a sum.
    - The statistics read typed rows: identifiers and the winner label are
      strings, a score is an integer or absent.  The normaliser works on
      the raw JSON values, whatever their type.
    - The packages [numpy] and [krippendorff] are not part of the
      repository: they are type-class parameters of the functions that
      call them. *)

From Stdlib Require Import ZArith QArith Qround Ascii String List Lia.
From stdpp Require Import gmap strings list fin_maps sorting pretty.

Local Open Scope string_scope.

(** ** Data model *)

(** A row of [pairwise_df].  [pw_winner] is the raw label: any string. *)
Record PairwiseRecord := {
  pw_prompt_id : string;
  pw_model_a : string;
  pw_model_b : string;
  pw_annotator_id : string;
  pw_winner : string;
  pw_language : string;
  pw_category : string
}.

(** [RUBRIC_DIMENSIONS] *)
Inductive dimension :=
  | cultural_accuracy
  | linguistic_authenticity
  | creative_depth
  | factual_correctness.

Definition RUBRIC_DIMENSIONS : list dimension :=
  [cultural_accuracy; linguistic_authenticity; creative_depth;
   factual_correctness].

#[global] Instance dimension_eq_dec : EqDecision dimension.
Proof. solve_decision. Defined.

(** A row of [rubric_df]: one column per dimension, [None] where the
    annotation carries no score for it. *)
Record RubricRecord := {
  rb_prompt_id : string;
  rb_model : string;
  rb_annotator_id : string;
  rb_scores : dimension -> option Z;
  rb_language : string;
  rb_category : string
}.

(** ** Pairwise analysis *)

Module WinRate.

(** The frame [matrix] of [_compute_win_rates]: cell [(row, column)]. *)
Definition bump (k : string * string) (matrix : gmap (string * string) Z)
  : gmap (string * string) Z :=
  match matrix !! k with
  | None => <[k := 1%Z]> matrix
  | Some c => <[k := (c + 1)%Z]> matrix
  end.

Definition touch (k : string * string) (matrix : gmap (string * string) Z)
  : gmap (string * string) Z :=
  match matrix !! k with
  | None => <[k := 0%Z]> matrix
  | Some _ => matrix
  end.

(** The body of the first loop of [_compute_win_rates]. *)
Definition tally (models : list string) (matrix : gmap (string * string) Z)
    (row : PairwiseRecord) : gmap (string * string) Z :=
  let a := pw_model_a row in
  let b := pw_model_b row in
  let winner := pw_winner row in
  if negb (bool_decide (a ∈ models)) || negb (bool_decide (b ∈ models))
  then matrix
  else
    if String.eqb winner "a" then touch (b, a) (bump (a, b) matrix)
    else if String.eqb winner "b" then touch (a, b) (bump (b, a) matrix)
    else matrix.

Definition win_counts (pairwise_df : list PairwiseRecord)
    (models : list string) : gmap (string * string) Z :=
  fold_left (tally models) pairwise_df ∅.

(** [matrix.loc[m1, m2] if not np.isnan(matrix.loc[m1, m2]) else 0] *)
Definition count_or_0 (matrix : gmap (string * string) Z)
    (m1 m2 : string) : Z :=
  default 0%Z (matrix !! (m1, m2)).

(** The body of the second loop: the value written to
    [rate_matrix.loc[m1, m2]], [None] when the cell is left [NaN]. *)
Definition rate_cell (matrix : gmap (string * string) Z)
    (m1 m2 : string) : option Q :=
  if decide (m1 = m2) then None
  else
    let w := count_or_0 matrix m1 m2 in
    let l := count_or_0 matrix m2 m1 in
    let total := (w + l)%Z in
    if (0 <? total)%Z then Some (inject_Z w / inject_Z total)%Q else None.

Definition fill_rate (matrix : gmap (string * string) Z) (m1 : string)
    (rate_matrix : gmap (string * string) Q) (m2 : string)
  : gmap (string * string) Q :=
  match rate_cell matrix m1 m2 with
  | Some q => <[(m1, m2) := q]> rate_matrix
  | None => rate_matrix
  end.

Definition _compute_win_rates (pairwise_df : list PairwiseRecord)
    (models : list string) : gmap (string * string) Q :=
  let matrix := win_counts pairwise_df models in
  fold_left (fun rate_matrix m1 =>
               fold_left (fill_rate matrix m1) models rate_matrix)
            models ∅.

(** The directed win count in the words of the specification: the
    records in which [m1] is declared winner against [m2], both sides
    being roster models. *)
Definition beats (models : list string) (m1 m2 : string)
    (r : PairwiseRecord) : bool :=
  bool_decide (pw_model_a r ∈ models) && bool_decide (pw_model_b r ∈ models)
  && ((String.eqb (pw_winner r) "a"
       && String.eqb (pw_model_a r) m1 && String.eqb (pw_model_b r) m2)
      || (String.eqb (pw_winner r) "b"
          && String.eqb (pw_model_b r) m1 && String.eqb (pw_model_a r) m2)).

Fixpoint count {A} (p : A -> bool) (l : list A) : Z :=
  match l with
  | [] => 0%Z
  | x :: l' => ((if p x then 1 else 0) + count p l')%Z
  end.

Definition wins (models : list string) (pairwise_df : list PairwiseRecord)
    (m1 m2 : string) : Z :=
  count (beats models m1 m2) pairwise_df.

(** The dictionaries [wins] and [total] of [_compute_overall_win_pct]. *)
Definition zero_dict (models : list string) : gmap string Z :=
  fold_left (fun d m => <[m := 0%Z]> d) models ∅.

Definition incr (m : string) (d : gmap string Z) : gmap string Z :=
  alter (fun c => (c + 1)%Z) m d.

Definition count_total (models : list string) (total : gmap string Z)
    (row : PairwiseRecord) : gmap string Z :=
  let a := pw_model_a row in
  let b := pw_model_b row in
  let total := if bool_decide (a ∈ models) then incr a total else total in
  if bool_decide (b ∈ models) then incr b total else total.

Definition count_wins (models : list string) (wins : gmap string Z)
    (row : PairwiseRecord) : gmap string Z :=
  let a := pw_model_a row in
  let b := pw_model_b row in
  let winner := pw_winner row in
  if String.eqb winner "a" && bool_decide (a ∈ models) then incr a wins
  else if String.eqb winner "b" && bool_decide (b ∈ models) then incr b wins
  else wins.

Definition pct_of (wins total : gmap string Z) (m : string) : Q :=
  let w := default 0%Z (wins !! m) in
  let t := default 0%Z (total !! m) in
  if (0 <? t)%Z then (inject_Z w / inject_Z t * 100)%Q else 0%Q.

Definition _compute_overall_win_pct (pairwise_df : list PairwiseRecord)
    (models : list string) : gmap string Q :=
  let wins := fold_left (count_wins models) pairwise_df (zero_dict models) in
  let total := fold_left (count_total models) pairwise_df (zero_dict models) in
  fold_left (fun d m => <[m := pct_of wins total m]> d) models ∅.

(** The tallies in the words of the specification. *)
Definition won_by (m : string) (r : PairwiseRecord) : bool :=
  (String.eqb (pw_winner r) "a" && String.eqb (pw_model_a r) m)
  || (String.eqb (pw_winner r) "b" && String.eqb (pw_model_b r) m).

Definition appears (m : string) (r : PairwiseRecord) : bool :=
  String.eqb (pw_model_a r) m || String.eqb (pw_model_b r) m.

(** The number of sides of [r] that [m] occupies: 0, 1 or, in a record
    with [model_a = model_b = m], 2: what the two [total[..] += 1] of one
    iteration add to [total[m]]. *)
Definition sides (m : string) (r : PairwiseRecord) : Z :=
  ((if String.eqb (pw_model_a r) m then 1 else 0)
   + (if String.eqb (pw_model_b r) m then 1 else 0))%Z.

Fixpoint total_sides (m : string) (rows : list PairwiseRecord) : Z :=
  match rows with
  | [] => 0%Z
  | r :: rows' => (sides m r + total_sides m rows')%Z
  end.

(** Sample rows: x beats y three times, y beats x once, one tie, and one
    record against a model outside the roster [x; y]. *)
Definition sample_rows : list PairwiseRecord :=
  let mk a b ann w :=
    {| pw_prompt_id := "ig_001"; pw_model_a := a; pw_model_b := b;
       pw_annotator_id := ann; pw_winner := w;
       pw_language := "igala"; pw_category := "real_world_use" |} in
  [mk "x" "y" "ann1" "a"; mk "y" "x" "ann2" "b"; mk "x" "y" "ann3" "b";
   mk "x" "y" "ann4" "a"; mk "x" "y" "ann5" "tie"; mk "x" "z" "ann1" "a"].

End WinRate.

(** ** Krippendorff's alpha *)

(** [level_of_measurement] of [krippendorff.alpha]. *)
Inductive level_of_measurement := nominal | ordinal.

(** [reliability_data]: one row per annotator, one column per unit,
    [None] for [np.nan]. *)
Definition reliability_data : Type := list (list (option Z)).

(** The third-party function [krippendorff.alpha(reliability_data=...,
    level_of_measurement=...)], which is not part of the repository: it
    returns a float, or raises, which both callers turn into [None] by
    [except Exception]. *)
Class Krippendorff := {
  krippendorff_alpha : reliability_data -> level_of_measurement -> option Q
}.

Module Agreement.

(** The order of pandas on an index of strings. *)
Definition string_le (s1 s2 : string) : Prop := String.leb s1 s2 = true.

#[global] Instance string_le_dec (s1 s2 : string) : Decision (string_le s1 s2).
Proof. unfold string_le. apply _. Defined.

(** The sorted distinct labels of a column: the index and the columns of
    a pivot table. *)
Definition labels (l : list string) : list string :=
  merge_sort string_le (remove_dups l).

(** [Series.nunique()] *)
Definition nunique (l : list string) : nat := length (remove_dups l).

(** A long-format rating: annotator, unit, value. *)
Record rating := { r_annotator : string; r_unit : string; r_value : Z }.

(** [aggfunc="first"]: the first value of the group (annotator, unit), in
    row order. *)
Fixpoint first_value (rows : list rating) (a u : string) : option Z :=
  match rows with
  | [] => None
  | r :: rows' =>
      if String.eqb (r_annotator r) a && String.eqb (r_unit r) u
      then Some (r_value r)
      else first_value rows' a u
  end.

(** [df.pivot_table(index="annotator_id", columns="unit", values=...,
    aggfunc="first").values] *)
Definition pivot_table (rows : list rating) : reliability_data :=
  let index := labels (map r_annotator rows) in
  let columns := labels (map r_unit rows) in
  map (fun a => map (fun u => first_value rows a u) columns) index.

(** The rows of [subset] in [_krippendorff_alpha_rubric]: the records
    that score [dimension], with their [unit] column. *)
Definition rubric_subset (rubric_df : list RubricRecord)
    (dimension : dimension) : list rating :=
  omap (fun r =>
          match rb_scores r dimension with
          | Some v =>
              Some {| r_annotator := rb_annotator_id r;
                      r_unit := rb_prompt_id r ++ "|" ++ rb_model r;
                      r_value := v |}
          | None => None
          end) rubric_df.

Definition _krippendorff_alpha_rubric `{Krippendorff}
    (rubric_df : list RubricRecord) (dimension : dimension) : option Q :=
  let subset := rubric_subset rubric_df dimension in
  if bool_decide (subset = []) then None
  else if (nunique (map r_annotator subset) <? 2)%nat then None
  else
    let pivot := pivot_table subset in
    if (length pivot <? 2)%nat then None
    else krippendorff_alpha pivot ordinal.

(** [winner_map = {"a": 1, "b": 2, "tie": 3}]; [None] is the [NaN] that
    [Series.map] gives any other label. *)
Definition winner_map (winner : string) : option Z :=
  if String.eqb winner "a" then Some 1%Z
  else if String.eqb winner "b" then Some 2%Z
  else if String.eqb winner "tie" then Some 3%Z
  else None.

(** A winner label outside a, b and tie. *)
Definition malformed_winner (r : PairwiseRecord) : Prop :=
  pw_winner r ≠ "a" /\ pw_winner r ≠ "b" /\ pw_winner r ≠ "tie".

(** The rows of [df] after [dropna(subset=["winner_code"])]. *)
Definition pairwise_coded (pairwise_df : list PairwiseRecord) : list rating :=
  omap (fun r =>
          match winner_map (pw_winner r) with
          | Some code =>
              Some {| r_annotator := pw_annotator_id r;
                      r_unit := pw_prompt_id r ++ "|" ++ pw_model_a r
                                ++ "|" ++ pw_model_b r;
                      r_value := code |}
          | None => None
          end) pairwise_df.

Definition _krippendorff_alpha_pairwise `{Krippendorff}
    (pairwise_df : list PairwiseRecord) : option Q :=
  if bool_decide (pairwise_df = []) then None
  else if (nunique (map pw_annotator_id pairwise_df) <? 2)%nat then None
  else
    let df := pairwise_coded pairwise_df in
    if bool_decide (df = []) then None
    else
      let pivot := pivot_table df in
      if (length pivot <? 2)%nat then None
      else krippendorff_alpha pivot nominal.

(** [_interpret_alpha] *)
Definition _interpret_alpha (alpha : option Q) : string :=
  match alpha with
  | None => "N/A"
  | Some a =>
      if Qle_bool (80 # 100) a then "Good"
      else if Qle_bool (67 # 100) a then "Tentative"
      else if Qle_bool (40 # 100) a then "Moderate"
      else "Low"
  end.

End Agreement.

(** ** The coefficient of the specification

    The package [krippendorff] is not in the repository.  This module
    follows the algorithm of section 4.3 of the specification, step by
    step, over exact rationals. *)

Module SpecAlpha.
Import WinRate.

Fixpoint Qsum (l : list Q) : Q :=
  match l with
  | [] => 0%Q
  | x :: l' => (x + Qsum l')%Q
  end.

(** The non-missing values of unit (column) [j]: its pairable set. *)
Definition unit_values (matrix : reliability_data) (j : nat) : list Z :=
  omap (fun row : list (option Z) =>
          match row !! j with Some (Some v) => Some v | _ => None end)
       matrix.

Definition n_units (matrix : reliability_data) : nat :=
  foldr Nat.max 0%nat (map length matrix).

Definition units (matrix : reliability_data) : list (list Z) :=
  map (unit_values matrix) (seq 0 (n_units matrix)).

(** All rated values, ignoring the unit structure. *)
Definition pooled (matrix : reliability_data) : list Z :=
  concat (units matrix).

(** The marginal count of a value and the cumulative marginal count
    [F(c)] up to and including category [c]. *)
Definition n_of (pool : list Z) (c : Z) : Z := count (Z.eqb c) pool.

Definition F (pool : list Z) (c : Z) : Z :=
  count (fun v => (v <=? c)%Z) pool.

(** Modelled from the spec: the difference metric of step 4, which
    [krippendorff.alpha] selects by [level_of_measurement]: 0 or 1 for
    nominal data; for ordinal data the square of the gap between the two
    categories in the cumulative marginal counts. *)
Definition delta (metric : level_of_measurement) (pool : list Z)
    (v1 v2 : Z) : Q :=
  if (v1 =? v2)%Z then 0%Q
  else
    match metric with
    | nominal => 1%Q
    | ordinal =>
        let lo := Z.min v1 v2 in
        let hi := Z.max v1 v2 in
        let g := (inject_Z (F pool (hi - 1) + F pool hi
                            - F pool (lo - 1) - F pool lo) / 2)%Q in
        (g * g)%Q
    end.

(** The ordered pairs of values at two different positions of [l]. *)
Fixpoint ordered_pairs_from (before l : list Z) : list (Z * Z) :=
  match l with
  | [] => []
  | x :: l' =>
      map (pair x) (before ++ l') ++ ordered_pairs_from (before ++ [x]) l'
  end.

Definition ordered_pairs (l : list Z) : list (Z * Z) :=
  ordered_pairs_from [] l.

(** Modelled from the spec: the contribution of one unit to the observed
    disagreement of step 2: the sum of the metric over its [m * (m - 1)]
    ordered pairs, over [m - 1]; nothing for a unit with fewer than two
    ratings. *)
Definition unit_disagreement (metric : level_of_measurement)
    (pool vs : list Z) : Q :=
  let m := length vs in
  if (m <? 2)%nat then 0%Q
  else
    (Qsum (map (fun p => delta metric pool p.1 p.2) (ordered_pairs vs))
     / inject_Z (Z.of_nat m - 1))%Q.

(** The number of pairable values: the ratings of the units with at least
    two of them. *)
Definition n_pairable (us : list (list Z)) : Z :=
  Z.of_nat (length (concat (filter (fun vs => (2 <= length vs)%nat) us))).

(** Modelled from the spec: the observed disagreement [Do] of step 2. *)
Definition observed_disagreement (metric : level_of_measurement)
    (matrix : reliability_data) : Q :=
  let us := units matrix in
  (Qsum (map (unit_disagreement metric (pooled matrix)) us)
   / inject_Z (n_pairable us))%Q.

(** Modelled from the spec: the expected disagreement [De] of step 3: the
    metric averaged over all pairs drawn from the marginal frequency table
    of the pooled values. *)
Definition expected_disagreement (metric : level_of_measurement)
    (matrix : reliability_data) : Q :=
  let pool := pooled matrix in
  let domain := remove_dups pool in
  let n := Z.of_nat (length pool) in
  (Qsum (map (fun c =>
                Qsum (map (fun k =>
                             inject_Z (n_of pool c) * inject_Z (n_of pool k)
                             * delta metric pool c k)%Q domain))
             domain)
   / inject_Z (n * (n - 1)))%Q.

(** At least two annotators, and a unit rated by at least two of them. *)
Definition overlapping (matrix : reliability_data) : bool :=
  (2 <=? length matrix)%nat
  && existsb (fun vs => (2 <=? length vs)%nat) (units matrix).

(** Every non-missing cell of the matrix holds [v]. *)
Definition single_valued (matrix : reliability_data) (v : Z) : Prop :=
  forall (row : list (option Z)) (cell : option Z),
    row ∈ matrix -> cell ∈ row -> cell = None \/ cell = Some v.

(** Some unit is rated by at least two annotators. *)
Definition shared_unit (matrix : reliability_data) : Prop :=
  exists j : nat, 2 <= length (unit_values matrix j).

(** The same two conditions on a frame of ratings. *)
Definition single_valued_ratings (rows : list Agreement.rating) (v : Z)
  : Prop :=
  forall r, r ∈ rows -> Agreement.r_value r = v.

Definition shared_unit_ratings (rows : list Agreement.rating) : Prop :=
  exists r1 r2, r1 ∈ rows /\ r2 ∈ rows
    /\ Agreement.r_unit r1 = Agreement.r_unit r2
    /\ Agreement.r_annotator r1 ≠ Agreement.r_annotator r2.

(** Modelled from the spec: [krippendorff.alpha], whose package is not
    in the repository, after section 4.3: "insufficient data" ([None])
    without two annotators and a unit rated by two of them; otherwise
    [1 - Do/De], with 1 by convention when [Do] and [De] are both 0 and
    "insufficient data" when [De] is 0 and [Do] is not. *)
Definition alpha (matrix : reliability_data)
    (metric : level_of_measurement) : option Q :=
  if negb (overlapping matrix) then None
  else
    let Do := observed_disagreement metric matrix in
    let De := expected_disagreement metric matrix in
    if Qeq_bool De 0 then (if Qeq_bool Do 0 then Some 1%Q else None)
    else Some (1 - Do / De)%Q.

Definition spec_krippendorff : Krippendorff :=
  {| krippendorff_alpha := alpha |}.

End SpecAlpha.

(** ** Bootstrap confidence intervals *)

(** The part of [numpy.random] that the module uses.  [seeded s] is the
    generator of [np.random.default_rng(s)]; [unseeded] is the one of
    [np.random.default_rng()], drawn from the entropy of the operating
    system; [choice rng a size] is [rng.choice(a, size=size,
    replace=True)] together with the generator state it leaves. *)
Class NumpyRandom := {
  Generator : Type;
  Entropy : Type;
  seeded : Z -> Generator;
  unseeded : Entropy -> Generator * Entropy;
  choice : Generator -> list Q -> nat -> list Q * Generator
}.

(** [np.percentile(a, q)] *)
Class NumpyPercentile := {
  percentile : list Q -> Q -> Q
}.

Module Bootstrap.

Section WithNumpy.
Context `{NumpyRandom} `{NumpyPercentile}.

(** What a call can observe and change outside its arguments: the
    entropy pool and the number of resamples drawn so far. *)
Record World := {
  os_entropy : Entropy;
  resamples : nat
}.

(** Computations that read and update the world. *)
Definition M (A : Type) : Type := World -> A * World.

Definition ret {A} (x : A) : M A := fun w => (x, w).

Definition bind {A B} (c : M A) (k : A -> M B) : M B :=
  fun w => let (x, w') := c w in k x w'.

Notation "x <- c ;; k" := (bind c (fun x => k))
  (at level 100, c at next level, right associativity).

(** [np.random.default_rng(seed)] *)
Definition default_rng (seed : option Z) : M Generator :=
  match seed with
  | Some s => ret (seeded s)
  | None =>
      fun w =>
        let (rng, e) := unseeded (os_entropy w) in
        (rng, {| os_entropy := e; resamples := resamples w |})
  end.

(** [rng.choice(values, size=size, replace=True)]: one resample. *)
Definition rng_choice (rng : Generator) (values : list Q) (size : nat)
  : M (list Q * Generator) :=
  fun w =>
    (choice rng values size,
     {| os_entropy := os_entropy w; resamples := S (resamples w) |}).

Fixpoint Qtotal (l : list Q) : Q :=
  match l with
  | [] => 0%Q
  | x :: l' => (x + Qtotal l')%Q
  end.

(** [np.mean] of a non-empty array *)
Definition mean (values : list Q) : Q :=
  (Qtotal values / inject_Z (Z.of_nat (length values)))%Q.

(** The loop [for i in range(n_boot)]: the statistic of each resample,
    in order. *)
Fixpoint resample_means (n_boot : nat) (rng : Generator) (values : list Q)
  : M (list Q) :=
  match n_boot with
  | O => ret []
  | S n =>
      drawn <- rng_choice rng values (length values) ;;
      let (sample, rng') := drawn in
      rest <- resample_means n rng' values ;;
      ret (mean sample :: rest)
  end.

Definition percentile_interval (stats : list Q) (ci : Q) : Q * Q :=
  let alpha := ((1 - ci) / 2)%Q in
  (percentile stats (100 * alpha)%Q, percentile stats (100 * (1 - alpha))%Q).

Definition _bootstrap_ci (values : list Q) (n_boot : nat) (ci : Q)
  : M (Q * Q) :=
  if (length values <? 2)%nat then
    let m := match values with [] => 0%Q | _ => mean values end in
    ret (m, m)
  else
    rng <- default_rng (Some 42%Z) ;;
    means <- resample_means n_boot rng values ;;
    ret (percentile_interval means ci).

(** [np.array([1] * wins + [0] * (total - wins))]: a negative repeat
    count gives the empty list. *)
Definition outcomes (wins total : Z) : list Q :=
  (replicate (Z.to_nat wins) 1%Q
   ++ replicate (Z.to_nat (total - wins)) 0%Q)%list.

Definition _bootstrap_ci_proportion (wins total : Z) (n_boot : nat) (ci : Q)
  : M (Q * Q) :=
  if (total <? 2)%Z then
    let p := if (total =? 0)%Z then 0%Q
             else (inject_Z wins / inject_Z total)%Q in
    ret (p, p)
  else
    rng <- default_rng (Some 42%Z) ;;
    props <- resample_means n_boot rng (outcomes wins total) ;;
    ret (percentile_interval props ci).

End WithNumpy.

(** The tallies that [generate_report] makes for the row of model [m] in
    the table of win-rate confidence intervals. *)
Definition raw_count (m : string) (acc : Z * Z) (row : PairwiseRecord)
  : Z * Z :=
  let '(w, total) := acc in
  if String.eqb (pw_model_a row) m then
    ((if String.eqb (pw_winner row) "a" then w + 1 else w)%Z, (total + 1)%Z)
  else if String.eqb (pw_model_b row) m then
    ((if String.eqb (pw_winner row) "b" then w + 1 else w)%Z, (total + 1)%Z)
  else (w, total).

Definition raw_counts (pairwise_df : list PairwiseRecord) (m : string)
  : Z * Z :=
  fold_left (raw_count m) pairwise_df (0%Z, 0%Z).

(** The nearest integer, ties to the even one. *)
Definition round_half_even (q : Q) : Z :=
  let f := Qfloor q in
  match (q - inject_Z f ?= 1 # 2)%Q with
  | Lt => f
  | Gt => (f + 1)%Z
  | Eq => if Z.even f then f else (f + 1)%Z
  end.

(** The format [:.0f]; a negative number that rounds to zero keeps its
    sign. *)
Definition fmt_0f (q : Q) : string :=
  let z := round_half_even q in
  if (z =? 0)%Z then (if Qle_bool 0 q then "0" else "-0") else pretty z.

(** The cell [[{ci_lo * 100:.0f}%, {ci_hi * 100:.0f}%]] of that row. *)
Definition ci_cell (ci_lo ci_hi : Q) : string :=
  "[" ++ fmt_0f (ci_lo * 100) ++ "%, " ++ fmt_0f (ci_hi * 100) ++ "%]".

End Bootstrap.

(** A small generator and the linear-interpolation percentile, to
    evaluate the functions above on concrete inputs. *)
Module ToyNumpy.

Definition lcg (s : Z) : Z := ((1103515245 * s + 12345) mod 2147483648)%Z.

Fixpoint lcg_choice (size : nat) (s : Z) (values : list Q) : list Q * Z :=
  match size with
  | O => ([], s)
  | S n =>
      let s' := lcg s in
      let i := Z.to_nat ((s' / 65536) mod Z.of_nat (length values)) in
      let (rest, s'') := lcg_choice n s' values in
      (nth i values 0%Q :: rest, s'')
  end.

#[global] Instance toy_random : NumpyRandom := {|
  Generator := Z;
  Entropy := list Z;
  seeded := fun s => s;
  unseeded := fun e => (hd 0%Z e, tl e);
  choice := fun rng values size => lcg_choice size rng values
|}.

Definition Qleb (x y : Q) : Prop := Qle_bool x y = true.

#[global] Instance Qleb_dec (x y : Q) : Decision (Qleb x y).
Proof. unfold Qleb. apply _. Defined.

Definition linear_percentile (a : list Q) (q : Q) : Q :=
  let sorted := merge_sort Qleb a in
  let h := (inject_Z (Z.of_nat (length a) - 1) * q / 100)%Q in
  let lo := Qfloor h in
  let x := nth (Z.to_nat lo) sorted 0%Q in
  let y := nth (Z.to_nat (lo + 1)) sorted x in
  Qred (x + (h - inject_Z lo) * (y - x))%Q.

#[global] Instance toy_percentile : NumpyPercentile := {|
  percentile := linear_percentile
|}.

End ToyNumpy.

(** ** Record normaliser *)

Module Normalizer.

(** A value of a parsed JSON document, which is also the Python value that
    a frame cell holds; [JNull] is [None], and the [NaN] of a missing
    cell. *)
#[warnings="-register-all"]
Inductive json :=
  | JNull
  | JBool (b : bool)
  | JInt (z : Z)
  | JFloat (q : Q)
  | JStr (s : string)
  | JArr (items : list json)
  | JObj (fields : list (string * json)).

Inductive exn :=
  | KeyError (key : string)
  | TypeError
  | AttributeError.

(** Computations that may raise. *)
Definition Exc (A : Type) : Type := exn + A.

Definition bindE {A B} (c : Exc A) (k : A -> Exc B) : Exc B :=
  match c with
  | inl e => inl e
  | inr x => k x
  end.

Notation "x <-- c ;; k" := (bindE c (fun x => k))
  (at level 100, c at next level, right associativity).

Fixpoint traverse {A B} (f : A -> Exc B) (l : list A) : Exc (list B) :=
  match l with
  | [] => inr []
  | x :: l' =>
      y <-- f x ;;
      ys <-- traverse f l' ;;
      inr (y :: ys)
  end.

(** The value of a key of a dict (keys are unique in a parsed object). *)
Fixpoint assoc (key : string) (fields : list (string * json)) : option json :=
  match fields with
  | [] => None
  | (k, v) :: fields' => if String.eqb k key then Some v else assoc key fields'
  end.

(** [item[key]] *)
Definition getitem (item : json) (key : string) : Exc json :=
  match item with
  | JObj fields =>
      match assoc key fields with
      | Some v => inr v
      | None => inl (KeyError key)
      end
  | _ => inl TypeError
  end.

(** [item.get(key, default)] *)
Definition get (item : json) (key : string) (default : json) : Exc json :=
  match item with
  | JObj fields =>
      match assoc key fields with
      | Some v => inr v
      | None => inr default
      end
  | _ => inl AttributeError
  end.

Definition dimension_name (d : dimension) : string :=
  match d with
  | cultural_accuracy => "cultural_accuracy"
  | linguistic_authenticity => "linguistic_authenticity"
  | creative_depth => "creative_depth"
  | factual_correctness => "factual_correctness"
  end.

(** A row of [flat], then of [rubric_df]. *)
Record RubricRow := {
  fr_prompt_id : json;
  fr_model : json;
  fr_annotator_id : json;
  fr_timestamp : json;
  fr_cultural_accuracy : json;
  fr_linguistic_authenticity : json;
  fr_creative_depth : json;
  fr_factual_correctness : json
}.

(** The body of the loop [for item in rubric_raw]. *)
Definition flatten_item (item : json) : Exc RubricRow :=
  prompt_id <-- getitem item "prompt_id" ;;
  model <-- getitem item "model" ;;
  annotator_id <-- getitem item "annotator_id" ;;
  timestamp <-- get item "timestamp" JNull ;;
  let score (d : dimension) : Exc json :=
    (scores <-- get item "scores" (JObj []) ;;
     get scores (dimension_name d) JNull) in
  s1 <-- score cultural_accuracy ;;
  s2 <-- score linguistic_authenticity ;;
  s3 <-- score creative_depth ;;
  s4 <-- score factual_correctness ;;
  inr {| fr_prompt_id := prompt_id; fr_model := model;
         fr_annotator_id := annotator_id; fr_timestamp := timestamp;
         fr_cultural_accuracy := s1; fr_linguistic_authenticity := s2;
         fr_creative_depth := s3; fr_factual_correctness := s4 |}.

(** An entry of [prompt_meta]; both loaders fill both keys. *)
Record prompt_info := { category : string; language : string }.

(** [prompt_id.split("_")[0]] *)
Fixpoint before_underscore (s : string) : string :=
  match s with
  | EmptyString => EmptyString
  | String c s' =>
      if Ascii.eqb c "_"%char then EmptyString else String c (before_underscore s')
  end.

(** A list or a dict is unhashable: [in prompt_meta] raises [TypeError];
    any other value that is not a string is not a key, and has no
    [split]. *)
Definition _language_for_prompt (prompt_id : json)
    (prompt_meta : gmap string prompt_info) : Exc string :=
  match prompt_id with
  | JStr pid =>
      match prompt_meta !! pid with
      | Some info => inr (language info)
      | None =>
          let prefix := before_underscore pid in
          inr (if String.eqb prefix "ig" then "igala"
               else if String.eqb prefix "la" then "lebanese_arabic"
               else "unknown")
      end
  | JArr _ | JObj _ => inl TypeError
  | _ => inl AttributeError
  end.

Definition _category_for_prompt (prompt_id : json)
    (prompt_meta : gmap string prompt_info) : Exc string :=
  match prompt_id with
  | JStr pid =>
      match prompt_meta !! pid with
      | Some info => inr (category info)
      | None => inr "unknown"
      end
  | JArr _ | JObj _ => inl TypeError
  | _ => inr "unknown"
  end.

(** A row of [pairwise_df = pd.DataFrame(pairwise_raw)]: the cells of the
    columns that the engine reads, [JNull] where the object has no such
    key. *)
Record PairwiseRow := {
  fp_prompt_id : json;
  fp_model_a : json;
  fp_model_b : json;
  fp_annotator_id : json;
  fp_winner : json
}.

Definition cell (key : string) (fields : list (string * json)) : json :=
  default JNull (assoc key fields).

Definition pairwise_row (fields : list (string * json)) : PairwiseRow :=
  {| fp_prompt_id := cell "prompt_id" fields;
     fp_model_a := cell "model_a" fields;
     fp_model_b := cell "model_b" fields;
     fp_annotator_id := cell "annotator_id" fields;
     fp_winner := cell "winner" fields |}.

(** [df.empty]: no row, or no column. *)
Definition frame_empty (raw : list (list (string * json))) : bool :=
  forallb (fun fields => match fields with [] => true | _ => false end) raw.

(** [df[key]] raises [KeyError] when no object has the key. *)
Definition column {A} (key : string) (raw : list (list (string * json)))
    (cells : list A) : Exc (list A) :=
  if existsb (fun fields => bool_decide (is_Some (assoc key fields))) raw
  then inr cells
  else inl (KeyError key).

(** The enrichment [df["language"] = df["prompt_id"].apply(...)] and
    [df["category"] = ...] over the cells of [prompt_id]. *)
Definition enrich (prompt_meta : gmap string prompt_info)
    (prompt_ids : list json) : Exc (list string * list string) :=
  languages <-- traverse (fun pid => _language_for_prompt pid prompt_meta)
                  prompt_ids ;;
  categories <-- traverse (fun pid => _category_for_prompt pid prompt_meta)
                   prompt_ids ;;
  inr (languages, categories).

(** The frames that [generate_report] builds and enriches: the rows and
    their [language] and [category] columns.  The rubric frame is built
    first; the pairwise frame is enriched first. *)
Record Frames := {
  pairwise_rows : list PairwiseRow;
  pairwise_meta : list string * list string;
  rubric_rows : list RubricRow;
  rubric_meta : list string * list string
}.

Definition build_frames (prompt_meta : gmap string prompt_info)
    (pairwise_raw : list (list (string * json))) (rubric_raw : list json)
  : Exc Frames :=
  let pairwise_df := map pairwise_row pairwise_raw in
  flat <-- traverse flatten_item rubric_raw ;;
  pw_meta <-- (if frame_empty pairwise_raw then inr ([], [])
               else
                 ids <-- column "prompt_id" pairwise_raw
                           (map fp_prompt_id pairwise_df) ;;
                 enrich prompt_meta ids) ;;
  rb_meta <-- (match flat with
               | [] => inr ([], [])
               | _ => enrich prompt_meta (map fr_prompt_id flat)
               end) ;;
  inr {| pairwise_rows := pairwise_df; pairwise_meta := pw_meta;
         rubric_rows := flat; rubric_meta := rb_meta |}.

(** The typed reading of a row: identifiers are strings, a score is an
    integer or absent. *)
Definition as_string (v : json) : option string :=
  match v with JStr s => Some s | _ => None end.

(** The label of a winner or annotator cell.  A missing or null winner
    equals neither "a" nor "b" and has no code in [winner_map]: it is read
    as the empty label, which is outside a, b and tie as well.  A missing
    or null annotator is read as the empty name; the win statistics do
    not read it, and the agreement leaves the row out. *)
Definition as_label (v : json) : option string :=
  match v with
  | JStr s => Some s
  | JNull => Some EmptyString
  | _ => None
  end.

Definition as_score (v : json) : option (option Z) :=
  match v with
  | JInt z => Some (Some z)
  | JNull => Some None
  | _ => None
  end.

Definition typed_pairwise (row : PairwiseRow) (lang cat : string)
  : option PairwiseRecord :=
  prompt ← as_string (fp_prompt_id row);
  a ← as_string (fp_model_a row);
  b ← as_string (fp_model_b row);
  annotator ← as_label (fp_annotator_id row);
  winner ← as_label (fp_winner row);
  Some {| pw_prompt_id := prompt; pw_model_a := a; pw_model_b := b;
          pw_annotator_id := annotator; pw_winner := winner;
          pw_language := lang; pw_category := cat |}.

Definition typed_rubric (row : RubricRow) (lang cat : string)
  : option RubricRecord :=
  prompt ← as_string (fr_prompt_id row);
  model ← as_string (fr_model row);
  annotator ← as_string (fr_annotator_id row);
  s1 ← as_score (fr_cultural_accuracy row);
  s2 ← as_score (fr_linguistic_authenticity row);
  s3 ← as_score (fr_creative_depth row);
  s4 ← as_score (fr_factual_correctness row);
  Some {| rb_prompt_id := prompt; rb_model := model;
          rb_annotator_id := annotator;
          rb_scores := fun d => match d with
                                | cultural_accuracy => s1
                                | linguistic_authenticity => s2
                                | creative_depth => s3
                                | factual_correctness => s4
                                end;
          rb_language := lang; rb_category := cat |}.

(** The typed reading of a frame, row by row with its [language] and
    [category]. *)
Fixpoint typed_pairwise_frame (rows : list PairwiseRow)
    (langs cats : list string) : option (list PairwiseRecord) :=
  match rows, langs, cats with
  | [], [], [] => Some []
  | row :: rows', lang :: langs', cat :: cats' =>
      r ← typed_pairwise row lang cat;
      rs ← typed_pairwise_frame rows' langs' cats';
      Some (r :: rs)
  | _, _, _ => None
  end.

Fixpoint typed_rubric_frame (rows : list RubricRow)
    (langs cats : list string) : option (list RubricRecord) :=
  match rows, langs, cats with
  | [], [], [] => Some []
  | row :: rows', lang :: langs', cat :: cats' =>
      r ← typed_rubric row lang cat;
      rs ← typed_rubric_frame rows' langs' cats';
      Some (r :: rs)
  | _, _, _ => None
  end.

(** The integer that a raw rubric object gives a dimension, if any. *)
Definition raw_score (item : json) (d : dimension) : option Z :=
  match item with
  | JObj fields =>
      match assoc "scores" fields with
      | Some (JObj scores) =>
          match assoc (dimension_name d) scores with
          | Some (JInt z) => Some z
          | _ => None
          end
      | _ => None
      end
  | _ => None
  end.

(** Raw objects whose fields, where present, have the type that section 6
    of the specification gives them, and whose prompt and models are
    present.  The winner and the annotator of a pairwise object are any
    string, or null, or missing; a score is any integer. *)
Definition is_string (v : option json) : bool :=
  match v with Some (JStr _) => true | _ => false end.

Definition is_label (v : option json) : bool :=
  match v with None | Some JNull | Some (JStr _) => true | _ => false end.

Definition well_typed_pairwise (fields : list (string * json)) : bool :=
  is_string (assoc "prompt_id" fields)
  && is_string (assoc "model_a" fields)
  && is_string (assoc "model_b" fields)
  && is_label (assoc "annotator_id" fields)
  && is_label (assoc "winner" fields).

(** The winner label of a raw pairwise object, as [as_label] reads it. *)
Definition winner_label (fields : list (string * json)) : string :=
  match assoc "winner" fields with
  | Some (JStr s) => s
  | _ => EmptyString
  end.

(** Some object of the list has the key: the frame has the column. *)
Definition has_key (key : string) (raw : list (list (string * json)))
  : bool :=
  existsb (fun fields => bool_decide (is_Some (assoc key fields))) raw.

Definition well_typed_score (scores : list (string * json)) (d : dimension)
  : bool :=
  match assoc (dimension_name d) scores with
  | None | Some JNull | Some (JInt _) => true
  | _ => false
  end.

Definition well_typed_rubric (item : json) : bool :=
  match item with
  | JObj fields =>
      is_string (assoc "prompt_id" fields)
      && is_string (assoc "model" fields)
      && is_string (assoc "annotator_id" fields)
      && match assoc "scores" fields with
         | None => true
         | Some (JObj scores) =>
             forallb (well_typed_score scores) RUBRIC_DIMENSIONS
         | _ => false
         end
  | _ => false
  end.

End Normalizer.

(** ** Sample frames *)

Module Samples.

Definition sample_rubric (prompt model annotator : string) (score : option Z)
  : RubricRecord :=
  {| rb_prompt_id := prompt; rb_model := model; rb_annotator_id := annotator;
     rb_scores := fun d => match d with
                           | cultural_accuracy => score
                           | _ => None
                           end;
     rb_language := "igala"; rb_category := "real_world_use" |}.

(** Two annotators give the same unit the same score. *)
Definition rubric_same_unit : list RubricRecord :=
  [sample_rubric "ig_001" "x" "ann1" (Some 4%Z);
   sample_rubric "ig_001" "x" "ann2" (Some 4%Z)].

(** Two annotators give the same score, each to a unit of their own. *)
Definition rubric_disjoint_units : list RubricRecord :=
  [sample_rubric "ig_001" "x" "ann1" (Some 4%Z);
   sample_rubric "ig_002" "x" "ann2" (Some 4%Z)].

(** One annotator only. *)
Definition rubric_one_annotator : list RubricRecord :=
  [sample_rubric "ig_001" "x" "ann1" (Some 4%Z);
   sample_rubric "ig_002" "x" "ann1" (Some 2%Z)].

Definition sample_pairwise (prompt a b annotator winner : string)
  : PairwiseRecord :=
  {| pw_prompt_id := prompt; pw_model_a := a; pw_model_b := b;
     pw_annotator_id := annotator; pw_winner := winner;
     pw_language := "igala"; pw_category := "real_world_use" |}.

(** Two annotators pick the same winner of the same matchup. *)
Definition pairwise_agree : list PairwiseRecord :=
  [sample_pairwise "ig_001" "x" "y" "ann1" "a";
   sample_pairwise "ig_001" "x" "y" "ann2" "a"].

(** Two annotators, of whom one gives a label that has no code. *)
Definition pairwise_one_coded : list PairwiseRecord :=
  [sample_pairwise "ig_001" "x" "y" "ann1" "a";
   sample_pairwise "ig_001" "x" "y" "ann2" "both"].

(** Raw annotation objects: a malformed winner label, an out-of-range
    score, an object without scores, and one without its model. *)
Definition raw_pairwise : list (list (string * Normalizer.json)) :=
  [[("prompt_id", Normalizer.JStr "ig_001"); ("model_a", Normalizer.JStr "x");
    ("model_b", Normalizer.JStr "y");
    ("annotator_id", Normalizer.JStr "ann1");
    ("winner", Normalizer.JStr "a")];
   [("prompt_id", Normalizer.JStr "la_002"); ("model_a", Normalizer.JStr "x");
    ("model_b", Normalizer.JStr "y");
    ("annotator_id", Normalizer.JStr "ann2");
    ("winner", Normalizer.JStr "both");
    ("explanation", Normalizer.JNull)]].

Definition raw_rubric : list Normalizer.json :=
  [Normalizer.JObj
     [("prompt_id", Normalizer.JStr "ig_001"); ("model", Normalizer.JStr "x");
      ("annotator_id", Normalizer.JStr "ann1");
      ("scores", Normalizer.JObj
                   [("cultural_accuracy", Normalizer.JInt 7);
                    ("creative_depth", Normalizer.JInt 3)])];
   Normalizer.JObj
     [("prompt_id", Normalizer.JStr "zz_9"); ("model", Normalizer.JStr "y");
      ("annotator_id", Normalizer.JStr "ann2");
      ("timestamp", Normalizer.JStr "2025-01-01T00:00:00Z")]].

Definition raw_rubric_without_model : list Normalizer.json :=
  [Normalizer.JObj
     [("prompt_id", Normalizer.JStr "ig_001");
      ("annotator_id", Normalizer.JStr "ann1");
      ("scores", Normalizer.JObj [("cultural_accuracy", Normalizer.JInt 4)])]].

(** A list of raw objects without a key. *)
Definition without_key (key : string)
    (raw : list (list (string * Normalizer.json)))
  : list (list (string * Normalizer.json)) :=
  map (filter (fun kv : string * Normalizer.json => kv.1 ≠ key)) raw.

(** The first object of [raw_pairwise], and the second without a key. *)
Definition raw_pairwise_one_without (key : string)
  : list (list (string * Normalizer.json)) :=
  match raw_pairwise with
  | first :: rest => first :: without_key key rest
  | [] => []
  end.

(** The first object of [raw_pairwise], and the second with neither its
    winner nor its annotator_id. *)
Definition raw_pairwise_sparse : list (list (string * Normalizer.json)) :=
  match raw_pairwise with
  | first :: rest => first :: without_key "winner"
                                (without_key "annotator_id" rest)
  | [] => []
  end.

Definition raw_rubric_null_scores : list Normalizer.json :=
  [Normalizer.JObj
     [("prompt_id", Normalizer.JStr "ig_001"); ("model", Normalizer.JStr "x");
      ("annotator_id", Normalizer.JStr "ann1");
      ("scores", Normalizer.JNull)]].

End Samples.

(** ** What [generate_report] passes to the calculators *)

Module Report.
Import WinRate.

(** [models = sorted(models_set)], the set being filled from the columns
    [model_a] and [model_b] of the pairwise frame and [model] of the rubric
    frame. *)
Definition discover_models (pairwise_df : list PairwiseRecord)
    (rubric_df : list RubricRecord) : list string :=
  Agreement.labels (map pw_model_a pairwise_df ++ map pw_model_b pairwise_df
                    ++ map rb_model rubric_df)%list.

(** [languages = sorted(languages_set)] *)
Definition discover_languages (pairwise_df : list PairwiseRecord)
    (rubric_df : list RubricRecord) : list string :=
  Agreement.labels (map pw_language pairwise_df
                    ++ map rb_language rubric_df)%list.

(** [ldf = pairwise_df[pairwise_df["language"] == lang]] *)
Definition by_language (lang : string) (pairwise_df : list PairwiseRecord)
  : list PairwiseRecord :=
  filter (fun r => pw_language r = lang) pairwise_df.

(** The loop of the section "Pairwise Win Rates": one rate matrix per
    language that has pairwise rows. *)
Definition language_win_rates (pairwise_df : list PairwiseRecord)
    (models languages : list string)
  : list (string * gmap (string * string) Q) :=
  omap (fun lang =>
          match by_language lang pairwise_df with
          | [] => None
          | ldf => Some (lang, _compute_win_rates ldf models)
          end) languages.

(** [m1] is declared winner against [m2] in [r], whatever the roster. *)
Definition declared_winner (m1 m2 : string) (r : PairwiseRecord) : bool :=
  (String.eqb (pw_winner r) "a"
   && String.eqb (pw_model_a r) m1 && String.eqb (pw_model_b r) m2)
  || (String.eqb (pw_winner r) "b"
      && String.eqb (pw_model_b r) m1 && String.eqb (pw_model_a r) m2).

(** What one iteration of the tally loop of the confidence-interval table
    adds to [w] for model [m]: the [elif] reads [model_b] only when
    [model_a] is another model. *)
Definition won_side (m : string) (r : PairwiseRecord) : bool :=
  if String.eqb (pw_model_a r) m then String.eqb (pw_winner r) "a"
  else String.eqb (pw_model_b r) m && String.eqb (pw_winner r) "b".

(** A record of roster model x against z, which the roster [x; y] does
    not hold: the last of [sample_rows]. *)
Definition sample_pair_xz : PairwiseRecord :=
  {| pw_prompt_id := "ig_001"; pw_model_a := "x"; pw_model_b := "z";
     pw_annotator_id := "ann1"; pw_winner := "a";
     pw_language := "igala"; pw_category := "real_world_use" |}.

Fixpoint Zsum (l : list Z) : Z :=
  match l with
  | [] => 0%Z
  | x :: l' => (x + Zsum l')%Z
  end.

End Report.

(** ** The run of [generate_report] *)

Module ReportRun.
Import Normalizer WinRate Agreement Report.

(** What a run does on raw annotation objects: it raises, or it returns;
    [Outside] marks the inputs outside the typed reading, for which this
    development says nothing. *)
Inductive outcome (A : Type) : Type :=
  | Raises (e : exn)
  | Outside
  | Returns (x : A).

Arguments Raises {A} e.
Arguments Outside {A}.
Arguments Returns {A} x.

Definition bindO {A B} (c : outcome A) (k : A -> outcome B) : outcome B :=
  match c with
  | Raises e => Raises e
  | Outside => Outside
  | Returns x => k x
  end.

Definition of_Exc {A} (c : Exc A) : outcome A :=
  match c with
  | inl e => Raises e
  | inr x => Returns x
  end.

Definition of_reading {A} (c : option A) : outcome A :=
  match c with
  | None => Outside
  | Some x => Returns x
  end.

(** [pairwise_df[key]], and [row[key]] in a loop over a frame that has
    rows: [KeyError] when the frame has no such column. *)
Definition read_column (key : string) (raw : list (list (string * json)))
  : outcome unit :=
  bindO (of_Exc (column key raw (@nil unit))) (fun _ => Returns tt).

Definition is_str (v : json) : bool :=
  match v with JStr _ => true | _ => false end.

Definition is_na (v : json) : bool :=
  match v with JNull => true | _ => false end.

(** [models = sorted(models_set)], then [m.title()] on each model:
    strings sort and have a title; a missing or null cell cannot be
    compared with a string. *)
Definition sort_models (cells : list json) : outcome unit :=
  if forallb is_str cells then Returns tt
  else if existsb is_str cells && forallb (fun v => is_str v || is_na v) cells
       then Raises TypeError
       else Outside.

(** The rows that count for the pairwise agreement: [nunique] and
    [pivot_table] leave out the rows whose [annotator_id] is missing. *)
Definition rated (rows : list PairwiseRow) (pairwise_df : list PairwiseRecord)
  : list PairwiseRecord :=
  map snd (filter (fun p => is_str (fp_annotator_id p.1) = true)
                  (zip rows pairwise_df)).

(** What the pairwise sections of the report hold: the overall win
    percentages, the rate matrix of each language, and the tallies of the
    table of confidence intervals. *)
Record PairwiseSection := {
  ps_overall_win_pct : gmap string Q;
  ps_language_tables : list (string * gmap (string * string) Q);
  ps_tallies : list (string * (Z * Z))
}.

(** The statistics of a report.  The tables of rubric means and the
    confidence intervals are computed from the same frames with [np.mean]
    and the bootstrap functions, which return on every list of numbers. *)
Record ReportData := {
  rd_models : list string;
  rd_languages : list string;
  rd_pairwise : option PairwiseSection;
  rd_rubric_alpha : list (dimension * option Q);
  rd_pairwise_alpha : option Q
}.

Definition report_data `{Krippendorff} (pairwise_df : list PairwiseRecord)
    (rated_df : list PairwiseRecord) (rubric_df : list RubricRecord)
  : ReportData :=
  let models := discover_models pairwise_df rubric_df in
  let languages := discover_languages pairwise_df rubric_df in
  {| rd_models := models;
     rd_languages := languages;
     rd_pairwise :=
       match pairwise_df with
       | [] => None
       | _ =>
           Some {| ps_overall_win_pct :=
                     _compute_overall_win_pct pairwise_df models;
                   ps_language_tables :=
                     language_win_rates pairwise_df models languages;
                   ps_tallies :=
                     map (fun m => (m, Bootstrap.raw_counts pairwise_df m))
                         models |}
       end;
     rd_rubric_alpha :=
       map (fun d => (d, _krippendorff_alpha_rubric rubric_df d))
           RUBRIC_DIMENSIONS;
     rd_pairwise_alpha := _krippendorff_alpha_pairwise rated_df |}.

(** What [generate_report] returns: the message that there are no
    annotations, or a report. *)
Inductive report := NoAnnotations | Report (data : ReportData).

(** [not pairwise_raw and not rubric_raw] *)
Definition no_annotations (pairwise_raw : list (list (string * json)))
    (rubric_raw : list json) : bool :=
  match pairwise_raw, rubric_raw with
  | [], [] => true
  | _, _ => false
  end.

(** The discovery of the roster: the columns [model_a] and [model_b] of
    a pairwise frame that is not empty, and the column [model] of the
    rubric frame. *)
Definition read_roster (pairwise_raw : list (list (string * json)))
    (frames : Frames) : outcome unit :=
  let rows := pairwise_rows frames in
  bindO (if frame_empty pairwise_raw then Returns []
         else
           bindO (read_column "model_a" pairwise_raw) (fun _ =>
           bindO (read_column "model_b" pairwise_raw) (fun _ =>
           Returns (map fp_model_a rows ++ map fp_model_b rows)%list)))
    (fun cells =>
       sort_models (cells ++ map fr_model (rubric_rows frames))%list).

(** The reads of the pairwise statistics, in the order of the report:
    [row["winner"]] in the loops of the win rates, then
    [pairwise_df["annotator_id"]] in the pairwise agreement; then the
    typed reading of the frame. *)
Definition read_pairwise (pairwise_raw : list (list (string * json)))
    (frames : Frames) : outcome (list PairwiseRecord) :=
  if frame_empty pairwise_raw then Returns []
  else
    bindO (read_column "winner" pairwise_raw) (fun _ =>
    bindO (read_column "annotator_id" pairwise_raw) (fun _ =>
    of_reading (typed_pairwise_frame (pairwise_rows frames)
                  (pairwise_meta frames).1 (pairwise_meta frames).2))).

(** [generate_report], from the lists of raw annotation objects on. *)
Definition generate_report `{Krippendorff}
    (prompt_meta : gmap string prompt_info)
    (pairwise_raw : list (list (string * json))) (rubric_raw : list json)
  : outcome report :=
  if no_annotations pairwise_raw rubric_raw then Returns NoAnnotations
  else
    bindO (of_Exc (build_frames prompt_meta pairwise_raw rubric_raw))
      (fun frames =>
    bindO (read_roster pairwise_raw frames) (fun _ =>
    bindO (of_reading (typed_rubric_frame (rubric_rows frames)
                         (rubric_meta frames).1 (rubric_meta frames).2))
      (fun rubric_df =>
    bindO (read_pairwise pairwise_raw frames) (fun pairwise_df =>
    Returns (Report (report_data pairwise_df
                       (rated (pairwise_rows frames) pairwise_df)
                       rubric_df)))))).

End ReportRun.

(** ** Prompt metadata *)

Module Metadata.
Import Normalizer.

(** The typed reading of an optional field: absent, or a string. *)
Definition opt_string (v : option json) : option (option string) :=
  match v with
  | None => Some None
  | Some (JStr s) => Some (Some s)
  | Some _ => None
  end.

(** An entry of a results file at the three keys that
    [_load_results_metadata] reads; [None] for an absent key. *)
Record ResultEntry := {
  re_prompt_id : option string;
  re_category : option string;
  re_language : option string
}.

(** The typed reading of an entry: an object whose values at these keys,
    where present, are strings; [None] for any other value. *)
Definition read_entry (entry : json) : option ResultEntry :=
  match entry with
  | JObj fields =>
      pid ← opt_string (assoc "prompt_id" fields);
      cat ← opt_string (assoc "category" fields);
      lang ← opt_string (assoc "language" fields);
      Some {| re_prompt_id := pid; re_category := cat; re_language := lang |}
  | _ => None
  end.

(** [results_list = data if isinstance(data, list) else
    data.get("results", [])], for a document that is a list, or an object
    whose results, if present, are a list. *)
Definition results_list (data : json) : option (list json) :=
  match data with
  | JArr items => Some items
  | JObj fields =>
      match assoc "results" fields with
      | None => Some []
      | Some (JArr items) => Some items
      | Some _ => None
      end
  | _ => None
  end.

Definition entry_info (entry : ResultEntry) : prompt_info :=
  {| category := default "unknown" (re_category entry);
     language := default "unknown" (re_language entry) |}.

(** The body of the loop [for entry in results_list]. *)
Definition add_entry (meta : gmap string prompt_info) (entry : ResultEntry)
  : gmap string prompt_info :=
  let pid := default "" (re_prompt_id entry) in
  if negb (String.eqb pid "") && bool_decide (meta !! pid = None)
  then <[pid := entry_info entry]> meta
  else meta.

(** [_load_results_metadata], from the parsed content [data] of the latest
    results file on. *)
Definition _load_results_metadata (data : json)
  : option (gmap string prompt_info) :=
  items ← results_list data;
  entries ← mapM read_entry items;
  Some (fold_left add_entry entries ∅).

(** A prompt of a YAML catalogue, and a catalogue: [None] for an absent
    key. *)
Record PromptEntry := {
  pe_id : option string;
  pe_text : option string;
  pe_language : option string;
  pe_category : option string
}.

Record Catalogue := {
  cat_language : option string;
  cat_prompts : option (list PromptEntry)
}.

(** A file of the prompts directory: its name and what [yaml.safe_load]
    gives, [None] for an empty file.  The files come in the order of
    [sorted(prompts_dir.glob("*.yaml"))]. *)
Definition catalogue_file : Type := string * option Catalogue.

Fixpoint foldE {A B} (f : B -> A -> Exc B) (l : list A) (b : B) : Exc B :=
  match l with
  | [] => inr b
  | x :: l' => bindE (f b x) (foldE f l')
  end.

Definition prompt_entry_info (doc : Catalogue) (p : PromptEntry)
  : prompt_info :=
  {| category := default "unknown" (pe_category p);
     language := default (default "unknown" (pe_language p))
                   (cat_language doc) |}.

(** [meta[p["id"]] = {...}] *)
Definition add_prompt (doc : Catalogue) (meta : gmap string prompt_info)
    (p : PromptEntry) : Exc (gmap string prompt_info) :=
  match pe_id p with
  | None => inl (KeyError "id")
  | Some id => inr (<[id := prompt_entry_info doc p]> meta)
  end.

(** One iteration of the loop over the files. *)
Definition load_file (meta : gmap string prompt_info) (file : catalogue_file)
  : Exc (gmap string prompt_info) :=
  if String.eqb file.1 "schema.yaml" then inr meta
  else
    match file.2 with
    | None => inl AttributeError
    | Some doc => foldE (add_prompt doc) (default [] (cat_prompts doc)) meta
    end.

Definition _load_prompt_metadata (files : list catalogue_file)
  : Exc (gmap string prompt_info) :=
  foldE load_file files ∅.

(** The prompts of the catalogues other than [schema.yaml], each with its
    catalogue, in the order of the files. *)
Definition catalogue_prompts (files : list catalogue_file)
  : list (Catalogue * PromptEntry) :=
  flat_map (fun file : catalogue_file =>
              if String.eqb file.1 "schema.yaml" then []
              else
                match file.2 with
                | Some doc => map (pair doc) (default [] (cat_prompts doc))
                | None => []
                end) files.

End Metadata.

(** ** The run planner of [run_models.py] *)

Module RunModels.
Import Normalizer Metadata.

(** [load_prompts]: the prompts of every catalogue but [schema.yaml]; a
    file that is empty or has no prompts contributes nothing. *)
Definition load_prompts (files : list catalogue_file) : list PromptEntry :=
  flat_map (fun file : catalogue_file =>
              if String.eqb file.1 "schema.yaml" then []
              else
                match file.2 with
                | Some doc => default [] (cat_prompts doc)
                | None => []
                end) files.

Inductive provider := anthropic | openai | google.

#[global] Instance provider_eq_dec : EqDecision provider.
Proof. solve_decision. Defined.

Record model_info := { mi_provider : provider; mi_model_id : string }.

Definition MODEL_REGISTRY : list (string * model_info) :=
  [("claude", {| mi_provider := anthropic;
                 mi_model_id := "claude-sonnet-4-5-20250929" |});
   ("chatgpt", {| mi_provider := openai; mi_model_id := "gpt-4o" |});
   ("gemini", {| mi_provider := google;
                 mi_model_id := "gemini-2.0-flash" |});
   ("gemma", {| mi_provider := google; mi_model_id := "gemma-2-9b-it" |})].

Fixpoint registry_get (registry : list (string * model_info))
    (alias : string) : option model_info :=
  match registry with
  | [] => None
  | (k, info) :: registry' =>
      if String.eqb k alias then Some info else registry_get registry' alias
  end.

(** A prompt with the four keys that the runner reads. *)
Record prompt := {
  p_id : string;
  p_text : string;
  p_language : string;
  p_category : string
}.

Definition task : Type := prompt * string * model_info.

(** [MODEL_REGISTRY[alias]] *)
Definition model_of (alias : string) : Exc model_info :=
  match registry_get MODEL_REGISTRY alias with
  | Some info => inr info
  | None => inl (KeyError alias)
  end.

(** The work list of [run_all]: every prompt with every alias, prompt by
    prompt. *)
Definition work_list (prompts : list prompt) (model_aliases : list string)
  : Exc (list task) :=
  bindE (traverse (fun p =>
                     traverse (fun alias =>
                                 bindE (model_of alias)
                                       (fun info => inr (p, alias, info)))
                              model_aliases)
                  prompts)
        (fun rows => inr (concat rows)).

(** A result of [_run_single]. *)
Record result := {
  res_prompt_id : string;
  res_prompt_text : string;
  res_prompt_language : string;
  res_prompt_category : string;
  res_model : string;
  res_model_alias : string;
  res_output_text : string;
  res_timestamp : string;
  res_tokens_input : Z;
  res_tokens_output : Z;
  res_latency_ms : Z;
  res_error : option string
}.

(** What the call of the provider gives: the text of the exception,
    [f"{type(exc).__name__}: {exc}"], or the output text, the two token
    counts and the latency. *)
Definition response : Type := string + (string * Z * Z * Z).

Definition _run_single (p : prompt) (alias : string) (info : model_info)
    (timestamp : string) (resp : response) : result :=
  match resp with
  | inr (output_text, tokens_in, tokens_out, latency_ms) =>
      {| res_prompt_id := p_id p; res_prompt_text := p_text p;
         res_prompt_language := p_language p;
         res_prompt_category := p_category p;
         res_model := mi_model_id info; res_model_alias := alias;
         res_output_text := output_text; res_timestamp := timestamp;
         res_tokens_input := tokens_in; res_tokens_output := tokens_out;
         res_latency_ms := latency_ms; res_error := None |}
  | inl message =>
      {| res_prompt_id := p_id p; res_prompt_text := p_text p;
         res_prompt_language := p_language p;
         res_prompt_category := p_category p;
         res_model := mi_model_id info; res_model_alias := alias;
         res_output_text := EmptyString; res_timestamp := timestamp;
         res_tokens_input := 0; res_tokens_output := 0;
         res_latency_ms := 0; res_error := Some message |}
  end.

(** The object that [json.dump] writes for a result: the keys of
    [result_base], in the order of insertion. *)
Definition result_object (r : result) : json :=
  JObj [("prompt_id", JStr (res_prompt_id r));
        ("prompt_text", JStr (res_prompt_text r));
        ("prompt_language", JStr (res_prompt_language r));
        ("prompt_category", JStr (res_prompt_category r));
        ("model", JStr (res_model r));
        ("model_alias", JStr (res_model_alias r));
        ("output_text", JStr (res_output_text r));
        ("timestamp", JStr (res_timestamp r));
        ("token_count", JObj [("input", JInt (res_tokens_input r));
                              ("output", JInt (res_tokens_output r))]);
        ("latency_ms", JInt (res_latency_ms r));
        ("error", match res_error r with
                  | None => JNull
                  | Some message => JStr message
                  end)].

(** The document [run_data] that [_save_results] writes. *)
Definition run_file (run_id timestamp : string) (temperature : Q)
    (max_tokens : Z) (results : list result) : json :=
  JObj [("run_id", JStr run_id);
        ("timestamp", JStr timestamp);
        ("parameters", JObj [("temperature", JFloat temperature);
                             ("max_tokens", JInt max_tokens)]);
        ("prompt_catalogue_version", JStr "1.0");
        ("results", JArr (map result_object results))].

(** [_completed_keys]: the pairs that have a result without error. *)
Definition _completed_keys (results : list result) : gset (string * string) :=
  fold_left (fun keys r =>
               match res_error r with
               | None => {[ (res_prompt_id r, res_model_alias r) ]} ∪ keys
               | Some _ => keys
               end) results ∅.

Definition task_key (t : task) : string * string := (p_id t.1.1, t.1.2).

(** [remaining = [(p, a, m) for p, a, m in work
                  if (p["id"], a) not in completed]] *)
Definition remaining (work : list task) (completed : gset (string * string))
  : list task :=
  filter (fun t => task_key t ∉ completed) work.

(** [done_so_far = total - len(remaining)] *)
Definition done_so_far (work : list task) (completed : gset (string * string))
  : Z :=
  (Z.of_nat (length work) - Z.of_nat (length (remaining work completed)))%Z.

(** The dict [provider_queues], in the order of insertion: the queue of a
    provider is created by its first item. *)
Fixpoint put_nowait (queues : list (provider * list task)) (item : task)
  : list (provider * list task) :=
  match queues with
  | [] => [(mi_provider item.2, [item])]
  | (p, queue) :: queues' =>
      if decide (p = mi_provider item.2)
      then (p, (queue ++ [item])%list) :: queues'
      else (p, queue) :: put_nowait queues' item
  end.

Definition provider_queues (remaining : list task)
  : list (provider * list task) :=
  fold_left put_nowait remaining [].

(** The items in the queue of a provider; none when it has no queue. *)
Fixpoint queue_of (queues : list (provider * list task)) (p : provider)
  : list task :=
  match queues with
  | [] => []
  | (p', queue) :: queues' =>
      if decide (p' = p) then queue else queue_of queues' p
  end.

(** Sample results of one run. *)
Definition sample_prompt : prompt :=
  {| p_id := "ig_001"; p_text := "text"; p_language := "igala";
     p_category := "real_world_use" |}.

Definition sample_results : list result :=
  [_run_single sample_prompt "claude"
     {| mi_provider := anthropic;
        mi_model_id := "claude-sonnet-4-5-20250929" |}
     "2025-01-01T00:00:00+00:00" (inr ("out", 3, 4, 120)%Z);
   _run_single sample_prompt "gemma"
     {| mi_provider := google; mi_model_id := "gemma-2-9b-it" |}
     "2025-01-01T00:00:01+00:00" (inl "TimeoutError: timed out")].

End RunModels.

(** Decide a closed decidable proposition by evaluation. *)
Ltac by_decide := refine (bool_decide_unpack _ _); vm_compute; exact I.

(** * Properties *)

Module WinRateFacts.
Import WinRate.

Lemma bump_count (k : string * string) matrix (m1 m2 : string) :
  count_or_0 (bump k matrix) m1 m2
  = (count_or_0 matrix m1 m2 + if decide (k = (m1, m2)) then 1 else 0)%Z.
Proof.
  unfold count_or_0, bump.
  destruct (matrix !! k) as [c|] eqn:Hk;
    destruct (decide (k = (m1, m2))) as [->|Hne].
  - rewrite lookup_insert_eq, Hk. reflexivity.
  - rewrite lookup_insert_ne by done. simpl. lia.
  - rewrite lookup_insert_eq, Hk. reflexivity.
  - rewrite lookup_insert_ne by done. simpl. lia.
Qed.

Lemma touch_count (k : string * string) matrix (m1 m2 : string) :
  count_or_0 (touch k matrix) m1 m2 = count_or_0 matrix m1 m2.
Proof.
  unfold count_or_0, touch.
  destruct (matrix !! k) as [c|] eqn:Hk; [reflexivity|].
  destruct (decide (k = (m1, m2))) as [->|Hne].
  - rewrite lookup_insert_eq, Hk. reflexivity.
  - rewrite lookup_insert_ne by done. reflexivity.
Qed.

Lemma eqb_a_b (s : string) : String.eqb s "a" = true -> String.eqb s "b" = false.
Proof. intros H%String.eqb_eq. subst. reflexivity. Qed.

Lemma tally_count models matrix row (m1 m2 : string) :
  count_or_0 (tally models matrix row) m1 m2
  = (count_or_0 matrix m1 m2 + if beats models m1 m2 row then 1 else 0)%Z.
Proof.
  unfold tally, beats.
  destruct (bool_decide (pw_model_a row ∈ models)); simpl; [|lia].
  destruct (bool_decide (pw_model_b row ∈ models)); simpl; [|lia].
  destruct (String.eqb (pw_winner row) "a") eqn:Ha; simpl.
  - rewrite (eqb_a_b _ Ha). simpl. rewrite orb_false_r.
    rewrite touch_count, bump_count. f_equal.
    destruct (decide _) as [Heq|Hne].
    + injection Heq as -> ->. by rewrite !String.eqb_refl.
    + destruct (String.eqb (pw_model_a row) m1) eqn:E1; [|done].
      destruct (String.eqb (pw_model_b row) m2) eqn:E2; [|done].
      apply String.eqb_eq in E1, E2. congruence.
  - destruct (String.eqb (pw_winner row) "b") eqn:Hb; simpl; [|lia].
    rewrite touch_count, bump_count. f_equal.
    destruct (decide _) as [Heq|Hne].
    + injection Heq as -> ->. by rewrite !String.eqb_refl.
    + destruct (String.eqb (pw_model_b row) m1) eqn:E1; [|done].
      destruct (String.eqb (pw_model_a row) m2) eqn:E2; [|done].
      apply String.eqb_eq in E1, E2. congruence.
Qed.

Lemma fold_tally_count models rows : forall matrix (m1 m2 : string),
  count_or_0 (fold_left (tally models) rows matrix) m1 m2
  = (count_or_0 matrix m1 m2 + wins models rows m1 m2)%Z.
Proof.
  induction rows as [|r rows IH]; intros matrix m1 m2; simpl.
  - unfold wins. simpl. lia.
  - rewrite IH, tally_count. unfold wins. simpl. lia.
Qed.

Lemma win_counts_wins models rows (m1 m2 : string) :
  count_or_0 (win_counts rows models) m1 m2 = wins models rows m1 m2.
Proof.
  unfold win_counts. rewrite fold_tally_count.
  unfold count_or_0. rewrite lookup_empty. reflexivity.
Qed.

Lemma count_nonneg {A} (p : A -> bool) l : (0 <= count p l)%Z.
Proof. induction l as [|x l IH]; simpl; [lia|]. destruct (p x); lia. Qed.

(** Lookup in the rate frame after the inner and the outer loop. *)
Lemma fill_rate_row matrix (m1 : string) cols : forall rate (k1 k2 : string),
  fold_left (fill_rate matrix m1) cols rate !! (k1, k2)
  = if decide (k1 = m1 ∧ k2 ∈ cols ∧ is_Some (rate_cell matrix k1 k2))
    then rate_cell matrix k1 k2 else rate !! (k1, k2).
Proof.
  induction cols as [|c cols IH]; intros rate k1 k2; cbn [fold_left].
  - case_decide as H; [|done]. destruct H as (_ & H & _). by inversion H.
  - rewrite IH. unfold fill_rate.
    destruct (decide (k1 = m1 ∧ k2 ∈ cols ∧ _)) as [(-> & Hin & Hs)|Hn].
    + rewrite decide_True; [done|]. split_and!; [done| |done]. by right.
    + destruct (rate_cell matrix m1 c) as [q|] eqn:Hc.
      * destruct (decide ((m1, c) = (k1, k2))) as [Heq|Hne].
        -- injection Heq as <- <-. rewrite lookup_insert_eq.
           rewrite decide_True; [by rewrite Hc|].
           split_and!; [done|by left|by rewrite Hc].
        -- rewrite lookup_insert_ne by done.
           rewrite decide_False; [done|].
           intros (-> & Hin & Hs). apply elem_of_cons in Hin as [->|Hin].
           ++ by apply Hne.
           ++ by apply Hn.
      * rewrite decide_False; [done|].
        intros (-> & Hin & Hs). apply elem_of_cons in Hin as [->|Hin].
        -- rewrite Hc in Hs. by destruct Hs.
        -- by apply Hn.
Qed.

Lemma fill_rate_rows matrix cols rows : forall rate (k1 k2 : string),
  fold_left (fun rate_matrix m1 =>
               fold_left (fill_rate matrix m1) cols rate_matrix) rows rate
    !! (k1, k2)
  = if decide (k1 ∈ rows ∧ k2 ∈ cols ∧ is_Some (rate_cell matrix k1 k2))
    then rate_cell matrix k1 k2 else rate !! (k1, k2).
Proof.
  induction rows as [|r rows IH]; intros rate k1 k2; cbn [fold_left].
  - case_decide as H; [|done]. destruct H as (H & _). by inversion H.
  - rewrite IH, fill_rate_row.
    destruct (decide (k1 ∈ rows ∧ _)) as [(Hin & Hc & Hs)|Hn].
    + rewrite decide_True; [done|]. split_and!; [by right|done|done].
    + destruct (decide (k1 = r ∧ _)) as [(-> & Hc & Hs)|Hn'].
      * rewrite decide_True; [done|]. split_and!; [by left|done|done].
      * rewrite decide_False; [done|].
        intros (Hin & Hc & Hs). apply elem_of_cons in Hin as [->|Hin].
        -- by apply Hn'.
        -- by apply Hn.
Qed.

Lemma rates_lookup rows models (m1 m2 : string) :
  _compute_win_rates rows models !! (m1, m2)
  = if decide (m1 ∈ models ∧ m2 ∈ models)
    then rate_cell (win_counts rows models) m1 m2 else None.
Proof.
  unfold _compute_win_rates. rewrite fill_rate_rows, lookup_empty.
  destruct (rate_cell (win_counts rows models) m1 m2) as [q|] eqn:Hc.
  - destruct (decide (m1 ∈ models ∧ m2 ∈ models)) as [[H1 H2]|Hn].
    + rewrite decide_True; [done|]. split_and!; done.
    + rewrite decide_False; [done|]. intros (H1 & H2 & _). by apply Hn.
  - repeat case_decide; done.
Qed.

Lemma rate_cell_wins rows models (m1 m2 : string) :
  m1 ≠ m2 ->
  rate_cell (win_counts rows models) m1 m2
  = let w := wins models rows m1 m2 in
    let l := wins models rows m2 m1 in
    if (0 <? w + l)%Z then Some (inject_Z w / inject_Z (w + l))%Q else None.
Proof.
  intros Hne. unfold rate_cell. rewrite decide_False by done.
  by rewrite !win_counts_wins.
Qed.

(** C3: for distinct roster models the rate cell is
    wins(m1 beats m2) / (wins(m1 beats m2) + wins(m2 beats m1)), counted
    over the records with winner a or b and both models in the roster; it
    is the undefined placeholder when the pair has no decisive record; and
    every diagonal cell is the undefined placeholder. *)
Theorem win_rate_matrix_cells (pairwise_df : list PairwiseRecord)
    (models : list string) :
  NoDup models ->
  (forall m : string, _compute_win_rates pairwise_df models !! (m, m) = None)
  /\ (forall m1 m2 : string, m1 ∈ models -> m2 ∈ models -> m1 ≠ m2 ->
      let w := wins models pairwise_df m1 m2 in
      let l := wins models pairwise_df m2 m1 in
      ((w + l = 0)%Z ->
       _compute_win_rates pairwise_df models !! (m1, m2) = None)
      /\ ((0 < w + l)%Z ->
          _compute_win_rates pairwise_df models !! (m1, m2)
          = Some (inject_Z w / inject_Z (w + l))%Q)).
Proof.
  intros _. split.
  - intros m. rewrite rates_lookup. case_decide; [|done].
    unfold rate_cell. by rewrite decide_True.
  - intros m1 m2 H1 H2 Hne w l. rewrite rates_lookup.
    rewrite decide_True by done. rewrite rate_cell_wins by done.
    subst w l. cbv zeta. split; intros H.
    + rewrite H. reflexivity.
    + apply Z.ltb_lt in H. by rewrite H.
Qed.

Lemma nodup_xy : NoDup ["x"; "y"].
Proof. by_decide. Defined.

Lemma win_rate_matrix_cells_witness :
  _compute_win_rates sample_rows ["x"; "y"] !! ("x", "y")
  = Some (inject_Z 3 / inject_Z (3 + 1))%Q.
Proof.
  destruct (win_rate_matrix_cells sample_rows ["x"; "y"] nodup_xy) as [_ H].
  apply (H "x" "y").
  - by_decide.
  - by_decide.
  - discriminate.
  - vm_compute. reflexivity.
Defined.

Lemma complement_sum (w l : Z) :
  (0 < w + l)%Z ->
  (inject_Z w / inject_Z (w + l) + inject_Z l / inject_Z (l + w) == 1)%Q.
Proof.
  intros H. rewrite (Z.add_comm l w).
  assert (Hnz : ~ (inject_Z (w + l) == 0)%Q).
  { unfold Qeq. simpl. lia. }
  rewrite inject_Z_plus in *. field. exact Hnz.
Qed.

(** C4: whenever both directions of a pair of distinct roster models are
    defined, the two rate cells sum to 1; with three wins of m1 over m2
    and one of m2 over m1 the cells are 0.75 and 0.25. *)
Theorem win_rates_complementary (pairwise_df : list PairwiseRecord)
    (models : list string) (m1 m2 : string) :
  NoDup models -> m1 ∈ models -> m2 ∈ models -> m1 ≠ m2 ->
  (forall q1 q2 : Q,
      _compute_win_rates pairwise_df models !! (m1, m2) = Some q1 ->
      _compute_win_rates pairwise_df models !! (m2, m1) = Some q2 ->
      (q1 + q2 == 1)%Q)
  /\ (wins models pairwise_df m1 m2 = 3%Z ->
      wins models pairwise_df m2 m1 = 1%Z ->
      _compute_win_rates pairwise_df models !! (m1, m2) = Some (3 # 4)%Q
      /\ _compute_win_rates pairwise_df models !! (m2, m1) = Some (1 # 4)%Q).
Proof.
  intros _ H1 H2 Hne. rewrite !rates_lookup.
  rewrite !decide_True by done.
  rewrite !rate_cell_wins by done. cbv zeta.
  split.
  - intros q1 q2.
    destruct (0 <? _)%Z eqn:E1; [|done].
    destruct (0 <? wins models pairwise_df m2 m1 + _)%Z eqn:E2; [|done].
    intros [= <-] [= <-]. apply complement_sum. by apply Z.ltb_lt.
  - intros -> ->. split; reflexivity.
Qed.

Lemma win_rates_complementary_witness :
  _compute_win_rates sample_rows ["x"; "y"] !! ("x", "y") = Some (3 # 4)%Q
  /\ _compute_win_rates sample_rows ["x"; "y"] !! ("y", "x") = Some (1 # 4)%Q.
Proof.
  apply (win_rates_complementary sample_rows ["x"; "y"] "x" "y" nodup_xy).
  - by_decide.
  - by_decide.
  - discriminate.
  - vm_compute. reflexivity.
  - vm_compute. reflexivity.
Defined.

(** *** Overall win percentage *)

Lemma fold_insert_lookup {V} (f : string -> V) (keys : list string) :
  forall (d : gmap string V) (k : string),
  fold_left (fun d m => <[m := f m]> d) keys d !! k
  = if decide (k ∈ keys) then Some (f k) else d !! k.
Proof.
  induction keys as [|x keys IH]; intros d k; cbn [fold_left].
  - rewrite decide_False; [done|]. by inversion 1.
  - rewrite IH. destruct (decide (k ∈ keys)) as [Hin|Hn].
    + rewrite decide_True; [done|]. by right.
    + destruct (decide (x = k)) as [->|Hne].
      * rewrite lookup_insert_eq. rewrite decide_True; [done|]. by left.
      * rewrite lookup_insert_ne by done. rewrite decide_False; [done|].
        intros [->|Hin]%elem_of_cons; done.
Qed.

Lemma zero_dict_lookup (models : list string) (m : string) :
  m ∈ models -> zero_dict models !! m = Some 0%Z.
Proof.
  intros Hin. unfold zero_dict.
  rewrite (fold_insert_lookup (fun _ => 0%Z)). by rewrite decide_True.
Qed.

Lemma incr_lookup (k m : string) (d : gmap string Z) :
  incr k d !! m
  = (fun c => (c + if String.eqb k m then 1 else 0)%Z) <$> d !! m.
Proof.
  unfold incr. destruct (String.eqb k m) eqn:E.
  - apply String.eqb_eq in E as ->. by rewrite lookup_alter_eq.
  - apply String.eqb_neq in E. rewrite lookup_alter_ne by done.
    destruct (d !! m); simpl; [f_equal; lia|done].
Qed.

Lemma eqb_in_roster (models : list string) (x m : string) :
  m ∈ models -> bool_decide (x ∈ models) = false -> String.eqb x m = false.
Proof.
  intros Hin Hx. apply String.eqb_neq. intros ->.
  apply bool_decide_eq_false in Hx. done.
Qed.

Lemma count_total_lookup (models : list string) (d : gmap string Z) row (m : string) :
  m ∈ models ->
  count_total models d row !! m = (fun c => (c + sides m row)%Z) <$> d !! m.
Proof.
  intros Hin. unfold count_total, sides.
  destruct (bool_decide (pw_model_b row ∈ models)) eqn:Eb;
    destruct (bool_decide (pw_model_a row ∈ models)) eqn:Ea;
    rewrite ?incr_lookup, ?(eqb_in_roster models _ m Hin Ea),
            ?(eqb_in_roster models _ m Hin Eb);
    destruct (d !! m); simpl; try done; f_equal; lia.
Qed.

Lemma count_wins_lookup (models : list string) (d : gmap string Z) row (m : string) :
  m ∈ models ->
  count_wins models d row !! m
  = (fun c => (c + if won_by m row then 1 else 0)%Z) <$> d !! m.
Proof.
  intros Hin. unfold count_wins, won_by.
  destruct (String.eqb (pw_winner row) "a") eqn:Ha; simpl.
  - rewrite (eqb_a_b _ Ha). simpl. rewrite orb_false_r.
    destruct (bool_decide (pw_model_a row ∈ models)) eqn:Ea.
    + by rewrite incr_lookup.
    + rewrite (eqb_in_roster models _ m Hin Ea).
      destruct (d !! m); simpl; [f_equal; lia|done].
  - destruct (String.eqb (pw_winner row) "b") eqn:Hb; simpl.
    + destruct (bool_decide (pw_model_b row ∈ models)) eqn:Eb.
      * by rewrite incr_lookup.
      * rewrite (eqb_in_roster models _ m Hin Eb).
        destruct (d !! m); simpl; [f_equal; lia|done].
    + destruct (d !! m); simpl; [f_equal; lia|done].
Qed.

Lemma fold_count_total (models : list string) rows (m : string) :
  m ∈ models -> forall d : gmap string Z,
  fold_left (count_total models) rows d !! m
  = (fun c => (c + total_sides m rows)%Z) <$> d !! m.
Proof.
  intros Hin. induction rows as [|r rows IH]; intros d; cbn [fold_left].
  - simpl. destruct (d !! m); simpl; [f_equal; lia|done].
  - rewrite IH, count_total_lookup by done.
    destruct (d !! m); simpl; [f_equal; lia|done].
Qed.

Lemma fold_count_wins (models : list string) rows (m : string) :
  m ∈ models -> forall d : gmap string Z,
  fold_left (count_wins models) rows d !! m
  = (fun c => (c + count (won_by m) rows)%Z) <$> d !! m.
Proof.
  intros Hin. induction rows as [|r rows IH]; intros d; cbn [fold_left].
  - simpl. destruct (d !! m); simpl; [f_equal; lia|done].
  - rewrite IH, count_wins_lookup by done.
    destruct (d !! m); simpl; [f_equal; lia|done].
Qed.

Lemma overall_win_pct_lookup rows (models : list string) (m : string) :
  m ∈ models ->
  _compute_overall_win_pct rows models !! m
  = Some (let w := count (won_by m) rows in
          let t := total_sides m rows in
          if (0 <? t)%Z then (inject_Z w / inject_Z t * 100)%Q else 0%Q).
Proof.
  intros Hin. unfold _compute_overall_win_pct. cbv zeta.
  rewrite (fold_insert_lookup (pct_of _ _)). rewrite decide_True by done.
  unfold pct_of.
  rewrite fold_count_total, fold_count_wins, zero_dict_lookup by done.
  reflexivity.
Qed.

Lemma won_le_sides (m : string) r :
  ((if won_by m r then 1 else 0) <= sides m r)%Z.
Proof.
  unfold won_by, sides.
  destruct (String.eqb (pw_winner r) "a") eqn:Ha.
  - rewrite (eqb_a_b _ Ha). simpl.
    destruct (String.eqb (pw_model_a r) m), (String.eqb (pw_model_b r) m);
      simpl; lia.
  - destruct (String.eqb (pw_winner r) "b"),
      (String.eqb (pw_model_a r) m), (String.eqb (pw_model_b r) m);
      simpl; lia.
Qed.

Lemma won_le_total_sides (m : string) rows :
  (0 <= count (won_by m) rows <= total_sides m rows)%Z.
Proof.
  induction rows as [|r rows IH]; simpl; [lia|].
  pose proof (won_le_sides m r). destruct (won_by m r); lia.
Qed.

Lemma sides_appears (m : string) r :
  pw_model_a r ≠ pw_model_b r ->
  sides m r = if appears m r then 1%Z else 0%Z.
Proof.
  intros Hne. unfold sides, appears.
  destruct (String.eqb (pw_model_a r) m) eqn:Ea;
    destruct (String.eqb (pw_model_b r) m) eqn:Eb; simpl; try done.
  apply String.eqb_eq in Ea, Eb. congruence.
Qed.

Lemma total_sides_appears (m : string) rows :
  Forall (fun r => pw_model_a r ≠ pw_model_b r) rows ->
  total_sides m rows = count (appears m) rows.
Proof.
  induction 1 as [|r rows Hr _ IH]; simpl; [done|].
  by rewrite IH, sides_appears.
Qed.

Lemma pct_bounds (w t : Z) :
  (0 <= w <= t)%Z -> (0 < t)%Z ->
  (0 <= inject_Z w / inject_Z t * 100 <= 100)%Q.
Proof.
  intros Hw Ht. destruct t as [|p|p]; try lia.
  rewrite <- Qmake_Qdiv. unfold Qle, Qmult. simpl. split; nia.
Qed.

Lemma appears_sides (m : string) r :
  ((if appears m r then 1 else 0) <= sides m r
   <= 2 * (if appears m r then 1 else 0))%Z.
Proof.
  unfold sides, appears.
  destruct (String.eqb (pw_model_a r) m), (String.eqb (pw_model_b r) m);
    simpl; lia.
Qed.

Lemma appears_total_sides (m : string) rows :
  (count (appears m) rows <= total_sides m rows
   <= 2 * count (appears m) rows)%Z.
Proof.
  induction rows as [|r rows IH]; simpl; [lia|].
  pose proof (appears_sides m r). lia.
Qed.

(** C5, as amended: the overall win percentage of a roster model lies in
    [0, 100] and is 0 when the model never appears, for every record set.
    It is 100 times the number of records the model wins over the number
    of sides it occupies, ties counting in the denominator only; when
    model_a and model_b differ in every record that denominator is the
    number of records in which the model is model_a or model_b. *)
Theorem overall_win_pct_value (pairwise_df : list PairwiseRecord)
    (models : list string) (m : string) :
  m ∈ models ->
  let w := count (won_by m) pairwise_df in
  let t := count (appears m) pairwise_df in
  let s := total_sides m pairwise_df in
  exists q : Q,
    _compute_overall_win_pct pairwise_df models !! m = Some q
    /\ (0 <= q <= 100)%Q
    /\ (t = 0%Z -> q = 0%Q)
    /\ (q == if (0 <? s)%Z then 100 * (inject_Z w / inject_Z s) else 0)%Q
    /\ (Forall (fun r => pw_model_a r ≠ pw_model_b r) pairwise_df ->
        (q == if (0 <? t)%Z then 100 * (inject_Z w / inject_Z t) else 0)%Q).
Proof.
  intros Hin w t s. eexists. split; [by apply overall_win_pct_lookup|].
  cbv zeta. fold w s.
  pose proof (won_le_total_sides m pairwise_df) as Hb. fold w s in Hb.
  pose proof (appears_total_sides m pairwise_df) as Ha. fold t s in Ha.
  assert (Hq : ((if (0 <? s)%Z then inject_Z w / inject_Z s * 100 else 0)
                == (if (0 <? s)%Z then 100 * (inject_Z w / inject_Z s)
                    else 0))%Q).
  { destruct (0 <? s)%Z; [ring|reflexivity]. }
  split; [|split; [|split]].
  - destruct (0 <? s)%Z eqn:Es.
    + apply Z.ltb_lt in Es. apply pct_bounds; lia.
    + split; unfold Qle; simpl; lia.
  - intros Ht. assert (Hs : (0 <? s)%Z = false) by (apply Z.ltb_ge; lia).
    by rewrite Hs.
  - exact Hq.
  - intros Hinv. rewrite Hq. subst s t.
    by rewrite (total_sides_appears m _ Hinv).
Qed.

Lemma overall_win_pct_value_witness :
  exists q : Q,
    _compute_overall_win_pct sample_rows ["x"; "y"] !! "x" = Some q
    /\ (0 <= q <= 100)%Q
    /\ (q == 100 * (inject_Z 4 / inject_Z 6))%Q.
Proof.
  destruct (overall_win_pct_value sample_rows ["x"; "y"] "x")
    as (q & Hq & Hb & _ & _ & Hinv).
  - by_decide.
  - exists q. split; [exact Hq|]. split; [exact Hb|].
    apply Hinv. by_decide.
Defined.

(** One record with model x on both sides and winner a: x wins one record
    and appears in one record, which would make 100, but the code counts
    the two sides and gives 50. *)
Lemma self_pair_counts_twice :
  let rows :=
    [{| pw_prompt_id := "ig_001"; pw_model_a := "x"; pw_model_b := "x";
        pw_annotator_id := "ann1"; pw_winner := "a";
        pw_language := "igala"; pw_category := "real_world_use" |}] in
  count (won_by "x") rows = 1%Z
  /\ count (appears "x") rows = 1%Z
  /\ exists q : Q,
       _compute_overall_win_pct rows ["x"] !! "x" = Some q
       /\ (q == 50)%Q
       /\ ~ (q == 100 * (inject_Z 1 / inject_Z 1))%Q.
Proof.
  cbv zeta. split_and!; [reflexivity|reflexivity|].
  eexists. split; [vm_compute; reflexivity|].
  split; [reflexivity|]. intros H. vm_compute in H. discriminate H.
Qed.

(** Without that invariant the denominator is still the number of sides:
    a record with the model on both sides adds two to it. *)
Lemma overall_win_pct_sides (pairwise_df : list PairwiseRecord)
    (models : list string) (m : string) :
  m ∈ models ->
  _compute_overall_win_pct pairwise_df models !! m
  = Some (if (0 <? total_sides m pairwise_df)%Z
          then (inject_Z (count (won_by m) pairwise_df)
                / inject_Z (total_sides m pairwise_df) * 100)%Q
          else 0%Q).
Proof. apply overall_win_pct_lookup. Qed.

End WinRateFacts.
Module AgreementFacts.
Import Agreement.

Lemma labels_length (l : list string) : length (labels l) = nunique l.
Proof.
  unfold labels, nunique. apply Permutation_length, merge_sort_Permutation.
Qed.

Lemma labels_elem (x : string) (l : list string) : x ∈ labels l <-> x ∈ l.
Proof.
  unfold labels. rewrite merge_sort_Permutation. apply elem_of_remove_dups.
Qed.

Lemma pivot_length (rows : list rating) :
  length (pivot_table rows) = nunique (map r_annotator rows).
Proof. unfold pivot_table. by rewrite length_map, labels_length. Qed.

(** The annotators that survive a filter are annotators of the frame. *)
Lemma nunique_mono (l k : list string) :
  (forall x, x ∈ l -> x ∈ k) -> nunique l <= nunique k.
Proof.
  intros Hsub. unfold nunique. apply submseteq_length, NoDup_submseteq.
  - apply NoDup_remove_dups.
  - intros x. rewrite !elem_of_remove_dups. apply Hsub.
Qed.

Lemma coded_annotators (pairwise_df : list PairwiseRecord) (x : string) :
  x ∈ map r_annotator (pairwise_coded pairwise_df) ->
  x ∈ map pw_annotator_id pairwise_df.
Proof.
  intros Hx. apply list_elem_of_fmap in Hx as (r & -> & Hr).
  unfold pairwise_coded in Hr. apply list_elem_of_omap in Hr as (p & Hp & Hr).
  destruct (winner_map (pw_winner p)); [|done].
  injection Hr as <-. simpl. apply list_elem_of_fmap. eauto.
Qed.

Section AnyLibrary.
Context `{Krippendorff}.

Lemma rubric_alpha_insufficient (rubric_df : list RubricRecord)
    (d : dimension) :
  rubric_subset rubric_df d = []
  \/ nunique (map r_annotator (rubric_subset rubric_df d)) < 2 ->
  _krippendorff_alpha_rubric rubric_df d = None.
Proof.
  intros [Hempty|Hfew]; unfold _krippendorff_alpha_rubric; cbv zeta.
  - by rewrite Hempty.
  - case_bool_decide; [done|].
    apply Nat.ltb_lt in Hfew. by rewrite Hfew.
Qed.

Lemma pairwise_alpha_insufficient (pairwise_df : list PairwiseRecord) :
  pairwise_coded pairwise_df = []
  \/ nunique (map r_annotator (pairwise_coded pairwise_df)) < 2 ->
  _krippendorff_alpha_pairwise pairwise_df = None.
Proof.
  intros Hins. unfold _krippendorff_alpha_pairwise; cbv zeta.
  case_bool_decide; [done|].
  destruct (_ <? 2)%nat; [done|].
  case_bool_decide; [done|].
  destruct Hins as [Hempty|Hfew]; [done|].
  rewrite pivot_length. apply Nat.ltb_lt in Hfew. by rewrite Hfew.
Qed.

(** C2: each alpha computation returns the undefined marker, which is
    rendered N/A, whenever the filtered records are empty or hold fewer
    than two distinct annotator ids. *)
Theorem alpha_undefined_when_insufficient (rubric_df : list RubricRecord)
    (d : dimension) (pairwise_df : list PairwiseRecord) :
  (rubric_subset rubric_df d = []
   \/ nunique (map r_annotator (rubric_subset rubric_df d)) < 2 ->
   _krippendorff_alpha_rubric rubric_df d = None
   /\ _interpret_alpha (_krippendorff_alpha_rubric rubric_df d) = "N/A")
  /\ (pairwise_coded pairwise_df = []
      \/ nunique (map r_annotator (pairwise_coded pairwise_df)) < 2 ->
      _krippendorff_alpha_pairwise pairwise_df = None
      /\ _interpret_alpha (_krippendorff_alpha_pairwise pairwise_df) = "N/A").
Proof.
  split; intros Hins.
  - by rewrite rubric_alpha_insufficient.
  - by rewrite pairwise_alpha_insufficient.
Qed.

(** Removing a record whose winner has no code leaves the coded frame,
    and so the coefficient, as it was. *)
Lemma pairwise_coded_remove (l1 l2 : list PairwiseRecord) r :
  winner_map (pw_winner r) = None ->
  pairwise_coded (l1 ++ r :: l2) = pairwise_coded (l1 ++ l2).
Proof.
  intros Hr. unfold pairwise_coded.
  rewrite !omap_app. f_equal. simpl. by rewrite Hr.
Qed.

Lemma pairwise_alpha_coded (pairwise_df : list PairwiseRecord) :
  _krippendorff_alpha_pairwise pairwise_df
  = let df := pairwise_coded pairwise_df in
    if bool_decide (df = []) then None
    else if (length (pivot_table df) <? 2)%nat then None
    else krippendorff_alpha (pivot_table df) nominal.
Proof.
  unfold _krippendorff_alpha_pairwise; cbv zeta.
  case_bool_decide as Hnil; [by subst|].
  destruct (nunique (map pw_annotator_id pairwise_df) <? 2)%nat eqn:Hfew;
    [|done].
  case_bool_decide; [done|].
  apply Nat.ltb_lt in Hfew.
  pose proof (nunique_mono _ _ (coded_annotators pairwise_df)) as Hle.
  rewrite pivot_length.
  assert (Hlt : (nunique (map r_annotator (pairwise_coded pairwise_df)) <? 2)%nat
                = true) by (apply Nat.ltb_lt; lia).
  by rewrite Hlt.
Qed.

Lemma pairwise_alpha_remove (l1 l2 : list PairwiseRecord) r :
  winner_map (pw_winner r) = None ->
  _krippendorff_alpha_pairwise (l1 ++ r :: l2)
  = _krippendorff_alpha_pairwise (l1 ++ l2).
Proof.
  intros Hr. rewrite !pairwise_alpha_coded.
  by rewrite (pairwise_coded_remove _ _ _ Hr).
Qed.

End AnyLibrary.

Lemma alpha_undefined_when_insufficient_witness :
  @_krippendorff_alpha_rubric SpecAlpha.spec_krippendorff
    Samples.rubric_one_annotator cultural_accuracy = None
  /\ @_krippendorff_alpha_pairwise SpecAlpha.spec_krippendorff
       Samples.pairwise_one_coded = None.
Proof.
  destruct (@alpha_undefined_when_insufficient SpecAlpha.spec_krippendorff
              Samples.rubric_one_annotator cultural_accuracy
              Samples.pairwise_one_coded) as [Hr Hp].
  split.
  - apply Hr. right. vm_compute. lia.
  - apply Hp. right. vm_compute. lia.
Defined.

End AgreementFacts.

Module SpecAlphaFacts.
Import WinRate Agreement SpecAlpha.

Lemma Qsum_zero (l : list Q) :
  (forall x, x ∈ l -> (x == 0)%Q) -> (Qsum l == 0)%Q.
Proof.
  induction l as [|x l IH]; intros Hl; simpl; [reflexivity|].
  rewrite (Hl x) by (by left). rewrite IH; [reflexivity|].
  intros y Hy. apply Hl. by right.
Qed.

Lemma Qdiv_zero (x y : Q) : (x == 0)%Q -> (x / y == 0)%Q.
Proof. intros ->. unfold Qdiv. apply Qmult_0_l. Qed.

Lemma delta_same (metric : level_of_measurement) (pool : list Z) (v : Z) :
  delta metric pool v v = 0%Q.
Proof. unfold delta. by rewrite Z.eqb_refl. Qed.

Lemma ordered_pairs_from_elem (l : list Z) : forall (before : list Z) a b,
  (a, b) ∈ ordered_pairs_from before l ->
  a ∈ (before ++ l)%list /\ b ∈ (before ++ l)%list.
Proof.
  induction l as [|x l IH]; intros before a b Hab; simpl in Hab.
  - by inversion Hab.
  - apply elem_of_app in Hab as [Hab|Hab].
    + apply list_elem_of_fmap in Hab as (y & [= -> ->] & Hy).
      split.
      * apply elem_of_app. right. by left.
      * apply elem_of_app in Hy as [Hy|Hy]; apply elem_of_app;
          [by left|right; by right].
    + apply IH in Hab. rewrite <- !(assoc_L (++)) in Hab. exact Hab.
Qed.

Lemma ordered_pairs_elem (l : list Z) a b :
  (a, b) ∈ ordered_pairs l -> a ∈ l /\ b ∈ l.
Proof. intros Hab. by apply ordered_pairs_from_elem in Hab. Qed.

Lemma unit_values_elem (matrix : reliability_data) (j : nat) (x : Z) :
  x ∈ unit_values matrix j ->
  exists row, row ∈ matrix /\ row !! j = Some (Some x).
Proof.
  unfold unit_values. intros Hx.
  apply list_elem_of_omap in Hx as (row & Hrow & Hcell).
  exists row. split; [done|].
  destruct (row !! j) as [[y|]|]; [|done..]. by injection Hcell as ->.
Qed.

Section OneValue.
Variables (matrix : reliability_data) (v : Z).
Hypothesis Huniform : single_valued matrix v.

Lemma unit_values_single (j : nat) (x : Z) :
  x ∈ unit_values matrix j -> x = v.
Proof.
  intros (row & Hrow & Hcell)%unit_values_elem.
  destruct (Huniform row (Some x) Hrow) as [?|[= ->]]; [|done..].
  by eapply list_elem_of_lookup_2.
Qed.

Lemma units_single (vs : list Z) (x : Z) :
  vs ∈ units matrix -> x ∈ vs -> x = v.
Proof.
  unfold units. intros (j & -> & _)%list_elem_of_fmap. apply unit_values_single.
Qed.

Lemma pooled_single (x : Z) : x ∈ pooled matrix -> x = v.
Proof.
  unfold pooled. intros Hx. apply list_elem_of_In, in_concat in Hx.
  destruct Hx as (vs & Hvs & Hx). apply list_elem_of_In in Hvs, Hx.
  by eapply units_single.
Qed.

Lemma unit_disagreement_single (metric : level_of_measurement)
    (pool vs : list Z) :
  vs ∈ units matrix -> (unit_disagreement metric pool vs == 0)%Q.
Proof.
  intros Hvs. unfold unit_disagreement. cbv zeta.
  destruct (_ <? 2)%nat; [reflexivity|].
  apply Qdiv_zero, Qsum_zero.
  intros q (p & -> & Hp)%list_elem_of_fmap. destruct p as [a b].
  apply ordered_pairs_elem in Hp as [Ha Hb]. simpl.
  rewrite (units_single vs a Hvs Ha), (units_single vs b Hvs Hb).
  by rewrite delta_same.
Qed.

Lemma observed_single (metric : level_of_measurement) :
  (observed_disagreement metric matrix == 0)%Q.
Proof.
  unfold observed_disagreement. cbv zeta. apply Qdiv_zero, Qsum_zero.
  intros q (vs & -> & Hvs)%list_elem_of_fmap.
  by apply unit_disagreement_single.
Qed.

Lemma expected_single (metric : level_of_measurement) :
  (expected_disagreement metric matrix == 0)%Q.
Proof.
  unfold expected_disagreement. cbv zeta. apply Qdiv_zero, Qsum_zero.
  intros q (c & -> & Hc)%list_elem_of_fmap. apply Qsum_zero.
  intros q (k & -> & Hk)%list_elem_of_fmap.
  apply (proj1 (elem_of_remove_dups _ _)) in Hc.
  apply (proj1 (elem_of_remove_dups _ _)) in Hk.
  rewrite (pooled_single c Hc), (pooled_single k Hk), delta_same.
  apply Qmult_0_r.
Qed.

End OneValue.

Lemma n_units_bound (matrix : reliability_data) (row : list (option Z)) :
  row ∈ matrix -> length row <= n_units matrix.
Proof.
  unfold n_units. induction matrix as [|r matrix IH]; intros Hrow.
  - by inversion Hrow.
  - simpl. apply elem_of_cons in Hrow as [->|Hrow]; [lia|].
    specialize (IH Hrow). lia.
Qed.

Lemma shared_unit_overlapping (matrix : reliability_data) :
  2 <= length matrix -> shared_unit matrix -> overlapping matrix = true.
Proof.
  intros Hrows [j Hj]. unfold overlapping.
  apply andb_true_iff. split; [by apply Nat.leb_le|].
  apply existsb_exists. exists (unit_values matrix j).
  split; [|by apply Nat.leb_le].
  apply list_elem_of_In. unfold units. apply list_elem_of_fmap.
  exists j. split; [done|]. apply elem_of_seq. split; [lia|]. simpl.
  destruct (unit_values matrix j) as [|x vs] eqn:Hvs; [simpl in Hj; lia|].
  destruct (unit_values_elem matrix j x) as (row & Hrow & Hcell).
  { rewrite Hvs. by left. }
  apply lookup_lt_Some in Hcell.
  pose proof (n_units_bound matrix row Hrow). lia.
Qed.

(** The coefficient of a single-valued matrix with two annotators and a
    shared unit is 1, whatever the metric. *)
Lemma alpha_single_valued (matrix : reliability_data)
    (metric : level_of_measurement) (v : Z) :
  2 <= length matrix -> single_valued matrix v -> shared_unit matrix ->
  alpha matrix metric = Some 1%Q.
Proof.
  intros Hrows Huniform Hshared. unfold alpha.
  rewrite shared_unit_overlapping by done. cbv zeta. simpl negb. cbv iota.
  pose proof (expected_single matrix v Huniform metric) as HDe.
  pose proof (observed_single matrix v Huniform metric) as HDo.
  apply Qeq_bool_iff in HDe, HDo. by rewrite HDe, HDo.
Qed.

Lemma overlapping_shared_unit (matrix : reliability_data) :
  overlapping matrix = true -> shared_unit matrix.
Proof.
  unfold overlapping. intros [_ Hex]%andb_true_iff.
  apply existsb_exists in Hex as (vs & Hvs & Hlen).
  apply list_elem_of_In in Hvs. unfold units in Hvs.
  apply list_elem_of_fmap in Hvs as (j & -> & _).
  exists j. by apply Nat.leb_le.
Qed.

(** Without a unit rated twice the coefficient is undefined. *)
Lemma alpha_without_shared_unit (matrix : reliability_data)
    (metric : level_of_measurement) :
  ~ shared_unit matrix -> alpha matrix metric = None.
Proof.
  intros Hn. unfold alpha. destruct (overlapping matrix) eqn:E; [|done].
  by apply overlapping_shared_unit in E.
Qed.

End SpecAlphaFacts.

Module PivotFacts.
Import WinRate Agreement SpecAlpha AgreementFacts SpecAlphaFacts.

Lemma first_value_Some (rows : list rating) (a u : string) (z : Z) :
  first_value rows a u = Some z ->
  exists r, r ∈ rows /\ r_annotator r = a /\ r_unit r = u /\ r_value r = z.
Proof.
  induction rows as [|r rows IH]; simpl; [done|].
  destruct (String.eqb (r_annotator r) a && String.eqb (r_unit r) u) eqn:E.
  - intros [= <-]. apply andb_true_iff in E as [Ea Eu].
    apply String.eqb_eq in Ea, Eu. exists r. split; [by left|done].
  - intros (r' & Hr' & Hrest)%IH. exists r'. split; [by right|done].
Qed.

Lemma first_value_is_Some (rows : list rating) (r : rating) :
  r ∈ rows -> is_Some (first_value rows (r_annotator r) (r_unit r)).
Proof.
  induction rows as [|r' rows IH]; intros Hr; [by inversion Hr|]. simpl.
  destruct (String.eqb (r_annotator r') _ && _) eqn:E; [done|].
  apply elem_of_cons in Hr as [->|Hr]; [|by apply IH].
  by rewrite !String.eqb_refl in E.
Qed.

Lemma pivot_single_valued (rows : list rating) (v : Z) :
  single_valued_ratings rows v -> single_valued (pivot_table rows) v.
Proof.
  intros Hrows row cell Hrow Hcell. unfold pivot_table in Hrow.
  apply list_elem_of_fmap in Hrow as (a & -> & _).
  apply list_elem_of_fmap in Hcell as (u & -> & _).
  destruct (first_value rows a u) as [z|] eqn:Hz; [|by left].
  apply first_value_Some in Hz as (r & Hr & _ & _ & <-).
  right. f_equal. by apply Hrows.
Qed.

Lemma two_distinct_length {A} (l : list A) (x y : A) :
  x ∈ l -> y ∈ l -> x ≠ y -> 2 <= length l.
Proof.
  destruct l as [|a [|b l]]; simpl; intros Hx Hy Hne; [by inversion Hx| |lia].
  apply list_elem_of_singleton in Hx, Hy. congruence.
Qed.

Lemma omap_one {A B} (h : A -> option B) (l : list A) (x : A) :
  x ∈ l -> is_Some (h x) -> 1 <= length (omap h l).
Proof.
  induction l as [|a l IH]; intros Hx Hs; [by inversion Hx|]. cbn.
  apply elem_of_cons in Hx as [<-|Hx].
  - destruct Hs as [b ->]. cbn. lia.
  - specialize (IH Hx Hs). destruct (h a); cbn; lia.
Qed.

Lemma omap_two {A B} (h : A -> option B) (l : list A) (x y : A) :
  x ∈ l -> y ∈ l -> x ≠ y -> is_Some (h x) -> is_Some (h y) ->
  2 <= length (omap h l).
Proof.
  induction l as [|a l IH]; intros Hx Hy Hne Hsx Hsy; [by inversion Hx|].
  cbn. apply elem_of_cons in Hx as [<-|Hx];
    apply elem_of_cons in Hy as [<-|Hy]; try done.
  - pose proof (omap_one h l y Hy Hsy). destruct Hsx as [b ->]. cbn. lia.
  - pose proof (omap_one h l x Hx Hsx). destruct Hsy as [b ->]. cbn. lia.
  - specialize (IH Hx Hy Hne Hsx Hsy). destruct (h a); cbn; lia.
Qed.

Lemma omap_map {A B C} (g : B -> option C) (f : A -> B) (l : list A) :
  omap g (map f l) = omap (fun x => g (f x)) l.
Proof. induction l as [|a l IH]; cbn; [done|]. by rewrite IH. Qed.

Lemma pivot_unit_values (rows : list rating) (j : nat) (u : string) :
  labels (map r_unit rows) !! j = Some u ->
  unit_values (pivot_table rows) j
  = omap (fun a => first_value rows a u) (labels (map r_annotator rows)).
Proof.
  intros Hj. unfold unit_values, pivot_table. rewrite omap_map.
  apply list_omap_ext, Forall2_same_length_lookup_2; [done|].
  intros i a a' Ha Ha'. rewrite Ha in Ha'. injection Ha' as <-.
  change (map ?f ?l) with (f <$> l). rewrite list_lookup_fmap, Hj. simpl.
  by destruct (first_value rows a u).
Qed.

Lemma pivot_shared (rows : list rating) :
  shared_unit_ratings rows ->
  2 <= length (pivot_table rows) /\ shared_unit (pivot_table rows).
Proof.
  intros (r1 & r2 & H1 & H2 & Hu & Ha).
  assert (Hi1 : r_annotator r1 ∈ labels (map r_annotator rows)).
  { apply labels_elem, list_elem_of_fmap. eauto. }
  assert (Hi2 : r_annotator r2 ∈ labels (map r_annotator rows)).
  { apply labels_elem, list_elem_of_fmap. eauto. }
  split.
  - rewrite pivot_length, <- labels_length.
    exact (two_distinct_length _ _ _ Hi1 Hi2 Ha).
  - assert (Hc : r_unit r1 ∈ labels (map r_unit rows)).
    { apply labels_elem, list_elem_of_fmap. eauto. }
    apply list_elem_of_lookup in Hc as [j Hj]. exists j.
    rewrite (pivot_unit_values rows j _ Hj).
    eapply omap_two; [exact Hi1|exact Hi2|exact Ha| |].
    + by apply first_value_is_Some.
    + rewrite Hu. by apply first_value_is_Some.
Qed.

(** The coefficient of the specification on a pivot of single-valued
    ratings with a shared unit. *)
Lemma pivot_alpha_single_valued (rows : list rating)
    (metric : level_of_measurement) (v : Z) :
  single_valued_ratings rows v -> shared_unit_ratings rows ->
  rows ≠ [] /\ (nunique (map r_annotator rows) <? 2)%nat = false
  /\ (length (pivot_table rows) <? 2)%nat = false
  /\ alpha (pivot_table rows) metric = Some 1%Q.
Proof.
  intros Hv Hs. destruct (pivot_shared rows Hs) as [Hlen Hshared].
  split_and!.
  - destruct Hs as (r1 & _ & H1 & _). intros ->. by inversion H1.
  - rewrite <- pivot_length. apply Nat.ltb_ge. lia.
  - apply Nat.ltb_ge. lia.
  - eapply alpha_single_valued; [done| |done]. by apply pivot_single_valued.
Qed.

Lemma omap_one_inv {A B} (h : A -> option B) (l : list A) :
  1 <= length (omap h l) -> exists x, x ∈ l /\ is_Some (h x).
Proof.
  induction l as [|a l IH]; cbn; [lia|].
  destruct (h a) as [b|] eqn:Ha.
  - intros _. exists a. split; [by left|by rewrite Ha].
  - intros (x & Hx & Hs)%IH. exists x. split; [by right|done].
Qed.

Lemma omap_two_inv {A B} (h : A -> option B) (l : list A) :
  NoDup l -> 2 <= length (omap h l) ->
  exists x y, x ∈ l /\ y ∈ l /\ x ≠ y /\ is_Some (h x) /\ is_Some (h y).
Proof.
  induction 1 as [|a l Ha Hnd IH]; cbn; [lia|].
  destruct (h a) as [b|] eqn:Hb.
  - cbn. intros Hlen.
    destruct (omap_one_inv h l) as (y & Hy & Hs); [lia|].
    exists a, y. split_and!; [by left|by right| |by rewrite Hb|done].
    intros ->. done.
  - intros (x & y & Hx & Hy & Hne & Hsx & Hsy)%IH.
    exists x, y. split_and!; [by right|by right|done..].
Qed.

Lemma labels_distinct (l : list string) : NoDup (labels l).
Proof.
  unfold labels. rewrite merge_sort_Permutation. apply NoDup_remove_dups.
Qed.

Lemma pivot_column_out (rows : list rating) (j : nat) :
  labels (map r_unit rows) !! j = None ->
  unit_values (pivot_table rows) j = [].
Proof.
  intros Hj. unfold unit_values, pivot_table. rewrite omap_map.
  induction (labels (map r_annotator rows)) as [|a l IH]; [done|].
  cbn. change (map ?f ?l) with (f <$> l). rewrite list_lookup_fmap, Hj.
  exact IH.
Qed.

(** A unit of the pivot with two ratings is a unit that two annotators
    rated. *)
Lemma pivot_shared_inv (rows : list rating) :
  shared_unit (pivot_table rows) -> shared_unit_ratings rows.
Proof.
  intros [j Hj].
  destruct (labels (map r_unit rows) !! j) as [u|] eqn:Hu.
  - rewrite (pivot_unit_values rows j u Hu) in Hj.
    apply omap_two_inv in Hj as (a1 & a2 & _ & _ & Hne & [z1 H1] & [z2 H2]);
      [|apply labels_distinct].
    apply first_value_Some in H1 as (r1 & Hr1 & Ha1 & Hu1 & _).
    apply first_value_Some in H2 as (r2 & Hr2 & Ha2 & Hu2 & _).
    exists r1, r2. split_and!; [done|done|congruence|congruence].
  - rewrite (pivot_column_out rows j Hu) in Hj. simpl in Hj. lia.
Qed.

Lemma pivot_alpha_unshared (rows : list rating)
    (metric : level_of_measurement) :
  ~ shared_unit_ratings rows -> alpha (pivot_table rows) metric = None.
Proof.
  intros Hn. apply alpha_without_shared_unit.
  intros Hs. by apply Hn, pivot_shared_inv.
Qed.

End PivotFacts.

Module SingleValue.
Import WinRate Agreement SpecAlpha AgreementFacts SpecAlphaFacts PivotFacts.
Import Samples.

(** C1, as amended: for a reliability matrix with at least two annotators
    and at least one unit rated by two of them, in which every non-missing
    cell holds the same value, the coefficient is 1 under either metric;
    so are the rubric (ordinal) and the pairwise (nominal) coefficients of
    records whose ratings are single-valued and share a unit.  Without a
    unit rated by two annotators the coefficient is undefined, whatever
    the values, for a matrix and for both kinds of records. *)
Theorem alpha_one_on_single_value (rubric_df : list RubricRecord)
    (d : dimension) (pairwise_df : list PairwiseRecord) (v c : Z) :
  (forall (matrix : reliability_data) (metric : level_of_measurement),
      2 <= length matrix -> single_valued matrix v -> shared_unit matrix ->
      alpha matrix metric = Some 1%Q)
  /\ (single_valued_ratings (rubric_subset rubric_df d) v ->
      shared_unit_ratings (rubric_subset rubric_df d) ->
      @_krippendorff_alpha_rubric spec_krippendorff rubric_df d = Some 1%Q)
  /\ (single_valued_ratings (pairwise_coded pairwise_df) c ->
      shared_unit_ratings (pairwise_coded pairwise_df) ->
      @_krippendorff_alpha_pairwise spec_krippendorff pairwise_df
      = Some 1%Q)
  /\ (forall (matrix : reliability_data) (metric : level_of_measurement),
      ~ shared_unit matrix -> alpha matrix metric = None)
  /\ (~ shared_unit_ratings (rubric_subset rubric_df d) ->
      @_krippendorff_alpha_rubric spec_krippendorff rubric_df d = None)
  /\ (~ shared_unit_ratings (pairwise_coded pairwise_df) ->
      @_krippendorff_alpha_pairwise spec_krippendorff pairwise_df = None).
Proof.
  split_and!.
  - intros matrix metric. apply alpha_single_valued.
  - intros Hv Hs.
    destruct (pivot_alpha_single_valued _ ordinal v Hv Hs)
      as (Hne & Hn & Hlen & Halpha).
    unfold _krippendorff_alpha_rubric. cbv zeta.
    rewrite bool_decide_eq_false_2 by done. by rewrite Hn, Hlen.
  - intros Hv Hs.
    destruct (pivot_alpha_single_valued _ nominal c Hv Hs)
      as (Hne & Hn & Hlen & Halpha).
    rewrite pairwise_alpha_coded. cbv zeta.
    rewrite bool_decide_eq_false_2 by done. by rewrite Hlen.
  - intros matrix metric. apply alpha_without_shared_unit.
  - intros Hn. unfold _krippendorff_alpha_rubric. cbv zeta.
    case_bool_decide; [done|].
    destruct (_ <? 2)%nat; [done|]. destruct (_ <? 2)%nat; [done|].
    by apply pivot_alpha_unshared.
  - intros Hn. rewrite pairwise_alpha_coded. cbv zeta.
    case_bool_decide; [done|]. destruct (_ <? 2)%nat; [done|].
    by apply pivot_alpha_unshared.
Qed.

Lemma alpha_one_on_single_value_witness :
  @_krippendorff_alpha_rubric spec_krippendorff rubric_same_unit
    cultural_accuracy = Some 1%Q
  /\ @_krippendorff_alpha_pairwise spec_krippendorff pairwise_agree
     = Some 1%Q
  /\ @_krippendorff_alpha_rubric spec_krippendorff rubric_disjoint_units
       cultural_accuracy = None.
Proof.
  destruct (alpha_one_on_single_value rubric_same_unit cultural_accuracy
              pairwise_agree 4 1) as (_ & Hr & Hp & _).
  destruct (alpha_one_on_single_value rubric_disjoint_units
              cultural_accuracy pairwise_agree 4 1)
    as (_ & _ & _ & _ & Hu & _).
  split_and!; [apply Hr|apply Hp|apply Hu].
  - intros r Hr'. vm_compute in Hr'.
    repeat (apply elem_of_cons in Hr' as [->|Hr']; [reflexivity|]).
    by inversion Hr'.
  - eexists _, _. split_and!.
    + vm_compute. left.
    + vm_compute. right. left.
    + reflexivity.
    + vm_compute. discriminate.
  - intros r Hr'. vm_compute in Hr'.
    repeat (apply elem_of_cons in Hr' as [->|Hr']; [reflexivity|]).
    by inversion Hr'.
  - eexists _, _. split_and!.
    + vm_compute. left.
    + vm_compute. right. left.
    + reflexivity.
    + vm_compute. discriminate.
  - intros (r1 & r2 & H1 & H2 & Hunit & Hann). vm_compute in H1, H2.
    apply elem_of_cons in H1 as [->|H1];
      [|apply elem_of_cons in H1 as [->|H1]; [|by inversion H1]];
      (apply elem_of_cons in H2 as [->|H2];
       [|apply elem_of_cons in H2 as [->|H2]; [|by inversion H2]]);
      first [by apply Hann | discriminate Hunit].
Defined.

(** Two annotators and one value in every rated cell, but no unit rated
    by both: the coefficient is undefined, not 1. *)
Lemma single_value_without_shared_unit :
  let subset := rubric_subset rubric_disjoint_units cultural_accuracy in
  nunique (map r_annotator subset) = 2
  /\ pivot_table subset = [[Some 4%Z; None]; [None; Some 4%Z]]
  /\ single_valued (pivot_table subset) 4
  /\ alpha (pivot_table subset) ordinal = None
  /\ alpha (pivot_table subset) nominal = None
  /\ @_krippendorff_alpha_rubric spec_krippendorff rubric_disjoint_units
       cultural_accuracy ≠ Some 1%Q.
Proof.
  cbv zeta. split_and!; try (vm_compute; reflexivity).
  - apply pivot_single_valued. intros r Hr. vm_compute in Hr.
    repeat (apply elem_of_cons in Hr as [->|Hr]; [reflexivity|]).
    by inversion Hr.
  - vm_compute. discriminate.
Qed.

End SingleValue.

Module MalformedWinner.
Import WinRate Agreement WinRateFacts AgreementFacts Samples.

Lemma malformed_no_code (r : PairwiseRecord) :
  malformed_winner r -> winner_map (pw_winner r) = None.
Proof.
  intros (Ha & Hb & Ht). unfold winner_map.
  apply String.eqb_neq in Ha, Hb, Ht. by rewrite Ha, Hb, Ht.
Qed.

Lemma tally_malformed (models : list string) matrix r :
  malformed_winner r -> tally models matrix r = matrix.
Proof.
  intros (Ha & Hb & _). unfold tally.
  apply String.eqb_neq in Ha, Hb. rewrite Ha, Hb. by destruct (_ || _).
Qed.

Lemma count_wins_malformed (models : list string) (d : gmap string Z) r :
  malformed_winner r -> count_wins models d r = d.
Proof.
  intros (Ha & Hb & _). unfold count_wins.
  apply String.eqb_neq in Ha, Hb. by rewrite Ha, Hb.
Qed.

Lemma won_by_malformed (m : string) r :
  malformed_winner r -> won_by m r = false.
Proof.
  intros (Ha & Hb & _). unfold won_by.
  apply String.eqb_neq in Ha, Hb. by rewrite Ha, Hb.
Qed.

Lemma count_app {A} (p : A -> bool) (l1 l2 : list A) :
  count p (l1 ++ l2) = (count p l1 + count p l2)%Z.
Proof. induction l1 as [|x l1 IH]; simpl; [done|]. rewrite IH. lia. Qed.

Lemma total_sides_app (m : string) (l1 l2 : list PairwiseRecord) :
  total_sides m (l1 ++ l2) = (total_sides m l1 + total_sides m l2)%Z.
Proof. induction l1 as [|x l1 IH]; simpl; [done|]. rewrite IH. lia. Qed.

Lemma overall_win_pct_outside (rows : list PairwiseRecord)
    (models : list string) (m : string) :
  m ∉ models -> _compute_overall_win_pct rows models !! m = None.
Proof.
  intros Hm. unfold _compute_overall_win_pct. cbv zeta.
  rewrite (fold_insert_lookup (pct_of _ _)). by rewrite decide_False.
Qed.

(** C6, as amended: a record whose winner label is outside a, b and tie
    is excluded from the directed win matrix, from the rate matrix and
    from the pairwise alpha computation, and removing it changes none of
    them.  In the overall win percentage it is never a win, but it counts
    as an appearance of its model_a and model_b, as a tie does: removing
    it leaves the wins tally and the percentage of every other model
    unchanged. *)
Theorem malformed_winner_excluded `{Krippendorff}
    (l1 l2 : list PairwiseRecord) (r : PairwiseRecord)
    (models : list string) :
  NoDup models -> malformed_winner r ->
  win_counts (l1 ++ r :: l2) models = win_counts (l1 ++ l2) models
  /\ _compute_win_rates (l1 ++ r :: l2) models
     = _compute_win_rates (l1 ++ l2) models
  /\ _krippendorff_alpha_pairwise (l1 ++ r :: l2)
     = _krippendorff_alpha_pairwise (l1 ++ l2)
  /\ fold_left (count_wins models) (l1 ++ r :: l2) (zero_dict models)
     = fold_left (count_wins models) (l1 ++ l2) (zero_dict models)
  /\ (forall m : string, m ∈ models ->
        fold_left (count_total models) (l1 ++ r :: l2) (zero_dict models) !! m
        = (fun c => (c + sides m r)%Z)
            <$> fold_left (count_total models) (l1 ++ l2) (zero_dict models)
                  !! m)
  /\ (forall m : string, m ≠ pw_model_a r -> m ≠ pw_model_b r ->
        _compute_overall_win_pct (l1 ++ r :: l2) models !! m
        = _compute_overall_win_pct (l1 ++ l2) models !! m).
Proof.
  intros _ Hr.
  assert (Hcounts : win_counts (l1 ++ r :: l2) models
                    = win_counts (l1 ++ l2) models).
  { unfold win_counts. rewrite !fold_left_app. cbn [fold_left].
    by rewrite tally_malformed. }
  split_and!.
  - exact Hcounts.
  - unfold _compute_win_rates. by rewrite Hcounts.
  - apply pairwise_alpha_remove. by apply malformed_no_code.
  - rewrite !fold_left_app. cbn [fold_left]. by rewrite count_wins_malformed.
  - intros m Hm. rewrite !fold_count_total by done.
    rewrite !total_sides_app. cbn [total_sides].
    rewrite zero_dict_lookup by done. simpl. f_equal. lia.
  - intros m Ha Hb. destruct (decide (m ∈ models)) as [Hm|Hm].
    + rewrite !overall_win_pct_lookup by done.
      rewrite !count_app, !total_sides_app. cbn [count total_sides].
      rewrite won_by_malformed by done.
      assert (Hs : sides m r = 0%Z).
      { unfold sides. apply not_eq_sym, String.eqb_neq in Ha, Hb.
        by rewrite Ha, Hb. }
      rewrite Hs. by rewrite !Z.add_0_l.
    + by rewrite !overall_win_pct_outside.
Qed.

Lemma malformed_winner_excluded_witness :
  _compute_win_rates
    ([sample_pairwise "ig_001" "x" "y" "ann1" "a"]
     ++ sample_pairwise "ig_001" "x" "y" "ann2" "both" :: []) ["x"; "y"]
  = _compute_win_rates ([sample_pairwise "ig_001" "x" "y" "ann1" "a"] ++ [])
      ["x"; "y"].
Proof.
  refine (proj1 (proj2 (@malformed_winner_excluded SpecAlpha.spec_krippendorff
            [sample_pairwise "ig_001" "x" "y" "ann1" "a"] []
            (sample_pairwise "ig_001" "x" "y" "ann2" "both") ["x"; "y"]
            nodup_xy _))).
  by_decide.
Defined.

(** The overall win percentage of x is 50 with the malformed record and
    100 without it. *)
Lemma malformed_winner_counts_in_total :
  malformed_winner (sample_pairwise "ig_001" "x" "y" "ann2" "both")
  /\ _compute_overall_win_pct pairwise_one_coded ["x"; "y"] !! "x"
     = Some (100 # 2)%Q
  /\ _compute_overall_win_pct [sample_pairwise "ig_001" "x" "y" "ann1" "a"]
       ["x"; "y"] !! "x"
     = Some (100 # 1)%Q
  /\ ~ (100 # 2 == 100 # 1)%Q.
Proof.
  split_and!.
  - by_decide.
  - vm_compute. reflexivity.
  - vm_compute. reflexivity.
  - unfold Qeq. simpl. lia.
Qed.

End MalformedWinner.

Module BootstrapFacts.
Import Bootstrap.

Section WithNumpy.
Context `{NumpyRandom} `{NumpyPercentile}.

(** The loop draws one resample per iteration and nothing else. *)
Lemma resample_means_world (n_boot : nat) (values : list Q) :
  forall (rng : Generator) (w : World),
  snd (resample_means n_boot rng values w)
  = {| os_entropy := os_entropy w; resamples := resamples w + n_boot |}.
Proof.
  induction n_boot as [|n IH]; intros rng w; simpl.
  - destruct w. simpl. f_equal. lia.
  - unfold bind, rng_choice.
    destruct (choice rng values (length values)) as [sample rng'].
    specialize (IH rng' {| os_entropy := os_entropy w;
                           resamples := S (resamples w) |}).
    destruct (resample_means n rng' values _) as [rest w'].
    simpl in *. rewrite IH. f_equal. lia.
Qed.

(** The statistics of the resamples depend on the generator only. *)
Lemma resample_means_result (n_boot : nat) (values : list Q) :
  forall (rng : Generator) (w1 w2 : World),
  fst (resample_means n_boot rng values w1)
  = fst (resample_means n_boot rng values w2).
Proof.
  induction n_boot as [|n IH]; intros rng w1 w2; simpl; [done|].
  unfold bind, rng_choice.
  destruct (choice rng values (length values)) as [sample rng'].
  specialize (IH rng' {| os_entropy := os_entropy w1;
                         resamples := S (resamples w1) |}
                 {| os_entropy := os_entropy w2;
                    resamples := S (resamples w2) |}).
  destruct (resample_means n rng' values _) as [rest1 w1'].
  destruct (resample_means n rng' values _) as [rest2 w2'].
  simpl in *. by rewrite IH.
Qed.

Lemma seeded_interval (values : list Q) (n_boot : nat) (ci : Q)
    (w1 w2 : World) :
  fst (bind (default_rng (Some 42%Z))
         (fun rng => bind (resample_means n_boot rng values)
                       (fun means => ret (percentile_interval means ci)))
         w1)
  = fst (bind (default_rng (Some 42%Z))
           (fun rng => bind (resample_means n_boot rng values)
                         (fun means => ret (percentile_interval means ci)))
           w2).
Proof.
  unfold bind, default_rng, ret.
  pose proof (resample_means_result n_boot values (seeded 42) w1 w2) as Hm.
  destruct (resample_means n_boot (seeded 42) values w1) as [m1 w1'].
  destruct (resample_means n_boot (seeded 42) values w2) as [m2 w2'].
  simpl in *. by rewrite Hm.
Qed.

Lemma mean_singleton (v : Q) : (mean [v] == v)%Q.
Proof. unfold mean. simpl. field. Qed.

(** With two or more observations the loop runs [n_boot] times. *)
Lemma bootstrap_ci_resamples (values : list Q) (n_boot : nat) (ci : Q)
    (w : World) :
  2 <= length values ->
  resamples (snd (_bootstrap_ci values n_boot ci w))
  = resamples w + n_boot.
Proof.
  intros Hlen. unfold _bootstrap_ci.
  apply Nat.ltb_ge in Hlen. rewrite Hlen.
  unfold bind, default_rng, ret.
  pose proof (resample_means_world n_boot values (seeded 42) w) as Hw.
  destruct (resample_means n_boot (seeded 42) values w) as [m w'].
  simpl in *. by rewrite Hw.
Qed.

(** C7: with fewer than two observations both functions return the point
    estimate as both bounds and draw no resample: the world, with its
    count of resamples, is returned as it was.  For a one-element list the
    bounds are that element; for total = 1 they are wins/total. *)
Theorem degenerate_input_no_resampling (values : list Q) (wins total : Z)
    (n_boot : nat) (ci : Q) (w : World) :
  (length values < 2 ->
   exists m : Q,
     _bootstrap_ci values n_boot ci w = ((m, m), w)
     /\ (forall v : Q, values = [v] -> (m == v)%Q)
     /\ (values = [] -> m = 0%Q))
  /\ ((total < 2)%Z ->
      exists p : Q,
        _bootstrap_ci_proportion wins total n_boot ci w = ((p, p), w)
        /\ (total ≠ 0%Z -> p = (inject_Z wins / inject_Z total)%Q)
        /\ (total = 1%Z -> (p == inject_Z wins)%Q)
        /\ (total = 0%Z -> p = 0%Q)).
Proof.
  split.
  - intros Hlen. unfold _bootstrap_ci.
    apply Nat.ltb_lt in Hlen. rewrite Hlen. eexists. split; [reflexivity|].
    split.
    + intros v ->. apply mean_singleton.
    + by intros ->.
  - intros Htot. unfold _bootstrap_ci_proportion.
    apply Z.ltb_lt in Htot. rewrite Htot. eexists. split; [reflexivity|].
    split_and!.
    + intros Hne. apply Z.eqb_neq in Hne. by rewrite Hne.
    + intros ->. simpl. field.
    + by intros ->.
Qed.

(** C8: the result of either function is the same in every world in which
    it is called: it depends on the arguments only, since the generator
    is seeded with the constant 42 and never with the entropy of the
    system, which the call leaves untouched. *)
Theorem bootstrap_deterministic (values : list Q) (wins total : Z)
    (n_boot : nat) (ci : Q) (w1 w2 : World) :
  fst (_bootstrap_ci values n_boot ci w1)
  = fst (_bootstrap_ci values n_boot ci w2)
  /\ fst (_bootstrap_ci_proportion wins total n_boot ci w1)
     = fst (_bootstrap_ci_proportion wins total n_boot ci w2)
  /\ fst (_bootstrap_ci values n_boot ci
            (snd (_bootstrap_ci values n_boot ci w1)))
     = fst (_bootstrap_ci values n_boot ci w1)
  /\ fst (_bootstrap_ci_proportion wins total n_boot ci
            (snd (_bootstrap_ci_proportion wins total n_boot ci w1)))
     = fst (_bootstrap_ci_proportion wins total n_boot ci w1).
Proof.
  assert (Hci : forall w w' : World,
             fst (_bootstrap_ci values n_boot ci w)
             = fst (_bootstrap_ci values n_boot ci w')).
  { intros w w'. unfold _bootstrap_ci.
    destruct (_ <? 2)%nat; [done|]. apply seeded_interval. }
  assert (Hp : forall w w' : World,
             fst (_bootstrap_ci_proportion wins total n_boot ci w)
             = fst (_bootstrap_ci_proportion wins total n_boot ci w')).
  { intros w w'. unfold _bootstrap_ci_proportion.
    destruct (_ <? 2)%Z; [done|]. apply seeded_interval. }
  split_and!; [apply Hci|apply Hp|apply Hci|apply Hp].
Qed.

(** C10: with total = 0 the proportion interval is (0, 0) for every wins
    count; a model that is on neither side of any record has the raw
    tallies (0, 0), and its interval is rendered [0%, 0%]. *)
Theorem zero_total_interval (wins : Z) (n_boot : nat) (ci : Q) (w : World)
    (pairwise_df : list PairwiseRecord) (m : string) :
  _bootstrap_ci_proportion wins 0 n_boot ci w = ((0%Q, 0%Q), w)
  /\ (Forall (fun r => pw_model_a r ≠ m /\ pw_model_b r ≠ m) pairwise_df ->
      raw_counts pairwise_df m = (0%Z, 0%Z))
  /\ ci_cell 0 0 = "[0%, 0%]".
Proof.
  split_and!; [reflexivity| |reflexivity].
  unfold raw_counts. generalize (0%Z, 0%Z).
  induction 1 as [|r rows [Ha Hb] _ IH]; cbn [fold_left]; [done|].
  unfold raw_count at 2. destruct p as [w0 t0].
  apply String.eqb_neq in Ha, Hb. by rewrite Ha, Hb.
Qed.

End WithNumpy.

End BootstrapFacts.

Module BootstrapExamples.
Import Bootstrap BootstrapFacts ToyNumpy.

Lemma degenerate_input_no_resampling_witness :
  let w := {| os_entropy := [7%Z]; resamples := 0 |} in
  (exists m : Q,
      _bootstrap_ci [3 # 1]%Q 2000 (95 # 100) w = ((m, m), w)
      /\ (m == 3 # 1)%Q)
  /\ (exists p : Q,
         _bootstrap_ci_proportion 1 1 2000 (95 # 100) w = ((p, p), w)
         /\ (p == 1)%Q).
Proof.
  intros w.
  destruct (degenerate_input_no_resampling [3 # 1]%Q 1 1 2000 (95 # 100) w)
    as [Hv Hp].
  split.
  - destruct Hv as (m & Hm & Hone & _); [simpl; lia|].
    exists m. split; [exact Hm|]. by apply Hone.
  - destruct Hp as (p & Hp' & _ & Hone & _); [lia|].
    exists p. split; [exact Hp'|]. by apply Hone.
Defined.

Lemma zero_total_interval_witness :
  let w := {| os_entropy := [7%Z]; resamples := 0 |} in
  _bootstrap_ci_proportion 0 0 2000 (95 # 100) w = ((0%Q, 0%Q), w)
  /\ raw_counts WinRate.sample_rows "w" = (0%Z, 0%Z)
  /\ ci_cell 0 0 = "[0%, 0%]".
Proof.
  intros w.
  destruct (zero_total_interval 0 2000 (95 # 100) w
              WinRate.sample_rows "w") as (Hci & Hraw & Hcell).
  split_and!; [exact Hci| |exact Hcell].
  apply Hraw. by_decide.
Defined.

(** Four observations: the interval comes from resampling, and the count
    of resamples goes up by [n_boot]. *)
Example bootstrap_ci_runs :
  let result :=
    _bootstrap_ci [1; 2; 3; 4]%Q 20 (95 # 100)
      {| os_entropy := [7%Z]; resamples := 0 |} in
  fst result = (259 # 160, 7 # 2)%Q /\ resamples (snd result) = 20.
Proof. split; vm_compute; reflexivity. Qed.

(** An unseeded generator does depend on the world it is created in. *)
Remark unseeded_depends_on_entropy :
  fst (default_rng None {| os_entropy := [1%Z]; resamples := 0 |})
  ≠ fst (default_rng None {| os_entropy := [2%Z]; resamples := 0 |}).
Proof. vm_compute. discriminate. Qed.

End BootstrapExamples.

Module NormalizerFacts.
Import Normalizer.

Lemma bindE_inr {A B} (x : A) (k : A -> Exc B) : bindE (inr x) k = k x.
Proof. reflexivity. Qed.

Lemma traverse_inr {A B} (f : A -> Exc B) (l : list A) :
  Forall (fun x => exists y, f x = inr y) l ->
  exists ys, traverse f l = inr ys /\ Forall2 (fun x y => f x = inr y) l ys.
Proof.
  induction 1 as [|x l [y Hy] _ (ys & Hys & Hall)]; simpl.
  - exists []. by split.
  - exists (y :: ys). rewrite Hy, Hys. simpl. split; [done|]. by constructor.
Qed.

Lemma is_string_Some (v : option json) :
  is_string v = true -> exists s, v = Some (JStr s).
Proof. destruct v as [[]|]; simpl; try done. eauto. Qed.

Lemma language_of_string (pid : string) prompt_meta :
  exists lang, _language_for_prompt (JStr pid) prompt_meta = inr lang.
Proof. simpl. destruct (prompt_meta !! pid); eauto. Qed.

Lemma category_of_string (pid : string) prompt_meta :
  exists cat, _category_for_prompt (JStr pid) prompt_meta = inr cat.
Proof. simpl. destruct (prompt_meta !! pid); eauto. Qed.

(** Enrichment succeeds on a column of strings, with one language and one
    category per row. *)
Lemma enrich_strings prompt_meta (ids : list json) :
  Forall (fun v => exists s, v = JStr s) ids ->
  exists langs cats,
    enrich prompt_meta ids = inr (langs, cats)
    /\ length langs = length ids /\ length cats = length ids.
Proof.
  intros Hids. unfold enrich.
  destruct (traverse_inr (fun pid => _language_for_prompt pid prompt_meta) ids)
    as (langs & -> & Hl).
  { eapply Forall_impl; [exact Hids|]. intros v [s ->].
    apply language_of_string. }
  destruct (traverse_inr (fun pid => _category_for_prompt pid prompt_meta) ids)
    as (cats & -> & Hc).
  { eapply Forall_impl; [exact Hids|]. intros v [s ->].
    apply category_of_string. }
  exists langs, cats. simpl. split; [done|].
  apply Forall2_length in Hl, Hc. by split.
Qed.

(** *** The pairwise frame *)

Lemma is_label_cell (key : string) (fields : list (string * json)) :
  is_label (assoc key fields) = true ->
  exists s, as_label (cell key fields) = Some s.
Proof.
  unfold cell. destruct (assoc key fields) as [[]|]; simpl; try done; eauto.
Qed.

Lemma winner_label_cell (fields : list (string * json)) :
  is_label (assoc "winner" fields) = true ->
  as_label (cell "winner" fields) = Some (winner_label fields).
Proof.
  unfold cell, winner_label.
  by destruct (assoc "winner" fields) as [[]|].
Qed.

Lemma well_typed_pairwise_row (fields : list (string * json)) :
  well_typed_pairwise fields = true ->
  exists prompt a b annotator,
    pairwise_row fields
    = {| fp_prompt_id := JStr prompt; fp_model_a := JStr a;
         fp_model_b := JStr b;
         fp_annotator_id := cell "annotator_id" fields;
         fp_winner := cell "winner" fields |}
    /\ assoc "prompt_id" fields = Some (JStr prompt)
    /\ assoc "model_a" fields = Some (JStr a)
    /\ assoc "model_b" fields = Some (JStr b)
    /\ as_label (cell "annotator_id" fields) = Some annotator
    /\ as_label (cell "winner" fields) = Some (winner_label fields).
Proof.
  unfold well_typed_pairwise. rewrite !andb_true_iff.
  intros ((((Hp & Ha) & Hb) & Hn) & Hw).
  apply is_string_Some in Hp as [prompt Hp], Ha as [a Ha], Hb as [b Hb].
  apply is_label_cell in Hn as [annotator Hn].
  exists prompt, a, b, annotator.
  split; [|split; [done|split; [done|split; [done|split; [done|]]]]].
  - unfold pairwise_row, cell. by rewrite Hp, Ha, Hb.
  - by apply winner_label_cell.
Qed.

Lemma typed_pairwise_frame_ok (raw : list (list (string * json))) :
  Forall (fun fields => well_typed_pairwise fields = true) raw ->
  forall langs cats : list string,
  length langs = length raw -> length cats = length raw ->
  exists pw,
    typed_pairwise_frame (map pairwise_row raw) langs cats = Some pw
    /\ length pw = length raw
    /\ map pw_winner pw = map winner_label raw.
Proof.
  induction 1 as [|fields raw Hf _ IH]; intros langs cats Hl Hc.
  - destruct langs, cats; try done. exists []. by simpl.
  - destruct langs as [|lang langs], cats as [|cat cats]; try done.
    injection Hl as Hl. injection Hc as Hc.
    destruct (IH langs cats Hl Hc) as (pw & Hpw & Hlen & Hwin).
    destruct (well_typed_pairwise_row fields Hf)
      as (prompt & a & b & annotator & Hrow & _ & _ & _ & Hn & Hw).
    cbn [map typed_pairwise_frame]. rewrite Hrow, Hpw.
    unfold typed_pairwise. cbn [fp_prompt_id fp_model_a fp_model_b
      fp_annotator_id fp_winner as_string]. rewrite Hn, Hw. simpl.
    eexists. split; [reflexivity|]. simpl. by rewrite Hlen, Hwin.
Qed.

Lemma pairwise_ids_strings (raw : list (list (string * json))) :
  Forall (fun fields => well_typed_pairwise fields = true) raw ->
  Forall (fun v => exists s, v = JStr s)
         (map fp_prompt_id (map pairwise_row raw)).
Proof.
  induction 1 as [|fields raw Hf _ IH]; cbn [map]; constructor; [|done].
  destruct (well_typed_pairwise_row fields Hf)
    as (prompt & a & b & annotator & -> & _). simpl. eauto.
Qed.

(** *** The rubric frame *)

Lemma score_cell (scores : list (string * json)) (d : dimension) :
  well_typed_score scores d = true ->
  exists v,
    get (JObj scores) (dimension_name d) JNull = inr v
    /\ as_score v
       = Some (match assoc (dimension_name d) scores with
               | Some (JInt z) => Some z
               | _ => None
               end).
Proof.
  unfold well_typed_score, get.
  destruct (assoc (dimension_name d) scores) as [[]|]; try done; eauto.
Qed.

Lemma flatten_well_typed (item : json) :
  well_typed_rubric item = true ->
  exists row prompt,
    flatten_item item = inr row
    /\ fr_prompt_id row = JStr prompt
    /\ forall lang cat : string,
       exists r, typed_rubric row lang cat = Some r
                 /\ forall d, rb_scores r d = raw_score item d.
Proof.
  destruct item as [| | | | | |fields]; try done. simpl.
  rewrite !andb_true_iff. intros (((Hp & Hm) & Ha) & Hs).
  apply is_string_Some in Hp as [prompt Hp], Hm as [model Hm],
      Ha as [annotator Ha].
  unfold flatten_item, getitem. rewrite Hp, Hm, Ha. cbn [bindE get].
  destruct (assoc "timestamp" fields) as [ts|]; cbn [bindE];
    (destruct (assoc "scores" fields) as [[| | | | | |scores]|] eqn:Hsc;
     try done; cbn [bindE]).
  1,3: (simpl in Hs; rewrite !andb_true_iff in Hs;
        destruct Hs as (H1 & H2 & H3 & H4 & _);
        destruct (score_cell _ _ H1) as (v1 & -> & E1);
        destruct (score_cell _ _ H2) as (v2 & -> & E2);
        destruct (score_cell _ _ H3) as (v3 & -> & E3);
        destruct (score_cell _ _ H4) as (v4 & -> & E4);
        cbn [bindE]; eexists _, prompt; split; [reflexivity|];
        split; [reflexivity|]; intros lang cat;
        unfold typed_rubric; cbn [fr_prompt_id fr_model fr_annotator_id
          fr_cultural_accuracy fr_linguistic_authenticity fr_creative_depth
          fr_factual_correctness as_string];
        rewrite E1, E2, E3, E4; cbn; eexists; split; [reflexivity|];
        intros []; reflexivity).
  all: (cbn; eexists _, prompt; split; [reflexivity|];
        split; [reflexivity|]; intros lang cat;
        eexists; split; [reflexivity|]; intros []; reflexivity).
Qed.

Lemma flatten_model_string (item : json) :
  well_typed_rubric item = true ->
  exists row model, flatten_item item = inr row /\ fr_model row = JStr model.
Proof.
  destruct item as [| | | | | |fields]; try done. simpl.
  rewrite !andb_true_iff. intros (((Hp & Hm) & Ha) & Hs).
  apply is_string_Some in Hp as [prompt Hp], Hm as [model Hm],
      Ha as [annotator Ha].
  unfold flatten_item, getitem. rewrite Hp, Hm, Ha. cbn [bindE get].
  destruct (assoc "timestamp" fields) as [ts|]; cbn [bindE];
    (destruct (assoc "scores" fields) as [[| | | | | |scores]|] eqn:Hsc;
     try done; cbn [bindE]).
  1,3: (simpl in Hs; rewrite !andb_true_iff in Hs;
        destruct Hs as (H1 & H2 & H3 & H4 & _);
        destruct (score_cell _ _ H1) as (v1 & -> & E1);
        destruct (score_cell _ _ H2) as (v2 & -> & E2);
        destruct (score_cell _ _ H3) as (v3 & -> & E3);
        destruct (score_cell _ _ H4) as (v4 & -> & E4);
        cbn [bindE]; eexists _, model; split; reflexivity).
  all: (cbn; eexists _, model; split; reflexivity).
Qed.

Lemma rubric_models_strings (raw : list json) (flat : list RubricRow) :
  Forall2 (fun item row => flatten_item item = inr row) raw flat ->
  Forall (fun item => well_typed_rubric item = true) raw ->
  Forall (fun v => exists s, v = JStr s) (map fr_model flat).
Proof.
  induction 1 as [|item row raw flat Hrow _ IH]; intros Hwt; simpl;
    [constructor|].
  apply Forall_cons in Hwt as [Hitem Hwt]. constructor; [|by apply IH].
  destruct (flatten_model_string item Hitem) as (row' & model & Hf & Hm).
  rewrite Hrow in Hf. injection Hf as <-. eauto.
Qed.

Lemma typed_rubric_frame_ok (raw : list json) (flat : list RubricRow) :
  Forall2 (fun item row => flatten_item item = inr row) raw flat ->
  Forall (fun item => well_typed_rubric item = true) raw ->
  forall langs cats : list string,
  length langs = length raw -> length cats = length raw ->
  exists rb,
    typed_rubric_frame flat langs cats = Some rb
    /\ Forall2 (fun item r => forall d, rb_scores r d = raw_score item d)
               raw rb.
Proof.
  induction 1 as [|item row raw flat Hrow _ IH]; intros Hwt langs cats Hl Hc.
  - destruct langs, cats; try done. exists []. by split.
  - destruct langs as [|lang langs], cats as [|cat cats]; try done.
    injection Hl as Hl. injection Hc as Hc.
    apply Forall_cons in Hwt as [Hitem Hwt].
    destruct (IH Hwt langs cats Hl Hc) as (rb & Hrb & Hscores).
    destruct (flatten_well_typed item Hitem) as (row' & prompt & Hf & _ & Ht).
    rewrite Hrow in Hf. injection Hf as <-.
    destruct (Ht lang cat) as (r & Hr & Hsc).
    cbn [typed_rubric_frame]. rewrite Hr, Hrb. simpl.
    eexists. split; [reflexivity|]. by constructor.
Qed.

Lemma rubric_ids_strings (raw : list json) (flat : list RubricRow) :
  Forall2 (fun item row => flatten_item item = inr row) raw flat ->
  Forall (fun item => well_typed_rubric item = true) raw ->
  Forall (fun v => exists s, v = JStr s) (map fr_prompt_id flat).
Proof.
  induction 1 as [|item row raw flat Hrow _ IH]; intros Hwt; simpl;
    [constructor|].
  apply Forall_cons in Hwt as [Hitem Hwt]. constructor; [|by apply IH].
  destruct (flatten_well_typed item Hitem) as (row' & prompt & Hf & Hp & _).
  rewrite Hrow in Hf. injection Hf as <-. eauto.
Qed.

End NormalizerFacts.

Module NormalizerTotal.
Import Normalizer NormalizerFacts Samples ReportRun.

Lemma pairwise_meta_ok prompt_meta (raw : list (list (string * json))) :
  Forall (fun fields => well_typed_pairwise fields = true) raw ->
  exists langs cats,
    @eq (Exc (list string * list string))
      (if frame_empty raw then inr ([], [])
       else bindE (column "prompt_id" raw
                     (map fp_prompt_id (map pairwise_row raw)))
                  (fun ids => enrich prompt_meta ids))
      (inr (langs, cats))
    /\ length langs = length raw /\ length cats = length raw.
Proof.
  intros Hraw. destruct raw as [|fields raw].
  - exists [], []. by simpl.
  - pose proof (pairwise_ids_strings _ Hraw) as Hids.
    apply Forall_cons in Hraw as [Hf Hraw].
    destruct (well_typed_pairwise_row fields Hf)
      as (prompt & a & b & annotator & _ & Hp & _).
    assert (Hne : frame_empty (fields :: raw) = false).
    { simpl. destruct fields; [done|]. done. }
    rewrite Hne. unfold column. cbn [existsb]. rewrite Hp.
    rewrite bool_decide_eq_true_2 by eauto. cbn [orb bindE].
    destruct (enrich_strings prompt_meta _ Hids) as (langs & cats & -> & Hl & Hc).
    exists langs, cats. rewrite !length_map in Hl, Hc. done.
Qed.

Lemma rubric_meta_ok prompt_meta (raw : list json) (flat : list RubricRow) :
  Forall2 (fun item row => flatten_item item = inr row) raw flat ->
  Forall (fun item => well_typed_rubric item = true) raw ->
  exists langs cats,
    @eq (Exc (list string * list string))
      match flat with
      | [] => inr ([], [])
      | _ => enrich prompt_meta (map fr_prompt_id flat)
      end
      (inr (langs, cats))
    /\ length langs = length raw /\ length cats = length raw.
Proof.
  intros Hflat Hraw.
  pose proof (rubric_ids_strings raw flat Hflat Hraw) as Hids.
  pose proof (Forall2_length _ _ _ Hflat) as Hlen.
  destruct flat as [|row flat].
  - exists [], []. destruct raw; done.
  - destruct (enrich_strings prompt_meta _ Hids) as (langs & cats & -> & Hl & Hc).
    exists langs, cats. rewrite !length_map in Hl, Hc. rewrite Hlen. done.
Qed.

Lemma frames_on_well_typed (prompt_meta : gmap string prompt_info)
    (pairwise_raw : list (list (string * json))) (rubric_raw : list json) :
  Forall (fun fields => well_typed_pairwise fields = true) pairwise_raw ->
  Forall (fun item => well_typed_rubric item = true) rubric_raw ->
  exists frames pw rb,
    build_frames prompt_meta pairwise_raw rubric_raw = inr frames
    /\ pairwise_rows frames = map pairwise_row pairwise_raw
    /\ Forall (fun v => exists s, v = JStr s)
         (map fr_model (rubric_rows frames))
    /\ typed_pairwise_frame (pairwise_rows frames)
         (pairwise_meta frames).1 (pairwise_meta frames).2 = Some pw
    /\ typed_rubric_frame (rubric_rows frames)
         (rubric_meta frames).1 (rubric_meta frames).2 = Some rb
    /\ length pw = length pairwise_raw
    /\ map pw_winner pw = map winner_label pairwise_raw
    /\ Forall2 (fun item r => forall d, rb_scores r d = raw_score item d)
         rubric_raw rb.
Proof.
  intros Hpw Hrb. unfold build_frames. cbv zeta.
  destruct (traverse_inr flatten_item rubric_raw) as (flat & -> & Hflat).
  { eapply Forall_impl; [exact Hrb|]. intros item Hitem.
    destruct (flatten_well_typed item Hitem) as (row & _ & Hrow & _). eauto. }
  rewrite bindE_inr.
  destruct (pairwise_meta_ok prompt_meta pairwise_raw Hpw)
    as (pl & pc & -> & Hpl & Hpc).
  rewrite bindE_inr.
  destruct (rubric_meta_ok prompt_meta rubric_raw flat Hflat Hrb)
    as (rl & rc & -> & Hrl & Hrc).
  rewrite bindE_inr.
  destruct (typed_pairwise_frame_ok pairwise_raw Hpw pl pc Hpl Hpc)
    as (pw & Hpw' & Hlen & Hwin).
  destruct (typed_rubric_frame_ok rubric_raw flat Hflat Hrb rl rc Hrl Hrc)
    as (rb & Hrb' & Hscores).
  pose proof (rubric_models_strings rubric_raw flat Hflat Hrb) as Hmodels.
  eexists _, pw, rb. split; [reflexivity|]. simpl. done.
Qed.

Lemma read_column_has_key (key : string)
    (raw : list (list (string * json))) :
  read_column key raw
  = if has_key key raw then Returns tt else Raises (KeyError key).
Proof.
  unfold read_column, column, has_key. by destruct (existsb _ raw).
Qed.

Lemma has_key_first (key : string) (fields : list (string * json))
    (raw : list (list (string * json))) (v : json) :
  assoc key fields = Some v -> has_key key (fields :: raw) = true.
Proof.
  intros Hv. unfold has_key. cbn [existsb]. rewrite Hv.
  by rewrite bool_decide_eq_true_2 by eauto.
Qed.

Lemma frame_not_empty (fields : list (string * json))
    (raw : list (list (string * json))) :
  well_typed_pairwise fields = true -> frame_empty (fields :: raw) = false.
Proof. intros Hf. simpl. by destruct fields. Qed.

Lemma sort_models_strings (cells : list json) :
  Forall (fun v => exists s, v = JStr s) cells ->
  sort_models cells = Returns tt.
Proof.
  intros Hall. unfold sort_models.
  assert (Hb : forallb is_str cells = true).
  { induction Hall as [|v l [s ->] _ IH]; [done|]. by cbn [forallb is_str]. }
  by rewrite Hb.
Qed.

Lemma pairwise_models_strings (raw : list (list (string * json))) :
  Forall (fun fields => well_typed_pairwise fields = true) raw ->
  Forall (fun v => exists s, v = JStr s)
         (map fp_model_a (map pairwise_row raw)
          ++ map fp_model_b (map pairwise_row raw)).
Proof.
  intros Hraw. apply Forall_app. split.
  all: induction Hraw as [|fields raw Hf _ IH]; cbn [map]; constructor;
    [|done].
  all: destruct (well_typed_pairwise_row fields Hf)
         as (prompt & a & b & annotator & -> & _); simpl; eauto.
Qed.

Lemma read_roster_well_typed (raw : list (list (string * json)))
    (frames : Frames) :
  Forall (fun fields => well_typed_pairwise fields = true) raw ->
  pairwise_rows frames = map pairwise_row raw ->
  Forall (fun v => exists s, v = JStr s) (map fr_model (rubric_rows frames)) ->
  read_roster raw frames = Returns tt.
Proof.
  intros Hraw Hrows Hmodels. unfold read_roster. cbv zeta. rewrite Hrows.
  pose proof (pairwise_models_strings raw Hraw) as Hcells.
  destruct raw as [|fields raw].
  - cbn [frame_empty forallb bindO app]. by apply sort_models_strings.
  - apply Forall_cons in Hraw as [Hf Hraw].
    destruct (well_typed_pairwise_row fields Hf)
      as (prompt & a & b & annotator & _ & _ & Ha & Hb & _).
    rewrite (frame_not_empty _ _ Hf), !read_column_has_key.
    rewrite (has_key_first _ _ _ _ Ha), (has_key_first _ _ _ _ Hb).
    cbn [bindO]. apply sort_models_strings, Forall_app. by split.
Qed.

Lemma flatten_without_identifier (fields : list (string * json))
    (key : string) :
  key ∈ ["prompt_id"; "model"; "annotator_id"] ->
  assoc key fields = None ->
  exists k, flatten_item (JObj fields) = inl (KeyError k).
Proof.
  intros Hkey Hnone. unfold flatten_item, getitem.
  destruct (assoc "prompt_id" fields) as [p|] eqn:Hp; [|by eauto].
  cbn [bindE].
  destruct (assoc "model" fields) as [m|] eqn:Hm; [|by eauto].
  cbn [bindE].
  destruct (assoc "annotator_id" fields) as [a|] eqn:Ha; [|by eauto].
  exfalso. repeat (apply elem_of_cons in Hkey as [->|Hkey]; [congruence|]).
  by apply elem_of_nil in Hkey.
Qed.

Lemma traverse_fails {A B} (f : A -> Exc B) (l : list A) (x : A) (e : exn) :
  x ∈ l -> f x = inl e -> exists e', traverse f l = inl e'.
Proof.
  intros Hx Hf. induction l as [|y l IH]; [by inversion Hx|]. simpl.
  destruct (f y) as [e1|z] eqn:Hy; [by eauto|]. cbn [bindE].
  apply elem_of_cons in Hx as [->|Hx]; [congruence|].
  destruct (IH Hx) as [e' ->]. by eauto.
Qed.

Section AnyLibrary.
Context `{Krippendorff}.


End AnyLibrary.


(** The sample frames as they come out: the malformed winner and the score
    7 are kept, and the languages come from the prefix of the id. *)
Example frames_of_samples :
  exists frames,
    build_frames ∅ raw_pairwise raw_rubric = inr frames
    /\ map fp_winner (pairwise_rows frames) = [JStr "a"; JStr "both"]
    /\ pairwise_meta frames
       = (["igala"; "lebanese_arabic"], ["unknown"; "unknown"])
    /\ map fr_cultural_accuracy (rubric_rows frames) = [JInt 7; JNull]
    /\ rubric_meta frames = (["igala"; "unknown"], ["unknown"; "unknown"]).
Proof. eexists. split; [vm_compute; reflexivity|]. by vm_compute. Qed.


End NormalizerTotal.

(** * Further properties of the pairwise analysis *)

Module WinRateMore.
Import WinRate WinRateFacts MalformedWinner Report.

Lemma bump_lookup (k k' : string * string) matrix :
  bump k matrix !! k'
  = if decide (k = k') then Some (default 0 (matrix !! k) + 1)%Z
    else matrix !! k'.
Proof.
  unfold bump. destruct (matrix !! k) as [c|] eqn:Hk; case_decide; subst;
    rewrite ?lookup_insert_eq, ?lookup_insert_ne by done; done.
Qed.

Lemma touch_lookup (k k' : string * string) matrix :
  touch k matrix !! k'
  = if decide (k = k') then Some (default 0%Z (matrix !! k))
    else matrix !! k'.
Proof.
  unfold touch. destruct (matrix !! k) as [c|] eqn:Hk; case_decide; subst;
    rewrite ?lookup_insert_eq, ?lookup_insert_ne by done; done.
Qed.

Lemma tally_cases (models : list string) matrix r :
  tally models matrix r = matrix
  /\ (forall m1 m2 : string, beats models m1 m2 r = false)
  \/ exists x y : string,
       tally models matrix r = touch (y, x) (bump (x, y) matrix)
       /\ forall m1 m2 : string,
            beats models m1 m2 r = bool_decide ((x, y) = (m1, m2)).
Proof.
  unfold tally, beats.
  destruct (bool_decide (pw_model_a r ∈ models)); simpl;
    [|left; by split].
  destruct (bool_decide (pw_model_b r ∈ models)); simpl;
    [|left; by split].
  destruct (String.eqb (pw_winner r) "a") eqn:Ha; simpl.
  - right. exists (pw_model_a r), (pw_model_b r). split; [done|].
    intros m1 m2. rewrite (eqb_a_b _ Ha). simpl. rewrite orb_false_r.
    case_bool_decide as Hk.
    + injection Hk as <- <-. by rewrite !String.eqb_refl.
    + destruct (String.eqb (pw_model_a r) m1) eqn:E1; [|done].
      destruct (String.eqb (pw_model_b r) m2) eqn:E2; [|done].
      apply String.eqb_eq in E1, E2. congruence.
  - destruct (String.eqb (pw_winner r) "b") eqn:Hb; simpl.
    + right. exists (pw_model_b r), (pw_model_a r). split; [done|].
      intros m1 m2. case_bool_decide as Hk.
      * injection Hk as <- <-. by rewrite !String.eqb_refl.
      * destruct (String.eqb (pw_model_b r) m1) eqn:E1; [|done].
        destruct (String.eqb (pw_model_a r) m2) eqn:E2; [|done].
        apply String.eqb_eq in E1, E2. congruence.
    + left. by split.
Qed.

(** The state of a cell of the count frame: [NaN] until the pair has a
    decisive record in either direction, then the number of wins. *)
Lemma win_counts_lookup (models : list string) (rows : list PairwiseRecord) :
  forall m1 m2 : string,
  win_counts rows models !! (m1, m2)
  = if decide (wins models rows m1 m2 = 0 /\ wins models rows m2 m1 = 0)%Z
    then None else Some (wins models rows m1 m2).
Proof.
  induction rows as [|r rows IH] using rev_ind; intros m1 m2.
  - unfold win_counts, wins. simpl. by rewrite lookup_empty.
  - unfold win_counts, wins in *. rewrite fold_left_app, !count_app.
    cbn [fold_left count].
    pose proof (count_nonneg (beats models m1 m2) rows) as H12.
    pose proof (count_nonneg (beats models m2 m1) rows) as H21.
    destruct (tally_cases models (fold_left (tally models) rows ∅) r)
      as [[-> Hb]|(x & y & -> & Hb)].
    + rewrite !Hb, IH. repeat case_decide; try done; try (f_equal; lia); lia.
    + rewrite touch_lookup, !bump_lookup, !Hb.
      pose proof (count_nonneg (beats models x y) rows) as Hxy.
      destruct (decide ((y, x) = (m1, m2))) as [[= <- <-]|Hne1].
      * destruct (decide ((x, y) = (y, x))) as [[= ->]|Hne2].
        -- rewrite bool_decide_eq_true_2 by done. rewrite IH.
           repeat case_decide; simpl; try (f_equal; lia); lia.
        -- rewrite bool_decide_eq_false_2 by done.
           rewrite bool_decide_eq_true_2 by done. rewrite IH.
           repeat case_decide; simpl; try (f_equal; lia); lia.
      * destruct (decide ((x, y) = (m1, m2))) as [[= <- <-]|Hne2].
        -- rewrite bool_decide_eq_true_2 by done.
           rewrite (bool_decide_eq_false_2 ((x, y) = (y, x))) by congruence.
           rewrite IH.
           repeat case_decide; simpl; try (f_equal; lia); lia.
        -- rewrite bool_decide_eq_false_2 by done.
           rewrite (bool_decide_eq_false_2 ((x, y) = (m2, m1))) by congruence.
           rewrite IH.
           repeat case_decide; simpl; try (f_equal; lia); lia.
Qed.

(** X1: a cell of the count frame is [NaN] exactly when the two models
    have no decisive record in either direction among the roster records;
    otherwise it holds the number of wins of the row model over the column
    model, which is 0 for a model that only lost. *)
Theorem count_frame_cells (pairwise_df : list PairwiseRecord)
    (models : list string) (m1 m2 : string) :
  NoDup models ->
  (win_counts pairwise_df models !! (m1, m2) = None
   <-> (wins models pairwise_df m1 m2 = 0
        /\ wins models pairwise_df m2 m1 = 0)%Z)
  /\ (forall c : Z, win_counts pairwise_df models !! (m1, m2) = Some c ->
        c = wins models pairwise_df m1 m2)
  /\ (wins models pairwise_df m1 m2 = 0%Z ->
      (0 < wins models pairwise_df m2 m1)%Z ->
      win_counts pairwise_df models !! (m1, m2) = Some 0%Z).
Proof.
  intros _. rewrite win_counts_lookup. split_and!.
  - case_decide; split; done.
  - intros c. case_decide; [done|]. by intros [= <-].
  - intros H0 Hpos. rewrite decide_False by lia. by rewrite H0.
Qed.

Lemma rate_range (w l : Z) :
  (0 <= w)%Z -> (0 <= l)%Z -> (0 < w + l)%Z ->
  (0 <= inject_Z w / inject_Z (w + l) <= 1)%Q
  /\ ((inject_Z w / inject_Z (w + l) == 1)%Q <-> l = 0%Z)
  /\ ((inject_Z w / inject_Z (w + l) == 0)%Q <-> w = 0%Z).
Proof.
  intros Hw Hl Ht. destruct (w + l)%Z as [|p|p] eqn:Ep; try lia.
  rewrite <- Qmake_Qdiv. unfold Qle, Qeq. simpl.
  split_and!; [lia|lia|split; lia|split; lia].
Qed.

(** X2: a defined cell of the rate matrix lies in [0, 1]; it is 1 exactly
    when the column model never beat the row model, and 0 exactly when the
    row model never beat the column model. *)
Theorem rate_cell_range (pairwise_df : list PairwiseRecord)
    (models : list string) (m1 m2 : string) (q : Q) :
  NoDup models ->
  _compute_win_rates pairwise_df models !! (m1, m2) = Some q ->
  (0 <= q <= 1)%Q
  /\ ((q == 1)%Q <-> wins models pairwise_df m2 m1 = 0%Z)
  /\ ((q == 0)%Q <-> wins models pairwise_df m1 m2 = 0%Z).
Proof.
  intros _. rewrite rates_lookup. case_decide; [|done].
  destruct (decide (m1 = m2)) as [->|Hne].
  { unfold rate_cell. by rewrite decide_True. }
  rewrite rate_cell_wins by done. cbv zeta.
  destruct (0 <? _)%Z eqn:Et; [|done]. intros [= <-].
  apply Z.ltb_lt in Et. apply rate_range; [apply count_nonneg..|done].
Qed.

Lemma rate_cell_range_witness :
  (0 <= 3 # 4 <= 1)%Q
  /\ ((3 # 4 == 1)%Q <-> wins ["x"; "y"] sample_rows "y" "x" = 0%Z)
  /\ ((3 # 4 == 0)%Q <-> wins ["x"; "y"] sample_rows "x" "y" = 0%Z).
Proof.
  apply (rate_cell_range sample_rows ["x"; "y"] "x" "y" (3 # 4)).
  - by_decide.
  - vm_compute. reflexivity.
Defined.

Lemma rate_cell_is_Some matrix (m1 m2 : string) :
  is_Some (rate_cell matrix m1 m2)
  <-> m1 ≠ m2
      /\ (0 < count_or_0 matrix m1 m2 + count_or_0 matrix m2 m1)%Z.
Proof.
  unfold rate_cell. case_decide as Heq.
  - split; [by intros [? ?]|by intros [? _]].
  - destruct (0 <? _)%Z eqn:Et.
    + apply Z.ltb_lt in Et. split; [done|]. intros _. by eexists.
    + apply Z.ltb_ge in Et. split; [by intros [? ?]|]. intros [_ ?]. lia.
Qed.

(** X3: the rate matrix has cells for pairs of distinct roster models
    only, and the two directions of a pair are defined together. *)
Theorem rate_cells_defined_together (pairwise_df : list PairwiseRecord)
    (models : list string) (m1 m2 : string) :
  NoDup models ->
  (is_Some (_compute_win_rates pairwise_df models !! (m1, m2)) ->
   m1 ∈ models /\ m2 ∈ models /\ m1 ≠ m2)
  /\ (is_Some (_compute_win_rates pairwise_df models !! (m1, m2))
      <-> is_Some (_compute_win_rates pairwise_df models !! (m2, m1))).
Proof.
  intros _. rewrite !rates_lookup. split.
  - case_decide as Hin; [|by intros [? ?]].
    intros [Hne _]%rate_cell_is_Some. by destruct Hin.
  - destruct (decide (m1 ∈ models ∧ m2 ∈ models)) as [[H1 H2]|Hn].
    + rewrite (decide_True (P := m2 ∈ models ∧ m1 ∈ models)) by done.
      rewrite !rate_cell_is_Some. split; intros [Hne Ht]; (split; [congruence|lia]).
    + rewrite (decide_False (P := m2 ∈ models ∧ m1 ∈ models)) by tauto.
      done.
Qed.

Lemma rate_cells_defined_together_witness :
  is_Some (_compute_win_rates sample_rows ["x"; "y"] !! ("y", "x")).
Proof.
  apply (rate_cells_defined_together sample_rows ["x"; "y"] "x" "y").
  - by_decide.
  - vm_compute. eauto.
Defined.

Lemma count_frame_cells_witness :
  win_counts sample_rows ["x"; "y"; "z"] !! ("z", "x") = Some 0%Z.
Proof.
  apply (count_frame_cells sample_rows ["x"; "y"; "z"] "z" "x").
  - by_decide.
  - vm_compute. reflexivity.
  - vm_compute. reflexivity.
Defined.

Lemma count_perm {A} (p : A -> bool) (l l' : list A) :
  l ≡ₚ l' -> count p l = count p l'.
Proof.
  induction 1 as [|x l l' _ IH|x y l|l l' l'' _ IH1 _ IH2]; simpl;
    [done|by rewrite IH|lia|congruence].
Qed.

Lemma total_sides_perm (m : string) (l l' : list PairwiseRecord) :
  l ≡ₚ l' -> total_sides m l = total_sides m l'.
Proof.
  induction 1 as [|x l l' _ IH|x y l|l l' l'' _ IH1 _ IH2]; simpl;
    [done|by rewrite IH|lia|congruence].
Qed.

Lemma overall_win_pct_lookup_any (rows : list PairwiseRecord)
    (models : list string) (m : string) :
  _compute_overall_win_pct rows models !! m
  = if decide (m ∈ models)
    then Some (if (0 <? total_sides m rows)%Z
               then (inject_Z (count (won_by m) rows)
                     / inject_Z (total_sides m rows) * 100)%Q
               else 0%Q)
    else None.
Proof.
  case_decide.
  - by apply overall_win_pct_lookup.
  - by apply overall_win_pct_outside.
Qed.

(** X4: the count frame, the rate matrix and the overall win percentages
    do not depend on the order of the rows of the frame. *)
Theorem win_statistics_order_independent
    (pairwise_df pairwise_df' : list PairwiseRecord) (models : list string) :
  NoDup models -> pairwise_df ≡ₚ pairwise_df' ->
  win_counts pairwise_df models = win_counts pairwise_df' models
  /\ _compute_win_rates pairwise_df models
     = _compute_win_rates pairwise_df' models
  /\ _compute_overall_win_pct pairwise_df models
     = _compute_overall_win_pct pairwise_df' models.
Proof.
  intros _ Hperm.
  assert (Hcounts : win_counts pairwise_df models
                    = win_counts pairwise_df' models).
  { apply map_eq. intros [m1 m2]. rewrite !win_counts_lookup. unfold wins.
    by rewrite !(count_perm _ _ _ Hperm). }
  split_and!; [done| |].
  - unfold _compute_win_rates. by rewrite Hcounts.
  - apply map_eq. intros m. rewrite !overall_win_pct_lookup_any.
    by rewrite (count_perm _ _ _ Hperm), (total_sides_perm _ _ _ Hperm).
Qed.

Lemma win_statistics_order_independent_witness :
  _compute_win_rates sample_rows ["x"; "y"]
  = _compute_win_rates (rev sample_rows) ["x"; "y"].
Proof.
  refine (proj1 (proj2 (win_statistics_order_independent sample_rows
                          (rev sample_rows) ["x"; "y"] _ _))).
  - by_decide.
  - apply Permutation_rev.
Defined.

(** X5: a tie, and a record of which a model is outside the roster, are
    skipped by the first loop of [_compute_win_rates]: removing such a
    record changes neither the count frame nor the rate matrix. *)
Theorem ties_and_unknown_models_skipped (l1 l2 : list PairwiseRecord)
    (r : PairwiseRecord) (models : list string) :
  NoDup models ->
  pw_winner r = "tie" \/ pw_model_a r ∉ models \/ pw_model_b r ∉ models ->
  win_counts (l1 ++ r :: l2) models = win_counts (l1 ++ l2) models
  /\ _compute_win_rates (l1 ++ r :: l2) models
     = _compute_win_rates (l1 ++ l2) models.
Proof.
  intros _ Hr.
  assert (Hskip : forall matrix, tally models matrix r = matrix).
  { intros matrix. unfold tally. destruct Hr as [Ht|[Ha|Hb]].
    - rewrite Ht. simpl. by destruct (_ || _).
    - by rewrite (bool_decide_eq_false_2 _ Ha).
    - rewrite (bool_decide_eq_false_2 _ Hb). by rewrite orb_true_r. }
  assert (Hcounts : win_counts (l1 ++ r :: l2) models
                    = win_counts (l1 ++ l2) models).
  { unfold win_counts. rewrite !fold_left_app. cbn [fold_left].
    by rewrite Hskip. }
  split; [done|]. unfold _compute_win_rates. by rewrite Hcounts.
Qed.

Lemma ties_and_unknown_models_skipped_witness :
  _compute_win_rates (take 5 sample_rows ++ sample_pair_xz :: []) ["x"; "y"]
  = _compute_win_rates (take 5 sample_rows ++ []) ["x"; "y"].
Proof.
  refine (proj2 (ties_and_unknown_models_skipped (take 5 sample_rows) []
                   sample_pair_xz ["x"; "y"] _ _)).
  - by_decide.
  - right. right. by_decide.
Defined.

(** X6: the same record against a model outside the roster does count in
    [_compute_overall_win_pct]: it adds an appearance, and a win when the
    roster model is the winner, to the tallies of the roster model. *)
Theorem unknown_opponent_counts_overall (l1 l2 : list PairwiseRecord)
    (r : PairwiseRecord) (models : list string) :
  pw_model_a r ∈ models -> pw_model_b r ∉ models -> pw_winner r = "a" ->
  let m := pw_model_a r in
  fold_left (count_wins models) (l1 ++ r :: l2) (zero_dict models) !! m
  = (fun c => (c + 1)%Z)
      <$> fold_left (count_wins models) (l1 ++ l2) (zero_dict models) !! m
  /\ fold_left (count_total models) (l1 ++ r :: l2) (zero_dict models) !! m
     = (fun c => (c + 1)%Z)
         <$> fold_left (count_total models) (l1 ++ l2) (zero_dict models)
               !! m.
Proof.
  intros Ha Hb Hw m. subst m.
  rewrite !fold_count_wins, !fold_count_total by done.
  rewrite !count_app, !total_sides_app. cbn [count total_sides].
  rewrite zero_dict_lookup by done. simpl.
  assert (Hne : String.eqb (pw_model_b r) (pw_model_a r) = false).
  { apply String.eqb_neq. intros Heq. apply Hb. by rewrite Heq. }
  assert (Hwon : won_by (pw_model_a r) r = true).
  { unfold won_by. rewrite Hw, !String.eqb_refl. done. }
  assert (Hsides : sides (pw_model_a r) r = 1%Z).
  { unfold sides. by rewrite Hne, String.eqb_refl. }
  rewrite Hwon, Hsides. split; f_equal; lia.
Qed.

Lemma unknown_opponent_counts_overall_witness :
  fold_left (count_wins ["x"; "y"]) ([] ++ sample_pair_xz :: [])
    (zero_dict ["x"; "y"]) !! "x"
  = (fun c => (c + 1)%Z)
      <$> fold_left (count_wins ["x"; "y"]) ([] ++ []) (zero_dict ["x"; "y"])
            !! "x".
Proof.
  refine (proj1 (unknown_opponent_counts_overall [] [] sample_pair_xz
                   ["x"; "y"] _ _ _)).
  - by_decide.
  - by_decide.
  - reflexivity.
Defined.

(** X7: the dictionary of overall win percentages has one entry for each
    roster model, also for a model without any record, and no other
    key. *)
Theorem overall_win_pct_keys (pairwise_df : list PairwiseRecord)
    (models : list string) (m : string) :
  is_Some (_compute_overall_win_pct pairwise_df models !! m) <-> m ∈ models.
Proof.
  rewrite overall_win_pct_lookup_any.
  case_decide; split; done.
Qed.

Lemma raw_count_step (m : string) (w t : Z) (r : PairwiseRecord) :
  Bootstrap.raw_count m (w, t) r
  = ((w + if won_side m r then 1 else 0)%Z,
     (t + if appears m r then 1 else 0)%Z).
Proof.
  unfold Bootstrap.raw_count, won_side, appears.
  destruct (String.eqb (pw_model_a r) m); simpl.
  - destruct (String.eqb (pw_winner r) "a"); f_equal; lia.
  - destruct (String.eqb (pw_model_b r) m); simpl.
    + destruct (String.eqb (pw_winner r) "b"); f_equal; lia.
    + f_equal; lia.
Qed.

Lemma raw_count_fold (m : string) (rows : list PairwiseRecord) :
  forall w t : Z,
  fold_left (Bootstrap.raw_count m) rows (w, t)
  = ((w + count (won_side m) rows)%Z, (t + count (appears m) rows)%Z).
Proof.
  induction rows as [|r rows IH]; intros w t; cbn [fold_left count].
  - f_equal; lia.
  - rewrite raw_count_step, IH. f_equal; lia.
Qed.

Lemma won_side_le_appears (m : string) (rows : list PairwiseRecord) :
  (0 <= count (won_side m) rows <= count (appears m) rows
   /\ count (appears m) rows <= Z.of_nat (length rows))%Z.
Proof.
  induction rows as [|r rows IH]; simpl; [lia|].
  assert (Hstep : won_side m r = true -> appears m r = true).
  { unfold won_side, appears.
    destruct (String.eqb (pw_model_a r) m), (String.eqb (pw_model_b r) m);
      simpl; done. }
  destruct (won_side m r), (appears m r); try lia.
Qed.

Lemma won_side_won_by (m : string) (r : PairwiseRecord) :
  pw_model_a r ≠ pw_model_b r -> won_side m r = won_by m r.
Proof.
  intros Hne. unfold won_side, won_by.
  destruct (String.eqb (pw_model_a r) m) eqn:Ea;
    destruct (String.eqb (pw_model_b r) m) eqn:Eb;
    rewrite ?andb_true_r, ?andb_false_r, ?orb_false_r; simpl; try done.
  all: try (apply String.eqb_eq in Ea, Eb; congruence).
  all: try (by rewrite andb_comm).
Qed.

Lemma count_won_side (m : string) (rows : list PairwiseRecord) :
  Forall (fun r => pw_model_a r ≠ pw_model_b r) rows ->
  count (won_side m) rows = count (won_by m) rows.
Proof.
  induction 1 as [|r rows Hr _ IH]; cbn [count]; [done|].
  by rewrite IH, (won_side_won_by m r Hr).
Qed.

(** X8: the wins and total that [generate_report] tallies for the
    bootstrap of a model satisfy 0 <= w <= total <= number of rows; a row
    with the model on both sides counts once.  When model_a and model_b
    differ in every row they are the numerator and the denominator of
    the overall win percentage of the model. *)
Theorem report_tallies (pairwise_df : list PairwiseRecord)
    (models : list string) (m : string) :
  let (w, total) := Bootstrap.raw_counts pairwise_df m in
  (0 <= w <= total)%Z /\ (total <= Z.of_nat (length pairwise_df))%Z
  /\ total = count (appears m) pairwise_df
  /\ (Forall (fun r => pw_model_a r ≠ pw_model_b r) pairwise_df ->
      m ∈ models ->
      w = count (won_by m) pairwise_df
      /\ _compute_overall_win_pct pairwise_df models !! m
         = Some (if (0 <? total)%Z
                 then (inject_Z w / inject_Z total * 100)%Q else 0%Q)).
Proof.
  unfold Bootstrap.raw_counts. rewrite raw_count_fold. simpl.
  pose proof (won_side_le_appears m pairwise_df) as [Hw Ht].
  split; [lia|]. split; [lia|]. split; [lia|].
  intros Hinv Hin.
  pose proof (count_won_side m _ Hinv) as Hwon.
  split; [lia|].
  rewrite overall_win_pct_lookup by done. cbv zeta.
  rewrite Hwon, (total_sides_appears m _ Hinv).
  by rewrite !Z.add_0_l.
Qed.

Lemma report_tallies_witness :
  let (w, total) := Bootstrap.raw_counts sample_rows "x" in
  w = count (won_by "x") sample_rows
  /\ _compute_overall_win_pct sample_rows ["x"; "y"] !! "x"
     = Some (if (0 <? total)%Z
             then (inject_Z w / inject_Z total * 100)%Q else 0%Q).
Proof.
  pose proof (report_tallies sample_rows ["x"; "y"] "x") as H.
  destruct (Bootstrap.raw_counts sample_rows "x") as [w total].
  destruct H as (_ & _ & _ & H). apply H; by_decide.
Defined.

End WinRateMore.

(** * The roster and the per-language tables of the report *)

Module StringOrder.
Import Agreement.

Lemma compare_le_trans (s1 : string) : forall s2 s3 : string,
  String.compare s1 s2 <> Gt -> String.compare s2 s3 <> Gt ->
  String.compare s1 s3 <> Gt.
Proof.
  induction s1 as [|c1 s1 IH]; intros [|c2 s2] [|c3 s3]; simpl;
    try congruence.
  unfold Ascii.compare.
  destruct (N.compare_spec (N_of_ascii c1) (N_of_ascii c2)) as [E12|L12|G12];
    destruct (N.compare_spec (N_of_ascii c2) (N_of_ascii c3))
      as [E23|L23|G23];
    destruct (N.compare_spec (N_of_ascii c1) (N_of_ascii c3))
      as [E13|L13|G13];
    try congruence; try lia; eauto.
Qed.

Lemma string_le_compare (s1 s2 : string) :
  string_le s1 s2 <-> String.compare s1 s2 <> Gt.
Proof.
  unfold string_le, String.leb. by destruct (String.compare s1 s2).
Qed.

#[global] Instance string_le_trans : Transitive string_le.
Proof.
  intros s1 s2 s3. rewrite !string_le_compare. apply compare_le_trans.
Qed.

#[global] Instance string_le_total : Total string_le.
Proof. intros s1 s2. apply String.leb_total. Qed.

#[global] Instance string_le_antisym : AntiSymm eq string_le.
Proof. intros s1 s2. apply String.leb_antisym. Qed.

Lemma labels_sorted (l : list string) : Sorted string_le (labels l).
Proof. apply (Sorted_merge_sort string_le). Qed.

Lemma labels_NoDup (l : list string) : NoDup (labels l).
Proof.
  unfold labels. rewrite merge_sort_Permutation. apply NoDup_remove_dups.
Qed.

(** The sorted distinct labels depend on the set of values only. *)
Lemma labels_ext (l k : list string) :
  (forall x, x ∈ l <-> x ∈ k) -> labels l = labels k.
Proof.
  intros Hext. apply (Sorted_unique string_le); try apply labels_sorted.
  apply NoDup_Permutation; try apply labels_NoDup.
  intros x. rewrite !AgreementFacts.labels_elem. apply Hext.
Qed.

End StringOrder.

Module ReportFacts.
Import WinRate WinRateFacts Agreement AgreementFacts Report StringOrder.

Lemma declared_beats (models : list string) (m1 m2 : string)
    (r : PairwiseRecord) :
  pw_model_a r ∈ models -> pw_model_b r ∈ models ->
  beats models m1 m2 r = declared_winner m1 m2 r.
Proof.
  intros Ha Hb. unfold beats, declared_winner.
  by rewrite !bool_decide_eq_true_2 by done.
Qed.

Lemma discover_models_elem (pairwise_df : list PairwiseRecord)
    (rubric_df : list RubricRecord) (m : string) :
  m ∈ discover_models pairwise_df rubric_df
  <-> (exists r, r ∈ pairwise_df /\ (pw_model_a r = m \/ pw_model_b r = m))
      \/ (exists r, r ∈ rubric_df /\ rb_model r = m).
Proof.
  unfold discover_models. rewrite labels_elem, !elem_of_app.
  change (map ?f ?l) with (f <$> l). rewrite !list_elem_of_fmap.
  split.
  - intros [(r & -> & Hr)|[(r & -> & Hr)|(r & -> & Hr)]]; eauto 6.
  - intros [(r & Hr & [<-|<-])|(r & Hr & <-)]; eauto 6.
Qed.

(** X9: the roster that [generate_report] discovers is in ascending order
    without repetition, and holds exactly the models that occur as
    [model_a] or [model_b] of a pairwise row or as [model] of a rubric
    row. *)
Theorem discovered_roster (pairwise_df : list PairwiseRecord)
    (rubric_df : list RubricRecord) :
  let models := discover_models pairwise_df rubric_df in
  NoDup models /\ Sorted string_le models
  /\ forall m : string,
       m ∈ models
       <-> (exists r, r ∈ pairwise_df
                      /\ (pw_model_a r = m \/ pw_model_b r = m))
           \/ (exists r, r ∈ rubric_df /\ rb_model r = m).
Proof.
  cbv zeta. split_and!.
  - apply labels_NoDup.
  - apply labels_sorted.
  - apply discover_models_elem.
Qed.

Lemma wins_declared (models : list string) (ldf : list PairwiseRecord)
    (m1 m2 : string) :
  Forall (fun r => pw_model_a r ∈ models /\ pw_model_b r ∈ models) ldf ->
  wins models ldf m1 m2 = count (declared_winner m1 m2) ldf.
Proof.
  unfold wins. induction 1 as [|r ldf [Ha Hb] _ IH]; cbn [count]; [done|].
  by rewrite IH, declared_beats.
Qed.

Lemma by_language_roster (lang : string) (pairwise_df : list PairwiseRecord)
    (rubric_df : list RubricRecord) :
  Forall (fun r => pw_model_a r ∈ discover_models pairwise_df rubric_df
                   /\ pw_model_b r ∈ discover_models pairwise_df rubric_df)
         (by_language lang pairwise_df).
Proof.
  apply Forall_forall. intros r Hr. unfold by_language in Hr.
  apply list_elem_of_filter in Hr as [_ Hr].
  split; apply discover_models_elem; left; eauto.
Qed.

(** X10: with the discovered roster the roster filter of
    [_compute_win_rates] removes nothing: the cell (m1, m2) of the table
    of a language is the number of rows of that language that declare m1
    the winner against m2, over the number of rows that declare either of
    the two the winner against the other; it is left empty when there is
    no such row. *)
Theorem language_table_cells (pairwise_df : list PairwiseRecord)
    (rubric_df : list RubricRecord) (lang m1 m2 : string) :
  let models := discover_models pairwise_df rubric_df in
  let ldf := by_language lang pairwise_df in
  m1 ∈ models -> m2 ∈ models -> m1 ≠ m2 ->
  _compute_win_rates ldf models !! (m1, m2)
  = let w := count (declared_winner m1 m2) ldf in
    let l := count (declared_winner m2 m1) ldf in
    if (0 <? w + l)%Z then Some (inject_Z w / inject_Z (w + l))%Q else None.
Proof.
  intros models ldf H1 H2 Hne.
  rewrite rates_lookup, decide_True by done.
  rewrite rate_cell_wins by done. cbv zeta.
  by rewrite !(wins_declared models ldf)
    by apply by_language_roster.
Qed.

Lemma language_table_cells_witness :
  _compute_win_rates (by_language "igala" sample_rows)
    (discover_models sample_rows []) !! ("x", "y")
  = Some (3 # 4)%Q.
Proof.
  rewrite (language_table_cells sample_rows [] "igala" "x" "y").
  - vm_compute. reflexivity.
  - by_decide.
  - by_decide.
  - discriminate.
Defined.

Lemma Zsum_zero {A} (f : A -> Z) (l : list A) :
  (forall x, x ∈ l -> f x = 0%Z) -> Zsum (map f l) = 0%Z.
Proof.
  induction l as [|a l IH]; intros Hz; simpl; [done|].
  rewrite Hz by left. rewrite IH; [done|]. intros x Hx. apply Hz. by right.
Qed.

(** The rows of a frame, split by a column whose values all occur once
    in [langs]. *)
Lemma count_split (p : PairwiseRecord -> bool) (langs : list string)
    (rows : list PairwiseRecord) :
  NoDup langs -> Forall (fun r => pw_language r ∈ langs) rows ->
  Zsum (map (fun lang => count p (by_language lang rows)) langs)
  = count p rows.
Proof.
  intros Hnd. induction 1 as [|r rows Hr _ IH].
  - apply Zsum_zero. intros lang _. done.
  - cbn [count]. rewrite <- IH. clear IH.
    induction Hnd as [|lang langs Hnot Hnd IH]; [by inversion Hr|].
    simpl. unfold by_language at 1 3. rewrite filter_cons.
    apply elem_of_cons in Hr as [Heq|Hr].
    + rewrite decide_True by done. cbn [count].
      assert (Hrest : map (fun lang0 =>
                             count p (by_language lang0 (r :: rows))) langs
                      = map (fun lang0 => count p (by_language lang0 rows))
                          langs).
      { apply map_ext_in. intros l0 Hl0%list_elem_of_In.
        unfold by_language. rewrite filter_cons, decide_False; [done|].
        intros Hl. apply Hnot. by rewrite <- Heq, Hl. }
      rewrite Hrest. lia.
    + rewrite decide_False; [|intros Hl; apply Hnot; by rewrite <- Hl].
      rewrite IH by done. lia.
Qed.

Lemma discover_languages_elem (pairwise_df : list PairwiseRecord)
    (rubric_df : list RubricRecord) :
  Forall (fun r => pw_language r ∈ discover_languages pairwise_df rubric_df)
         pairwise_df.
Proof.
  apply Forall_forall. intros r Hr. unfold discover_languages.
  rewrite labels_elem, elem_of_app. left.
  change (map ?f ?l) with (f <$> l). apply list_elem_of_fmap. eauto.
Qed.

Lemma by_language_nil (lang : string) (rows : list PairwiseRecord) :
  by_language lang rows = [] <-> lang ∉ map pw_language rows.
Proof.
  unfold by_language. induction rows as [|r rows IH].
  - split; [|done]. intros _ H. by inversion H.
  - cbn [map]. rewrite filter_cons, not_elem_of_cons. case_decide as Hl.
    + split; [done|]. intros [Hne _]. by destruct Hne.
    + rewrite IH. split; [|tauto]. intros Hn. split; [congruence|done].
Qed.

Lemma omap_cons {A B} (f : A -> option B) (x : A) (l : list A) :
  omap f (x :: l)
  = match f x with Some y => y :: omap f l | None => omap f l end.
Proof. done. Qed.

(** X11: the per-language tables of the report, for the roster and the
    languages that [generate_report] discovers.  There is one table per
    language that has pairwise rows, in ascending order of the languages,
    and the table of a language is computed from the rows of that language
    only; a language that only rubric rows have gets no table.  The tables
    split the pairwise frame: the wins of m1 over m2 counted in each
    language add up to the wins counted on the whole frame. *)
Theorem language_tables (pairwise_df : list PairwiseRecord)
    (rubric_df : list RubricRecord) (m1 m2 : string) :
  let models := discover_models pairwise_df rubric_df in
  let languages := discover_languages pairwise_df rubric_df in
  language_win_rates pairwise_df models languages
  = map (fun lang =>
           (lang, _compute_win_rates (by_language lang pairwise_df) models))
        (filter (fun lang => lang ∈ map pw_language pairwise_df) languages)
  /\ Zsum (map (fun lang =>
                  count_or_0 (win_counts (by_language lang pairwise_df)
                                models) m1 m2) languages)
     = count_or_0 (win_counts pairwise_df models) m1 m2.
Proof.
  intros models languages. split.
  - unfold language_win_rates. generalize languages. clear languages.
    intros languages.
    induction languages as [|lang languages IH]; [done|].
    rewrite filter_cons, omap_cons. case_decide as Hin.
    + destruct (by_language lang pairwise_df) eqn:E.
      * by apply by_language_nil in E.
      * cbn [map]. by rewrite <- IH, E.
    + apply by_language_nil in Hin. by rewrite Hin.
  - rewrite win_counts_wins. unfold wins.
    rewrite <- (count_split _ languages pairwise_df).
    + f_equal. apply map_ext. intros lang. by rewrite win_counts_wins.
    + apply labels_NoDup.
    + apply discover_languages_elem.
Qed.

End ReportFacts.

(** * Further properties of the agreement statistics *)

Module AgreementMore.
Import WinRate Agreement AgreementFacts PivotFacts StringOrder.

Lemma nunique_nil_lt (l : list string) : l = [] -> (nunique l <? 2)%nat = true.
Proof. by intros ->. Qed.

Lemma pivot_row_length (rows : list rating) (row : list (option Z)) :
  row ∈ pivot_table rows -> length row = nunique (map r_unit rows).
Proof.
  unfold pivot_table. intros (a & -> & _)%list_elem_of_fmap.
  change (?f <$> ?l) with (map f l). by rewrite length_map, labels_length.
Qed.

Lemma first_value_app (l1 l2 : list rating) (a u : string) :
  first_value (l1 ++ l2) a u
  = match first_value l1 a u with
    | Some v => Some v
    | None => first_value l2 a u
    end.
Proof.
  induction l1 as [|r l1 IH]; simpl; [done|].
  by destruct (String.eqb (r_annotator r) a && String.eqb (r_unit r) u).
Qed.

(** A second rating of the same unit by the same annotator leaves the
    pivot as it was. *)
Lemma pivot_repeated (s1 s2 s3 : list rating) (x x' : rating) :
  r_annotator x' = r_annotator x -> r_unit x' = r_unit x ->
  pivot_table (s1 ++ x :: s2 ++ x' :: s3) = pivot_table (s1 ++ x :: s2 ++ s3)
  /\ nunique (map r_annotator (s1 ++ x :: s2 ++ x' :: s3))
     = nunique (map r_annotator (s1 ++ x :: s2 ++ s3)).
Proof.
  intros Ha Hu.
  assert (Hann : labels (map r_annotator (s1 ++ x :: s2 ++ x' :: s3))
                 = labels (map r_annotator (s1 ++ x :: s2 ++ s3))).
  { apply labels_ext. intros y.
    rewrite !map_app, !map_cons, !map_app, !map_cons.
    rewrite !elem_of_app, !elem_of_cons, !elem_of_app, !elem_of_cons.
    rewrite Ha. tauto. }
  assert (Hunit : labels (map r_unit (s1 ++ x :: s2 ++ x' :: s3))
                  = labels (map r_unit (s1 ++ x :: s2 ++ s3))).
  { apply labels_ext. intros y.
    rewrite !map_app, !map_cons, !map_app, !map_cons.
    rewrite !elem_of_app, !elem_of_cons, !elem_of_app, !elem_of_cons.
    rewrite Hu. tauto. }
  split.
  - unfold pivot_table. rewrite Hann, Hunit.
    apply map_ext. intros a. apply map_ext. intros u.
    rewrite !first_value_app. destruct (first_value s1 a u); [done|].
    cbn [first_value].
    destruct (String.eqb (r_annotator x) a && String.eqb (r_unit x) u)
      eqn:E; [done|].
    rewrite !first_value_app. destruct (first_value s2 a u); [done|].
    cbn [first_value]. by rewrite Ha, Hu, E.
  - by rewrite <- !labels_length, Hann.
Qed.

(** With one rating per annotator and unit, the cell of a rating holds
    its value. *)
Lemma first_value_unique (rows : list rating) (r : rating) :
  NoDup (map (fun x => (r_annotator x, r_unit x)) rows) -> r ∈ rows ->
  first_value rows (r_annotator r) (r_unit r) = Some (r_value r).
Proof.
  induction rows as [|x rows IH]; intros Hnd Hr; [by inversion Hr|].
  cbn [map] in Hnd. apply NoDup_cons in Hnd as [Hx Hnd]. simpl.
  apply elem_of_cons in Hr as [->|Hr].
  - by rewrite !String.eqb_refl.
  - destruct (String.eqb (r_annotator x) (r_annotator r)
              && String.eqb (r_unit x) (r_unit r)) eqn:E; [|by apply IH].
    apply andb_true_iff in E as [Ea Eu]. apply String.eqb_eq in Ea, Eu.
    destruct Hx. change (map ?f ?l) with (f <$> l).
    apply list_elem_of_fmap. exists r. by rewrite Ea, Eu.
Qed.

Lemma first_value_perm (rows rows' : list rating) (a u : string) :
  NoDup (map (fun x => (r_annotator x, r_unit x)) rows) ->
  rows ≡ₚ rows' -> first_value rows a u = first_value rows' a u.
Proof.
  intros Hnd Hperm.
  assert (Hnd' : NoDup (map (fun x => (r_annotator x, r_unit x)) rows')).
  { change (map ?f ?l) with (f <$> l) in *. by rewrite <- Hperm. }
  destruct (first_value rows a u) as [v|] eqn:E.
  - apply first_value_Some in E as (r & Hr & <- & <- & <-).
    symmetry. apply first_value_unique; [done|]. by rewrite <- Hperm.
  - destruct (first_value rows' a u) as [v|] eqn:E'; [|done].
    apply first_value_Some in E' as (r & Hr & <- & <- & <-).
    rewrite <- Hperm in Hr. apply first_value_is_Some in Hr.
    rewrite E in Hr. by destruct Hr.
Qed.

Lemma pivot_perm (rows rows' : list rating) :
  NoDup (map (fun x => (r_annotator x, r_unit x)) rows) ->
  rows ≡ₚ rows' ->
  pivot_table rows = pivot_table rows'
  /\ nunique (map r_annotator rows) = nunique (map r_annotator rows').
Proof.
  intros Hnd Hperm.
  assert (Hann : labels (map r_annotator rows)
                 = labels (map r_annotator rows')).
  { apply labels_ext. intros y. change (map ?f ?l) with (f <$> l).
    by rewrite Hperm. }
  assert (Hunit : labels (map r_unit rows) = labels (map r_unit rows')).
  { apply labels_ext. intros y. change (map ?f ?l) with (f <$> l).
    by rewrite Hperm. }
  split.
  - unfold pivot_table. rewrite Hann, Hunit.
    apply map_ext. intros a. apply map_ext. intros u.
    by apply first_value_perm.
  - by rewrite <- !labels_length, Hann.
Qed.

Section AnyLibrary.
Context `{Krippendorff}.

Lemma rubric_alpha_by_annotators (rubric_df : list RubricRecord)
    (d : dimension) :
  _krippendorff_alpha_rubric rubric_df d
  = if (nunique (map r_annotator (rubric_subset rubric_df d)) <? 2)%nat
    then None
    else krippendorff_alpha (pivot_table (rubric_subset rubric_df d)) ordinal.
Proof.
  unfold _krippendorff_alpha_rubric. cbv zeta.
  case_bool_decide as Hnil; [by rewrite Hnil|].
  rewrite pivot_length.
  by destruct (nunique (map r_annotator (rubric_subset rubric_df d)) <? 2)%nat.
Qed.

Lemma pairwise_alpha_by_annotators (pairwise_df : list PairwiseRecord) :
  _krippendorff_alpha_pairwise pairwise_df
  = if (nunique (map r_annotator (pairwise_coded pairwise_df)) <? 2)%nat
    then None
    else krippendorff_alpha (pivot_table (pairwise_coded pairwise_df)) nominal.
Proof.
  rewrite pairwise_alpha_coded. cbv zeta.
  case_bool_decide as Hnil; [by rewrite Hnil|].
  by rewrite pivot_length.
Qed.

(** X12: of the three guards of [_krippendorff_alpha_rubric] only the
    count of annotators decides: the coefficient is undefined exactly
    when fewer than two annotators scored the dimension or the library
    gives no value, and the matrix handed to the library has one row per
    such annotator and one column per scored unit. *)
Theorem rubric_alpha_guards (rubric_df : list RubricRecord) (d : dimension) :
  let subset := rubric_subset rubric_df d in
  _krippendorff_alpha_rubric rubric_df d
  = (if (nunique (map r_annotator subset) <? 2)%nat then None
     else krippendorff_alpha (pivot_table subset) ordinal)
  /\ length (pivot_table subset) = nunique (map r_annotator subset)
  /\ Forall (fun row => length row = nunique (map r_unit subset))
            (pivot_table subset).
Proof.
  cbv zeta. split_and!.
  - apply rubric_alpha_by_annotators.
  - apply pivot_length.
  - apply Forall_forall. intros row. apply pivot_row_length.
Qed.

(** X13: the four guards of [_krippendorff_alpha_pairwise] amount to one:
    the coefficient is undefined exactly when fewer than two annotators
    gave a winner with a code (a, b or tie) or the library gives no
    value; annotators who only gave other labels do not count. *)
Theorem pairwise_alpha_guards (pairwise_df : list PairwiseRecord) :
  let df := pairwise_coded pairwise_df in
  _krippendorff_alpha_pairwise pairwise_df
  = (if (nunique (map r_annotator df) <? 2)%nat then None
     else krippendorff_alpha (pivot_table df) nominal)
  /\ length (pivot_table df) = nunique (map r_annotator df).
Proof.
  cbv zeta. split; [|apply pivot_length].
  apply pairwise_alpha_by_annotators.
Qed.

Lemma rubric_alpha_of_subset (l l' : list RubricRecord) (d : dimension) :
  pivot_table (rubric_subset l d) = pivot_table (rubric_subset l' d) ->
  nunique (map r_annotator (rubric_subset l d))
  = nunique (map r_annotator (rubric_subset l' d)) ->
  _krippendorff_alpha_rubric l d = _krippendorff_alpha_rubric l' d.
Proof.
  intros Hp Hn. rewrite !rubric_alpha_by_annotators. by rewrite Hp, Hn.
Qed.

Lemma pairwise_alpha_of_coded (l l' : list PairwiseRecord) :
  pivot_table (pairwise_coded l) = pivot_table (pairwise_coded l') ->
  nunique (map r_annotator (pairwise_coded l))
  = nunique (map r_annotator (pairwise_coded l')) ->
  _krippendorff_alpha_pairwise l = _krippendorff_alpha_pairwise l'.
Proof.
  intros Hp Hn. rewrite !pairwise_alpha_by_annotators. by rewrite Hp, Hn.
Qed.

(** X14: [aggfunc="first"]: when an annotator scored the same response
    twice, the later score is ignored, whatever it is, and the
    coefficient is that of the frame without the later record. *)
Theorem repeated_rating_ignored (l1 l2 l3 : list RubricRecord)
    (r r' : RubricRecord) (d : dimension) :
  rb_prompt_id r' = rb_prompt_id r -> rb_model r' = rb_model r ->
  rb_annotator_id r' = rb_annotator_id r ->
  is_Some (rb_scores r d) ->
  _krippendorff_alpha_rubric (l1 ++ r :: l2 ++ r' :: l3) d
  = _krippendorff_alpha_rubric (l1 ++ r :: l2 ++ l3) d.
Proof.
  intros Hp Hm Ha [v Hv].
  assert (Hsub : forall tail,
            rubric_subset (l1 ++ r :: l2 ++ tail) d
            = (rubric_subset l1 d
               ++ {| r_annotator := rb_annotator_id r;
                     r_unit := rb_prompt_id r ++ "|" ++ rb_model r;
                     r_value := v |}
               :: rubric_subset l2 d ++ rubric_subset tail d)%list).
  { intros tail. unfold rubric_subset.
    rewrite omap_app, ReportFacts.omap_cons, omap_app. by rewrite Hv. }
  assert (Htail : rubric_subset (r' :: l3) d
                  = match rb_scores r' d with
                    | Some v' =>
                        {| r_annotator := rb_annotator_id r;
                           r_unit := rb_prompt_id r ++ "|" ++ rb_model r;
                           r_value := v' |} :: rubric_subset l3 d
                    | None => rubric_subset l3 d
                    end).
  { unfold rubric_subset. rewrite ReportFacts.omap_cons.
    rewrite Hp, Hm, Ha. by destruct (rb_scores r' d). }
  apply rubric_alpha_of_subset; rewrite !Hsub, Htail;
    destruct (rb_scores r' d); try done; by apply pivot_repeated.
Qed.

(** X15: the pairwise coefficient does not depend on the order of the
    rows, as long as no annotator judged the same matchup twice. *)
Theorem pairwise_alpha_order_independent
    (pairwise_df pairwise_df' : list PairwiseRecord) :
  NoDup (map (fun x => (r_annotator x, r_unit x))
             (pairwise_coded pairwise_df)) ->
  pairwise_df ≡ₚ pairwise_df' ->
  _krippendorff_alpha_pairwise pairwise_df
  = _krippendorff_alpha_pairwise pairwise_df'.
Proof.
  intros Hnd Hperm.
  assert (Hc : pairwise_coded pairwise_df ≡ₚ pairwise_coded pairwise_df').
  { unfold pairwise_coded. by rewrite Hperm. }
  destruct (pivot_perm _ _ Hnd Hc) as [Hp Hn].
  by apply pairwise_alpha_of_coded.
Qed.

(** X16: the coefficient of a dimension reads the identifiers and the
    scores of that dimension only: frames that agree on them, row by row,
    have the same coefficient, whatever the other scores are. *)
Theorem rubric_alpha_per_dimension (rubric_df rubric_df' : list RubricRecord)
    (d : dimension) :
  Forall2 (fun r r' =>
             rb_prompt_id r = rb_prompt_id r' /\ rb_model r = rb_model r'
             /\ rb_annotator_id r = rb_annotator_id r'
             /\ rb_scores r d = rb_scores r' d) rubric_df rubric_df' ->
  _krippendorff_alpha_rubric rubric_df d
  = _krippendorff_alpha_rubric rubric_df' d.
Proof.
  intros Hsame.
  assert (Hsub : rubric_subset rubric_df d = rubric_subset rubric_df' d).
  { unfold rubric_subset.
    induction Hsame as [|r r' l l' (Hp & Hm & Ha & Hs) _ IH]; [done|].
    rewrite !ReportFacts.omap_cons, IH, Hp, Hm, Ha, Hs. done. }
  apply rubric_alpha_of_subset; by rewrite Hsub.
Qed.

End AnyLibrary.

Lemma repeated_rating_ignored_witness :
  @_krippendorff_alpha_rubric SpecAlpha.spec_krippendorff
    ([] ++ Samples.sample_rubric "ig_001" "x" "ann1" (Some 4%Z)
        :: [Samples.sample_rubric "ig_001" "x" "ann2" (Some 4%Z)]
        ++ Samples.sample_rubric "ig_001" "x" "ann1" (Some 1%Z) :: [])
    cultural_accuracy
  = @_krippendorff_alpha_rubric SpecAlpha.spec_krippendorff
      ([] ++ Samples.sample_rubric "ig_001" "x" "ann1" (Some 4%Z)
          :: [Samples.sample_rubric "ig_001" "x" "ann2" (Some 4%Z)] ++ [])
      cultural_accuracy.
Proof.
  apply (@repeated_rating_ignored SpecAlpha.spec_krippendorff);
    [reflexivity|reflexivity|reflexivity|by exists 4%Z].
Defined.

Lemma pairwise_alpha_order_independent_witness :
  @_krippendorff_alpha_pairwise SpecAlpha.spec_krippendorff
    Samples.pairwise_agree
  = @_krippendorff_alpha_pairwise SpecAlpha.spec_krippendorff
      (rev Samples.pairwise_agree).
Proof.
  apply (@pairwise_alpha_order_independent SpecAlpha.spec_krippendorff).
  - by_decide.
  - apply Permutation_rev.
Defined.

Lemma rubric_alpha_per_dimension_witness :
  @_krippendorff_alpha_rubric SpecAlpha.spec_krippendorff
    [Samples.sample_rubric "ig_001" "x" "ann1" (Some 4%Z);
     Samples.sample_rubric "ig_001" "x" "ann2" (Some 4%Z)] creative_depth
  = @_krippendorff_alpha_rubric SpecAlpha.spec_krippendorff
      [Samples.sample_rubric "ig_001" "x" "ann1" (Some 2%Z);
       Samples.sample_rubric "ig_001" "x" "ann2" None] creative_depth.
Proof.
  apply (@rubric_alpha_per_dimension SpecAlpha.spec_krippendorff).
  repeat constructor.
Defined.

End AgreementMore.

(** * Further properties of the bootstrap *)

Module BootstrapMore.
Import Bootstrap BootstrapFacts.

Lemma Qtotal_app (l1 l2 : list Q) :
  (Qtotal (l1 ++ l2) == Qtotal l1 + Qtotal l2)%Q.
Proof.
  induction l1 as [|x l1 IH]; simpl; [ring|]. rewrite IH. ring.
Qed.

Lemma Qtotal_replicate (n : nat) (q : Q) :
  (Qtotal (replicate n q) == inject_Z (Z.of_nat n) * q)%Q.
Proof.
  induction n as [|n IH]; [simpl; ring|].
  cbn [replicate Qtotal]. rewrite IH, Nat2Z.inj_succ. unfold Z.succ.
  rewrite inject_Z_plus. ring.
Qed.

Lemma outcomes_length (wins total : Z) :
  (0 <= wins <= total)%Z -> length (outcomes wins total) = Z.to_nat total.
Proof.
  intros Hw. unfold outcomes. rewrite length_app, !length_replicate. lia.
Qed.

Lemma outcomes_total (wins total : Z) :
  (0 <= wins <= total)%Z -> (Qtotal (outcomes wins total) == inject_Z wins)%Q.
Proof.
  intros Hw. unfold outcomes.
  rewrite Qtotal_app, !Qtotal_replicate, Z2Nat.id by lia. ring.
Qed.

Lemma outcomes_mean (wins total : Z) :
  (0 <= wins <= total)%Z ->
  (mean (outcomes wins total) == inject_Z wins / inject_Z total)%Q.
Proof.
  intros Hw. unfold mean.
  rewrite outcomes_length, outcomes_total, Z2Nat.id by lia. reflexivity.
Qed.

Section WithNumpy.
Context `{NumpyRandom} `{NumpyPercentile}.

(** X17: for tallies with 0 <= wins <= total the proportion bootstrap is
    the mean bootstrap of the array of [wins] ones and [total - wins]
    zeros: the same bounds (as numbers) and the same resamples drawn. *)
Theorem proportion_is_mean_bootstrap (wins total : Z) (n_boot : nat)
    (ci : Q) (w : World) :
  (0 <= wins <= total)%Z ->
  let '(lo, hi, w1) := _bootstrap_ci_proportion wins total n_boot ci w in
  let '(lo', hi', w2) := _bootstrap_ci (outcomes wins total) n_boot ci w in
  (lo == lo')%Q /\ (hi == hi')%Q /\ w1 = w2.
Proof.
  intros Hw. unfold _bootstrap_ci_proportion, _bootstrap_ci.
  pose proof (outcomes_length wins total Hw) as Hlen. rewrite Hlen.
  destruct (total <? 2)%Z eqn:Ht.
  - apply Z.ltb_lt in Ht.
    assert (Hn : (Z.to_nat total <? 2)%nat = true) by (apply Nat.ltb_lt; lia).
    rewrite Hn. unfold ret.
    destruct (total =? 0)%Z eqn:Hz.
    + apply Z.eqb_eq in Hz. subst total.
      assert (wins = 0%Z) as -> by lia. simpl. done.
    + apply Z.eqb_neq in Hz.
      assert (Hm : (mean (outcomes wins total)
                    == inject_Z wins / inject_Z total)%Q)
        by by apply outcomes_mean.
      destruct (outcomes wins total) as [|v vs] eqn:E.
      { simpl in Hlen. lia. }
      by rewrite Hm.
  - apply Z.ltb_ge in Ht.
    assert (Hn : (Z.to_nat total <? 2)%nat = false) by (apply Nat.ltb_ge; lia).
    rewrite Hn. unfold bind.
    destruct (default_rng (Some 42%Z) w) as [rng w0].
    destruct (resample_means n_boot rng (outcomes wins total) w0)
      as [props w1].
    unfold ret. destruct (percentile_interval props ci). done.
Qed.

(** X18: with two or more observations either function draws exactly
    [n_boot] resamples, and in no case does it take entropy from the
    operating system. *)
Theorem bootstrap_draws (values : list Q) (wins total : Z) (n_boot : nat)
    (ci : Q) (w : World) :
  (2 <= length values ->
   snd (_bootstrap_ci values n_boot ci w)
   = {| os_entropy := os_entropy w; resamples := resamples w + n_boot |})
  /\ ((2 <= total)%Z ->
      snd (_bootstrap_ci_proportion wins total n_boot ci w)
      = {| os_entropy := os_entropy w; resamples := resamples w + n_boot |})
  /\ os_entropy (snd (_bootstrap_ci values n_boot ci w)) = os_entropy w
  /\ os_entropy (snd (_bootstrap_ci_proportion wins total n_boot ci w))
     = os_entropy w.
Proof.
  assert (Hrun : forall vs : list Q,
            snd (bind (default_rng (Some 42%Z))
                   (fun rng => bind (resample_means n_boot rng vs)
                      (fun means => ret (percentile_interval means ci))) w)
            = {| os_entropy := os_entropy w;
                 resamples := resamples w + n_boot |}).
  { intros vs. unfold bind, default_rng, ret.
    pose proof (resample_means_world n_boot vs (seeded 42) w) as Hw.
    by destruct (resample_means n_boot (seeded 42) vs w) as [m w']. }
  split_and!.
  - intros Hlen. unfold _bootstrap_ci.
    apply Nat.ltb_ge in Hlen. rewrite Hlen. apply Hrun.
  - intros Ht. unfold _bootstrap_ci_proportion.
    apply Z.ltb_ge in Ht. rewrite Ht. apply Hrun.
  - unfold _bootstrap_ci. destruct (_ <? 2)%nat; [done|]. by rewrite Hrun.
  - unfold _bootstrap_ci_proportion. destruct (_ <? 2)%Z; [done|].
    by rewrite Hrun.
Qed.

End WithNumpy.

(** X19: for tallies with 0 <= wins <= total the array that the
    proportion bootstrap resamples has [total] entries, and its mean is
    the proportion wins/total. *)
Theorem outcome_array (wins total : Z) :
  (0 <= wins <= total)%Z ->
  length (outcomes wins total) = Z.to_nat total
  /\ (mean (outcomes wins total) == inject_Z wins / inject_Z total)%Q
  /\ Forall (fun v => v = 1%Q \/ v = 0%Q) (outcomes wins total).
Proof.
  intros Hw. split_and!.
  - by apply outcomes_length.
  - by apply outcomes_mean.
  - unfold outcomes. apply Forall_app. split.
    + apply Forall_forall. intros v Hv%elem_of_replicate. left. apply Hv.
    + apply Forall_forall. intros v Hv%elem_of_replicate. right. apply Hv.
Qed.

Lemma outcome_array_witness :
  length (outcomes 3 5) = Z.to_nat 5
  /\ (mean (outcomes 3 5) == inject_Z 3 / inject_Z 5)%Q
  /\ Forall (fun v => v = 1%Q \/ v = 0%Q) (outcomes 3 5).
Proof. apply (outcome_array 3 5). lia. Defined.

End BootstrapMore.

Module BootstrapMoreExamples.
Import Bootstrap BootstrapMore ToyNumpy.

Lemma proportion_is_mean_bootstrap_witness :
  let w := {| os_entropy := [7%Z]; resamples := 0 |} in
  let '(lo, hi, w1) := _bootstrap_ci_proportion 3 5 20 (95 # 100) w in
  let '(lo', hi', w2) := _bootstrap_ci (outcomes 3 5) 20 (95 # 100) w in
  (lo == lo')%Q /\ (hi == hi')%Q /\ w1 = w2.
Proof.
  intros w. apply (proportion_is_mean_bootstrap 3 5 20 (95 # 100) w). lia.
Defined.

Lemma bootstrap_draws_witness :
  let w := {| os_entropy := [7%Z]; resamples := 0 |} in
  snd (_bootstrap_ci [1; 2; 3]%Q 20 (95 # 100) w)
  = {| os_entropy := os_entropy w; resamples := resamples w + 20 |}.
Proof.
  intros w.
  apply (proj1 (bootstrap_draws [1; 2; 3]%Q 3 5 20 (95 # 100) w)).
  simpl. lia.
Defined.

End BootstrapMoreExamples.

(** * Further properties of the record normaliser *)

Module NormalizerMore.
Import Normalizer NormalizerFacts.

Lemma before_underscore_whole (s : string) :
  before_underscore s = s \/ exists rest, s = before_underscore s ++ "_" ++ rest.
Proof.
  induction s as [|c s IH]; simpl; [by left|].
  destruct (Ascii.eqb c "_"%char) eqn:E.
  - apply Ascii.eqb_eq in E as ->. right. by exists s.
  - destruct IH as [->|[rest Hrest]]; [by left|].
    right. exists rest.
    change (String c s = String c (before_underscore s ++ "_" ++ rest)).
    by f_equal.
Qed.

Lemma before_underscore_app (p rest : string) :
  before_underscore p = p ->
  before_underscore (p ++ "_" ++ rest) = p.
Proof.
  induction p as [|c p IH]; simpl; [done|].
  destruct (Ascii.eqb c "_"%char); [done|].
  intros [= Hp]. by rewrite IH.
Qed.

Lemma before_underscore_is (s p : string) :
  before_underscore p = p ->
  before_underscore s = p <-> s = p \/ exists rest, s = p ++ "_" ++ rest.
Proof.
  intros Hp. split.
  - intros <-. destruct (before_underscore_whole s) as [Hs|Hs]; eauto.
  - intros [->|[rest ->]]; [done|]. by apply before_underscore_app.
Qed.

(** X20: where the language and the category of a prompt id come from:
    an entry of the metadata decides both, whatever the id looks like;
    without an entry the category is unknown and the language follows
    the part of the id before its first underscore, which must be ig or
    la in lower case. *)
Theorem language_and_category_sources (pid : string)
    (prompt_meta : gmap string prompt_info) :
  (forall info, prompt_meta !! pid = Some info ->
     _language_for_prompt (JStr pid) prompt_meta = inr (language info)
     /\ _category_for_prompt (JStr pid) prompt_meta = inr (category info))
  /\ (prompt_meta !! pid = None ->
      _category_for_prompt (JStr pid) prompt_meta = inr "unknown"
      /\ exists lang,
           _language_for_prompt (JStr pid) prompt_meta = inr lang
           /\ (lang = "igala"
               <-> pid = "ig" \/ exists rest, pid = "ig_" ++ rest)
           /\ (lang = "lebanese_arabic"
               <-> pid = "la" \/ exists rest, pid = "la_" ++ rest)
           /\ (lang = "igala" \/ lang = "lebanese_arabic"
               \/ lang = "unknown")).
Proof.
  split.
  - intros info Hinfo. simpl. by rewrite Hinfo.
  - intros Hnone. simpl. rewrite Hnone. split; [done|].
    eexists. split; [reflexivity|].
    rewrite <- (before_underscore_is pid "ig") by done.
    rewrite <- (before_underscore_is pid "la") by done.
    destruct (String.eqb (before_underscore pid) "ig") eqn:Eig.
    { apply String.eqb_eq in Eig. rewrite Eig. split_and!; try done.
      by left. }
    destruct (String.eqb (before_underscore pid) "la") eqn:Ela.
    { apply String.eqb_eq in Ela. rewrite Ela. split_and!; try done.
      right. by left. }
    apply String.eqb_neq in Eig, Ela. split_and!; try done.
    right. by right.
Qed.

Lemma language_and_category_sources_witness :
  _category_for_prompt (JStr "ig_001") ∅ = inr "unknown"
  /\ exists lang,
       _language_for_prompt (JStr "ig_001") ∅ = inr lang
       /\ (lang = "igala"
           <-> "ig_001" = "ig" \/ exists rest, "ig_001" = "ig_" ++ rest)
       /\ (lang = "lebanese_arabic"
           <-> "ig_001" = "la" \/ exists rest, "ig_001" = "la_" ++ rest)
       /\ (lang = "igala" \/ lang = "lebanese_arabic" \/ lang = "unknown").
Proof.
  apply (proj2 (language_and_category_sources "ig_001" ∅)).
  apply lookup_empty.
Defined.

(** X21: the outcome of flattening one rubric object.  It succeeds
    exactly on an object that has prompt_id, model and annotator_id and
    whose scores, if present, are an object; the row then holds these
    three values, the timestamp or null, and for each dimension the score
    or null.  A value that is not an object raises [TypeError]; the first
    missing identifier raises [KeyError]; scores that are present and not
    an object raise [AttributeError]. *)
Theorem flatten_item_outcome (item : json) :
  match flatten_item item with
  | inr row =>
      exists fields scores,
        item = JObj fields
        /\ assoc "prompt_id" fields = Some (fr_prompt_id row)
        /\ assoc "model" fields = Some (fr_model row)
        /\ assoc "annotator_id" fields = Some (fr_annotator_id row)
        /\ fr_timestamp row = cell "timestamp" fields
        /\ default (JObj []) (assoc "scores" fields) = JObj scores
        /\ fr_cultural_accuracy row = cell "cultural_accuracy" scores
        /\ fr_linguistic_authenticity row
           = cell "linguistic_authenticity" scores
        /\ fr_creative_depth row = cell "creative_depth" scores
        /\ fr_factual_correctness row = cell "factual_correctness" scores
  | inl (KeyError key) =>
      exists fields,
        item = JObj fields /\ assoc key fields = None
        /\ (key = "prompt_id"
            \/ (key = "model" /\ is_Some (assoc "prompt_id" fields))
            \/ (key = "annotator_id" /\ is_Some (assoc "prompt_id" fields)
                /\ is_Some (assoc "model" fields)))
  | inl TypeError => forall fields, item ≠ JObj fields
  | inl AttributeError =>
      exists fields v,
        item = JObj fields /\ assoc "scores" fields = Some v
        /\ (forall scores, v ≠ JObj scores)
        /\ is_Some (assoc "prompt_id" fields)
        /\ is_Some (assoc "model" fields)
        /\ is_Some (assoc "annotator_id" fields)
  end.
Proof.
  destruct item as [| | | | | |fields]; try done.
  unfold flatten_item, getitem, get, cell.
  destruct (assoc "prompt_id" fields) as [p|] eqn:Hp; cbn [bindE];
    [|exists fields; by eauto].
  destruct (assoc "model" fields) as [m|] eqn:Hm; cbn [bindE];
    [|exists fields; rewrite Hp; by eauto 6].
  destruct (assoc "annotator_id" fields) as [a|] eqn:Ha; cbn [bindE];
    [|exists fields; rewrite Hp, Hm; by eauto 8].
  destruct (assoc "timestamp" fields) as [t|] eqn:Ht; cbn [bindE];
    (destruct (assoc "scores" fields) as [v|] eqn:Hs; cbn [bindE];
     [destruct v as [| | | | | |scores]; cbn [bindE];
      try (exists fields; eexists; rewrite Hp, Hm, Ha;
           split_and!; eauto; done)|]).
  all: unfold dimension_name.
  - destruct (assoc "cultural_accuracy" scores) eqn:E1,
      (assoc "linguistic_authenticity" scores) eqn:E2,
      (assoc "creative_depth" scores) eqn:E3,
      (assoc "factual_correctness" scores) eqn:E4; cbn [bindE];
      exists fields, scores; by rewrite Hp, Hm, Ha, Ht, Hs, E1, E2, E3, E4.
  - cbn. exists fields, []. by rewrite Hp, Hm, Ha, Ht, Hs.
  - destruct (assoc "cultural_accuracy" scores) eqn:E1,
      (assoc "linguistic_authenticity" scores) eqn:E2,
      (assoc "creative_depth" scores) eqn:E3,
      (assoc "factual_correctness" scores) eqn:E4; cbn [bindE];
      exists fields, scores; by rewrite Hp, Hm, Ha, Ht, Hs, E1, E2, E3, E4.
  - cbn. exists fields, []. by rewrite Hp, Hm, Ha, Ht, Hs.
Qed.

Lemma traverse_length {A B} (f : A -> Exc B) (l : list A) :
  forall ys, traverse f l = inr ys -> length ys = length l.
Proof.
  induction l as [|x l IH]; simpl; intros ys.
  - by intros [= <-].
  - destruct (f x) as [e|y]; [done|]. cbn [bindE].
    destruct (traverse f l) as [e|ys']; [done|]. cbn [bindE].
    intros [= <-]. simpl. by rewrite (IH ys').
Qed.

Lemma enrich_length prompt_meta (ids : list json) (langs cats : list string) :
  enrich prompt_meta ids = inr (langs, cats) ->
  length langs = length ids /\ length cats = length ids.
Proof.
  unfold enrich.
  destruct (traverse _ ids) as [e|ls] eqn:Hl; [done|]. cbn [bindE].
  destruct (traverse _ ids) as [e|cs] eqn:Hc in |- *; [done|]. cbn [bindE].
  intros [= <- <-]. split; eapply traverse_length; eauto.
Qed.

(** X22: whenever the frames are built, each has one row per raw object,
    in the order of the input, and one language and one category per
    row; only a pairwise input whose objects are all empty gets no
    language and no category column. *)
Theorem frames_aligned (prompt_meta : gmap string prompt_info)
    (pairwise_raw : list (list (string * json))) (rubric_raw : list json)
    (frames : Frames) :
  build_frames prompt_meta pairwise_raw rubric_raw = inr frames ->
  pairwise_rows frames = map pairwise_row pairwise_raw
  /\ traverse flatten_item rubric_raw = inr (rubric_rows frames)
  /\ length (rubric_rows frames) = length rubric_raw
  /\ length (rubric_meta frames).1 = length rubric_raw
  /\ length (rubric_meta frames).2 = length rubric_raw
  /\ (if frame_empty pairwise_raw then pairwise_meta frames = ([], [])
      else length (pairwise_meta frames).1 = length pairwise_raw
           /\ length (pairwise_meta frames).2 = length pairwise_raw).
Proof.
  unfold build_frames. cbv zeta.
  destruct (traverse flatten_item rubric_raw) as [e|flat] eqn:Hflat; [done|].
  rewrite bindE_inr. pose proof (traverse_length _ _ _ Hflat) as Hlen.
  destruct (frame_empty pairwise_raw) eqn:Hempty.
  - rewrite bindE_inr.
    destruct flat as [|row flat].
    + rewrite bindE_inr. intros [= <-]. simpl in *. by rewrite <- Hlen.
    + destruct (enrich prompt_meta _) as [e|[langs cats]] eqn:Hrb; [done|].
      rewrite bindE_inr. intros [= <-]. simpl.
      apply enrich_length in Hrb as [Hl Hc]. rewrite length_map in Hl, Hc.
      simpl in *. by rewrite Hl, Hc, Hlen.
  - unfold column.
    destruct (existsb _ pairwise_raw); [|done]. rewrite bindE_inr.
    destruct (enrich prompt_meta (map fp_prompt_id _))
      as [e|[pl pc]] eqn:Hpw; [done|].
    rewrite bindE_inr. apply enrich_length in Hpw as [Hpl Hpc].
    rewrite !length_map in Hpl, Hpc.
    destruct flat as [|row flat].
    + rewrite bindE_inr. intros [= <-]. simpl in *. by rewrite <- Hlen.
    + destruct (enrich prompt_meta _) as [e|[langs cats]] eqn:Hrb; [done|].
      rewrite bindE_inr. intros [= <-]. simpl.
      apply enrich_length in Hrb as [Hl Hc]. rewrite length_map in Hl, Hc.
      simpl in *. by rewrite Hl, Hc, Hlen.
Qed.

Lemma frames_aligned_witness :
  exists frames,
    build_frames ∅ Samples.raw_pairwise Samples.raw_rubric = inr frames
    /\ length (rubric_meta frames).1 = length Samples.raw_rubric.
Proof.
  eexists. split; [vm_compute; reflexivity|].
  refine (proj1 (proj2 (proj2 (proj2
            (frames_aligned ∅ Samples.raw_pairwise Samples.raw_rubric _ _))))).
  vm_compute. reflexivity.
Defined.

Lemma traverse_first_error {A B} (f : A -> Exc B) (e : exn)
    (ok : A -> Prop) (l : list A) :
  (forall x, x ∈ l -> ok x \/ f x = inl e) ->
  (forall x, ok x -> exists y, f x = inr y) ->
  (exists x, x ∈ l /\ f x = inl e) ->
  traverse f l = inl e.
Proof.
  intros Hall Hok. induction l as [|x l IH]; intros (x0 & Hx0 & Hf).
  - by inversion Hx0.
  - simpl. destruct (Hall x) as [Hx|Hx]; [by left| |by rewrite Hx].
    destruct (Hok x Hx) as [y Hy]. rewrite Hy. cbn [bindE].
    rewrite IH; [done| |].
    + intros z Hz. apply Hall. by right.
    + apply elem_of_cons in Hx0 as [->|Hx0]; [|eauto].
      destruct (Hok x Hx) as [y' Hy']. congruence.
Qed.

(** X23: pairwise objects without their prompt_id.  When no object of a
    non-empty pairwise frame has the key, building the frames raises
    [KeyError] for prompt_id; when some objects have a string there and
    another object lacks the key, the missing cell has no [split] and
    building the frames raises [AttributeError]: the report is not
    produced in either case. *)
Theorem pairwise_without_prompt_id (prompt_meta : gmap string prompt_info)
    (pairwise_raw : list (list (string * json))) (rubric_raw : list json)
    (flat : list RubricRow) :
  traverse flatten_item rubric_raw = inr flat ->
  frame_empty pairwise_raw = false ->
  Forall (fun fields => assoc "prompt_id" fields = None
                        \/ exists s, assoc "prompt_id" fields = Some (JStr s))
         pairwise_raw ->
  (exists fields, fields ∈ pairwise_raw /\ assoc "prompt_id" fields = None) ->
  build_frames prompt_meta pairwise_raw rubric_raw
  = inl (if existsb (fun fields =>
                       bool_decide (is_Some (assoc "prompt_id" fields)))
                    pairwise_raw
         then AttributeError else KeyError "prompt_id").
Proof.
  intros Hflat Hne Hall (bad & Hbad & Hnone).
  unfold build_frames. cbv zeta. rewrite Hflat, bindE_inr, Hne.
  unfold column. destruct (existsb _ pairwise_raw); [|done].
  rewrite bindE_inr. unfold enrich.
  rewrite (traverse_first_error _ AttributeError
             (fun v => exists s, v = JStr s)); [done| | |].
  - intros v Hv. change (map ?f ?l) with (f <$> l) in Hv.
    apply list_elem_of_fmap in Hv as (row & -> & Hrow).
    apply list_elem_of_fmap in Hrow as (fields & -> & Hfields).
    rewrite Forall_forall in Hall.
    destruct (Hall fields Hfields) as [Hn|[s Hs]].
    + right. unfold pairwise_row, cell. simpl. by rewrite Hn.
    + left. exists s. unfold pairwise_row, cell. simpl. by rewrite Hs.
  - intros v [s ->]. apply language_of_string.
  - exists JNull. split; [|done].
    change (map ?f ?l) with (f <$> l).
    apply list_elem_of_fmap. exists (pairwise_row bad). split.
    + unfold pairwise_row, cell. simpl. by rewrite Hnone.
    + apply list_elem_of_fmap. eauto.
Qed.

Lemma pairwise_without_prompt_id_witness :
  build_frames ∅
    [[("prompt_id", JStr "ig_001"); ("winner", JStr "a")];
     [("winner", JStr "b")]] []
  = inl AttributeError.
Proof.
  apply (pairwise_without_prompt_id ∅
           [[("prompt_id", JStr "ig_001"); ("winner", JStr "a")];
            [("winner", JStr "b")]] [] []).
  - reflexivity.
  - reflexivity.
  - constructor; [right; by exists "ig_001"|].
    constructor; [by left|]. constructor.
  - exists [("winner", JStr "b")]. split; [|reflexivity].
    apply elem_of_cons. right. apply elem_of_cons. by left.
Defined.

End NormalizerMore.

(** * Prompt metadata and the run planner *)

Module MetadataFacts.
Import Normalizer Metadata.

Lemma find_app {A} (f : A -> bool) (l1 l2 : list A) :
  find f (l1 ++ l2)
  = match find f l1 with Some x => Some x | None => find f l2 end.
Proof.
  induction l1 as [|x l1 IH]; simpl; [done|]. by destruct (f x).
Qed.

Lemma fold_add_entry (entries : list ResultEntry) :
  forall (meta : gmap string prompt_info) (pid : string),
  fold_left add_entry entries meta !! pid
  = match meta !! pid with
    | Some info => Some info
    | None =>
        if String.eqb pid "" then None
        else entry_info
               <$> find (fun e => bool_decide (re_prompt_id e = Some pid))
                     entries
    end.
Proof.
  induction entries as [|e entries IH]; intros meta pid; cbn [fold_left find].
  - destruct (meta !! pid); [done|]. by destruct (String.eqb pid "").
  - rewrite IH. unfold add_entry at 1.
    destruct (String.eqb (default "" (re_prompt_id e)) "") eqn:Eq; simpl.
    + apply String.eqb_eq in Eq.
      destruct (meta !! pid) eqn:Hm; [done|].
      destruct (String.eqb pid "") eqn:Ep; [done|].
      apply String.eqb_neq in Ep.
      rewrite bool_decide_eq_false_2; [done|].
      intros He. rewrite He in Eq. simpl in Eq. congruence.
    + apply String.eqb_neq in Eq. case_bool_decide as Hq.
      * destruct (decide (default "" (re_prompt_id e) = pid)) as [<-|Hne].
        -- rewrite lookup_insert_eq, Hq.
           apply String.eqb_neq in Eq. rewrite Eq.
           destruct (re_prompt_id e) as [q|] eqn:Hid; simpl in *.
           ++ by rewrite bool_decide_eq_true_2.
           ++ done.
        -- rewrite lookup_insert_ne by done.
           destruct (meta !! pid); [done|].
           destruct (String.eqb pid ""); [done|].
           rewrite bool_decide_eq_false_2; [done|].
           intros He. rewrite He in Hne. by simpl in Hne.
      * destruct (meta !! pid) eqn:Hm; [done|].
        destruct (String.eqb pid ""); [done|].
        rewrite bool_decide_eq_false_2; [done|].
        intros He. rewrite He in Hq. simpl in Hq. congruence.
Qed.

(** X24: the fallback metadata keeps, for each prompt id, the first entry
    of the results file that carries it: later entries of the same id are
    ignored, entries without an id or with an empty one are skipped, and a
    missing category or language reads unknown. *)
Theorem results_metadata_first_wins (data : json)
    (meta : gmap string prompt_info) :
  _load_results_metadata data = Some meta ->
  exists entries,
    results_list data ≫= mapM read_entry = Some entries
    /\ meta !! "" = None
    /\ forall pid : string,
         pid ≠ "" ->
         meta !! pid
         = entry_info
             <$> find (fun e => bool_decide (re_prompt_id e = Some pid))
                   entries.
Proof.
  unfold _load_results_metadata.
  destruct (results_list data) as [items|]; [|done]. simpl.
  destruct (mapM read_entry items) as [entries|]; [|done]. simpl.
  intros [= <-]. exists entries. split_and!; [done| |].
  - by rewrite fold_add_entry, lookup_empty.
  - intros pid Hpid. rewrite fold_add_entry, lookup_empty.
    apply String.eqb_neq in Hpid. by rewrite Hpid.
Qed.

Lemma results_metadata_first_wins_witness :
  exists meta,
    _load_results_metadata
      (JArr [JObj [("prompt_id", JStr "ig_001"); ("language", JStr "igala")];
             JObj [("prompt_id", JStr "ig_001"); ("language", JStr "other")]])
    = Some meta
    /\ meta !! "ig_001"
       = Some {| category := "unknown"; language := "igala" |}.
Proof.
  eexists. split; [reflexivity|].
  destruct (results_metadata_first_wins
              (JArr [JObj [("prompt_id", JStr "ig_001");
                           ("language", JStr "igala")];
                     JObj [("prompt_id", JStr "ig_001");
                           ("language", JStr "other")]]) _ eq_refl)
    as (entries & Hentries & _ & Hfirst).
  injection Hentries as <-. by rewrite Hfirst.
Defined.

Lemma foldE_app {A B} (f : B -> A -> Exc B) (l1 l2 : list A) (b : B) :
  foldE f (l1 ++ l2) b = bindE (foldE f l1 b) (foldE f l2).
Proof.
  revert b. induction l1 as [|x l1 IH]; intros b; simpl; [done|].
  destruct (f b x) as [e|b']; simpl; [done|]. apply IH.
Qed.

Lemma fold_add_prompt (doc : Catalogue) (ps : list PromptEntry) :
  forall meta meta' : gmap string prompt_info,
  foldE (add_prompt doc) ps meta = inr meta' ->
  Forall (fun p => is_Some (pe_id p)) ps
  /\ forall id : string,
       meta' !! id
       = match find (fun dp : Catalogue * PromptEntry =>
                       bool_decide (pe_id dp.2 = Some id))
                    (rev (map (pair doc) ps)) with
         | Some dp => Some (prompt_entry_info dp.1 dp.2)
         | None => meta !! id
         end.
Proof.
  induction ps as [|p ps IH]; intros meta meta'; simpl.
  - intros [= <-]. by split.
  - unfold add_prompt at 1. destruct (pe_id p) as [i|] eqn:Hi; [|done].
    simpl. intros Hrest. apply IH in Hrest as [Hall Hlook]. split.
    + constructor; [by rewrite Hi|done].
    + intros id. rewrite Hlook, find_app.
      destruct (find _ (rev (map (pair doc) ps))); [done|].
      simpl. rewrite Hi. case_bool_decide as Hid.
      * injection Hid as ->. by rewrite lookup_insert_eq.
      * rewrite lookup_insert_ne; [done|]. congruence.
Qed.

Lemma fold_load_file (files : list catalogue_file) :
  forall meta meta' : gmap string prompt_info,
  foldE load_file files meta = inr meta' ->
  Forall (fun dp : Catalogue * PromptEntry => is_Some (pe_id dp.2))
         (catalogue_prompts files)
  /\ Forall (fun file : catalogue_file =>
               file.1 = "schema.yaml" \/ is_Some file.2) files
  /\ forall id : string,
       meta' !! id
       = match find (fun dp : Catalogue * PromptEntry =>
                       bool_decide (pe_id dp.2 = Some id))
                    (rev (catalogue_prompts files)) with
         | Some dp => Some (prompt_entry_info dp.1 dp.2)
         | None => meta !! id
         end.
Proof.
  induction files as [|[name content] files IH]; intros meta meta'.
  - simpl. intros [= <-]. by split_and!.
  - cbn [foldE]. unfold load_file at 1.
    change (catalogue_prompts ((name, content) :: files))
      with ((if String.eqb name "schema.yaml" then []
             else match content with
                  | Some doc => map (pair doc) (default [] (cat_prompts doc))
                  | None => []
                  end) ++ catalogue_prompts files)%list.
    simpl.
    destruct (String.eqb name "schema.yaml") eqn:Es.
    + simpl. intros Hrest. apply IH in Hrest as (Hids & Hfiles & Hlook).
      split_and!; [done| |done].
      constructor; [|done]. left. by apply String.eqb_eq.
    + destruct content as [doc|]; [|done].
      destruct (foldE (add_prompt doc) (default [] (cat_prompts doc)) meta)
        as [e|meta1] eqn:Hdoc; [done|].
      simpl. intros Hrest. apply IH in Hrest as (Hids & Hfiles & Hlook).
      apply fold_add_prompt in Hdoc as [Hdoc_ids Hdoc_look].
      split_and!.
      * apply Forall_app. split; [|done].
        apply Forall_forall. intros dp Hdp.
        change (map ?f ?l) with (f <$> l) in Hdp.
        apply list_elem_of_fmap in Hdp as (p & -> & Hp).
        rewrite Forall_forall in Hdoc_ids. by apply Hdoc_ids.
      * constructor; [|done]. right. by eexists.
      * intros id. rewrite Hlook, rev_app_distr, find_app.
        destruct (find _ (rev (catalogue_prompts files))); [done|].
        apply Hdoc_look.
Qed.

(** X25: the catalogue metadata keeps, for each prompt id, the last
    prompt that carries it, in the order of the files; its language is
    that of the catalogue when the catalogue declares one, else that of
    the prompt, else unknown.  The loader gives a result only if every
    prompt has an id and no file other than schema.yaml is empty. *)
Theorem prompt_metadata_last_wins (files : list catalogue_file)
    (meta : gmap string prompt_info) :
  _load_prompt_metadata files = inr meta ->
  Forall (fun dp : Catalogue * PromptEntry => is_Some (pe_id dp.2))
         (catalogue_prompts files)
  /\ Forall (fun file : catalogue_file =>
               file.1 = "schema.yaml" \/ is_Some file.2) files
  /\ forall id : string,
       meta !! id
       = (fun dp : Catalogue * PromptEntry => prompt_entry_info dp.1 dp.2)
           <$> find (fun dp => bool_decide (pe_id dp.2 = Some id))
                 (rev (catalogue_prompts files)).
Proof.
  intros Hload. apply fold_load_file in Hload as (Hids & Hfiles & Hlook).
  split_and!; [done|done|]. intros id. rewrite Hlook, lookup_empty.
  by destruct (find _ _).
Qed.

Lemma prompt_metadata_last_wins_witness :
  let files : list catalogue_file :=
    [("igala.yaml",
      Some {| cat_language := Some "igala";
              cat_prompts :=
                Some [{| pe_id := Some "ig_001"; pe_text := None;
                         pe_language := Some "ig";
                         pe_category := Some "real_world_use" |}] |});
     ("schema.yaml", None)] in
  exists meta,
    _load_prompt_metadata files = inr meta
    /\ meta !! "ig_001"
       = Some {| category := "real_world_use"; language := "igala" |}.
Proof.
  intros files. eexists. split; [reflexivity|].
  destruct (prompt_metadata_last_wins files _ eq_refl) as (_ & _ & Hlast).
  by rewrite Hlast.
Defined.

End MetadataFacts.

Module RunModelsFacts.
Import Normalizer Metadata RunModels MetadataFacts.

Lemma mapM_result_objects (results : list result) :
  mapM read_entry (map result_object results)
  = Some (map (fun r => {| re_prompt_id := Some (res_prompt_id r);
                           re_category := None; re_language := None |})
              results).
Proof.
  apply mapM_Some. induction results as [|r results IH]; simpl.
  - constructor.
  - constructor; [reflexivity|exact IH].
Qed.

(** X26: the fallback metadata read from a results file that
    [run_models.py] wrote is unknown throughout: the runner stores the
    language and the category of a prompt under prompt_language and
    prompt_category, and the report reads language and category.  Every
    prompt of the run so gets the language unknown, also one whose id
    starts with ig_ or la_, since an entry of the metadata overrides the
    prefix of the id. *)
Theorem run_results_give_unknown (run_id timestamp : string)
    (temperature : Q) (max_tokens : Z) (results : list result) :
  exists meta,
    _load_results_metadata
      (run_file run_id timestamp temperature max_tokens results) = Some meta
    /\ forall r, r ∈ results -> res_prompt_id r ≠ "" ->
         meta !! res_prompt_id r
         = Some {| category := "unknown"; language := "unknown" |}
         /\ _language_for_prompt (JStr (res_prompt_id r)) meta
            = inr "unknown"
         /\ _category_for_prompt (JStr (res_prompt_id r)) meta
            = inr "unknown".
Proof.
  eexists. split.
  - unfold _load_results_metadata, run_file. cbn [results_list assoc].
    simpl. rewrite mapM_result_objects. reflexivity.
  - intros r Hr Hid.
    assert (Hmeta : fold_left add_entry
                      (map (fun r => {| re_prompt_id := Some (res_prompt_id r);
                                        re_category := None;
                                        re_language := None |}) results) ∅
                    !! res_prompt_id r
                    = Some {| category := "unknown"; language := "unknown" |}).
    { rewrite fold_add_entry, lookup_empty.
      apply String.eqb_neq in Hid. rewrite Hid.
      destruct (find _ _) as [e|] eqn:Hfind.
      - apply find_some in Hfind as [He _].
        apply in_map_iff in He as (r' & <- & _). done.
      - exfalso.
        assert (Hin : In {| re_prompt_id := Some (res_prompt_id r);
                            re_category := None; re_language := None |}
                         (map (fun r =>
                                 {| re_prompt_id := Some (res_prompt_id r);
                                    re_category := None;
                                    re_language := None |}) results)).
        { apply in_map_iff. exists r. split; [reflexivity|].
          by apply list_elem_of_In. }
        pose proof (find_none _ _ Hfind _ Hin) as Hf. simpl in Hf.
        by rewrite bool_decide_eq_true_2 in Hf. }
    split; [exact Hmeta|]. simpl. by rewrite Hmeta.
Qed.

Lemma run_results_give_unknown_witness :
  exists meta,
    _load_results_metadata
      (run_file "run_20250101_000000" "2025-01-01T00:00:00+00:00"
         (7 # 10) 1024 sample_results) = Some meta
    /\ _language_for_prompt (JStr "ig_001") meta = inr "unknown".
Proof.
  destruct (run_results_give_unknown "run_20250101_000000"
              "2025-01-01T00:00:00+00:00" (7 # 10) 1024 sample_results)
    as (meta & Hmeta & Hall).
  exists meta. split; [exact Hmeta|].
  refine (proj1 (proj2 (Hall (_run_single sample_prompt "claude"
     {| mi_provider := anthropic;
        mi_model_id := "claude-sonnet-4-5-20250929" |}
     "2025-01-01T00:00:00+00:00" (inr ("out", 3, 4, 120)%Z)) _ _))).
  - apply elem_of_cons. by left.
  - discriminate.
Defined.

Lemma load_prompts_catalogue (files : list catalogue_file) :
  load_prompts files = map snd (catalogue_prompts files).
Proof.
  unfold load_prompts, catalogue_prompts.
  induction files as [|[name content] files IH]; [done|].
  cbn [flat_map]. rewrite map_app, IH. f_equal. simpl.
  destruct (String.eqb name "schema.yaml"); [done|].
  destruct content as [doc|]; [|done].
  rewrite map_map. simpl. by rewrite map_id.
Qed.

(** X27: the runner and the report read the same catalogues.  When
    the report loads the metadata, its keys are the ids of the prompts
    that the runner loads.  A file that is empty makes the two differ:
    the runner skips it, the report raises [AttributeError] on it. *)
Theorem catalogue_loaders_agree (files : list catalogue_file) :
  (forall meta : gmap string prompt_info,
     _load_prompt_metadata files = inr meta ->
     forall id : string,
       is_Some (meta !! id) <-> Some id ∈ map pe_id (load_prompts files))
  /\ (forall (name : string) (files1 files2 : list catalogue_file)
             (meta : gmap string prompt_info),
        files = (files1 ++ (name, None) :: files2)%list ->
        name ≠ "schema.yaml" ->
        _load_prompt_metadata files1 = inr meta ->
        _load_prompt_metadata files = inl AttributeError
        /\ load_prompts files = load_prompts (files1 ++ files2)).
Proof.
  split.
  - intros meta Hload id.
    apply fold_load_file in Hload as (_ & _ & Hlook).
    rewrite Hlook, lookup_empty, load_prompts_catalogue, map_map.
    change (map ?f ?l) with (f <$> l). rewrite list_elem_of_fmap.
    destruct (find _ _) as [dp|] eqn:Hfind; simpl.
    + apply find_some in Hfind as [Hdp Hid].
      apply bool_decide_eq_true_1 in Hid.
      split; [|by eauto]. intros _. exists dp. split; [done|].
      apply list_elem_of_In. by apply in_rev.
    + split; [by intros [? ?]|]. intros (dp & Hid & Hdp). exfalso.
      assert (Hin : In dp (rev (catalogue_prompts files))).
      { apply in_rev. rewrite rev_involutive. by apply list_elem_of_In. }
      pose proof (find_none _ _ Hfind _ Hin) as Hf. simpl in Hf.
      by rewrite bool_decide_eq_true_2 in Hf.
  - intros name files1 files2 meta -> Hname Hload. split.
    + unfold _load_prompt_metadata in *. rewrite foldE_app, Hload.
      simpl. unfold load_file at 1. simpl.
      apply String.eqb_neq in Hname. by rewrite Hname.
    + unfold load_prompts. rewrite !flat_map_app. f_equal. simpl.
      by destruct (String.eqb name "schema.yaml").
Qed.

Lemma catalogue_loaders_agree_witness :
  let doc := {| cat_language := Some "igala";
                cat_prompts :=
                  Some [{| pe_id := Some "ig_001"; pe_text := None;
                           pe_language := None; pe_category := None |}] |} in
  _load_prompt_metadata [("igala.yaml", Some doc); ("notes.yaml", None)]
  = inl AttributeError
  /\ load_prompts [("igala.yaml", Some doc); ("notes.yaml", None)]
     = load_prompts ([("igala.yaml", Some doc)] ++ []).
Proof.
  intros doc.
  apply (proj2 (catalogue_loaders_agree
                  [("igala.yaml", Some doc); ("notes.yaml", None)])
           "notes.yaml" [("igala.yaml", Some doc)] []
           (<["ig_001" := prompt_entry_info doc
                             {| pe_id := Some "ig_001"; pe_text := None;
                                pe_language := None;
                                pe_category := None |}]> ∅)).
  - reflexivity.
  - discriminate.
  - reflexivity.
Defined.

Lemma work_row_inr (p : prompt) (model_aliases : list string) :
  Forall (fun a => is_Some (registry_get MODEL_REGISTRY a)) model_aliases ->
  exists row : list task,
    traverse (fun alias =>
                bindE (model_of alias) (fun info => inr (p, alias, info)))
             model_aliases = inr row
    /\ map (fun t : task => t.1) row = map (pair p) model_aliases
    /\ Forall (fun t : task => registry_get MODEL_REGISTRY t.1.2 = Some t.2)
              row.
Proof.
  induction 1 as [|a aliases [info Ha] _ (row & Hrow & Hkeys & Hreg)]; simpl.
  - exists []. by split_and!.
  - exists ((p, a, info) :: row). unfold model_of at 1. rewrite Ha. simpl.
    rewrite Hrow. simpl. rewrite Hkeys. split_and!; [done|done|].
    by constructor.
Qed.

Lemma work_row_inl (p : prompt) (model_aliases : list string) (a : string) :
  a ∈ model_aliases -> registry_get MODEL_REGISTRY a = None ->
  exists a' : string,
    traverse (fun alias =>
                bindE (model_of alias) (fun info => inr (p, alias, info)))
             model_aliases = inl (KeyError a')
    /\ a' ∈ model_aliases /\ registry_get MODEL_REGISTRY a' = None.
Proof.
  intros Hin Hnone. induction model_aliases as [|b aliases IH];
    [by inversion Hin|]. simpl. unfold model_of at 1.
  destruct (registry_get MODEL_REGISTRY b) as [info|] eqn:Hb; simpl.
  - apply elem_of_cons in Hin as [->|Hin]; [congruence|].
    destruct (IH Hin) as (a' & -> & Ha' & Hnone'). simpl.
    exists a'. split_and!; [done|by right|done].
  - exists b. split_and!; [done|by left|done].
Qed.

(** X28: the work list of [run_all] pairs every prompt with every alias,
    prompt by prompt and alias by alias, each with the registry entry of
    its alias, which makes one task per pair.  An alias outside the
    registry (claude, chatgpt, gemini, gemma) raises [KeyError] as soon
    as there is a prompt. *)
Theorem work_list_pairs (prompts : list prompt)
    (model_aliases : list string) :
  (Forall (fun a => is_Some (registry_get MODEL_REGISTRY a)) model_aliases ->
   exists work : list task,
     work_list prompts model_aliases = inr work
     /\ map (fun t : task => t.1) work
        = flat_map (fun p => map (pair p) model_aliases) prompts
     /\ length work = length prompts * length model_aliases
     /\ Forall (fun t : task => registry_get MODEL_REGISTRY t.1.2 = Some t.2)
               work)
  /\ (forall a : string,
        a ∈ model_aliases -> registry_get MODEL_REGISTRY a = None ->
        prompts ≠ [] ->
        exists a' : string,
          work_list prompts model_aliases = inl (KeyError a')
          /\ a' ∈ model_aliases /\ registry_get MODEL_REGISTRY a' = None)
  /\ (forall a : string,
        is_Some (registry_get MODEL_REGISTRY a)
        <-> a ∈ ["claude"; "chatgpt"; "gemini"; "gemma"]).
Proof.
  split_and!.
  - intros Hreg. unfold work_list.
    assert (Hrows : exists rows : list (list task),
               traverse (fun p =>
                           traverse (fun alias =>
                                       bindE (model_of alias)
                                             (fun info => inr (p, alias, info)))
                                    model_aliases) prompts = inr rows
               /\ map (fun t : task => t.1) (concat rows)
                  = flat_map (fun p => map (pair p) model_aliases) prompts
               /\ length (concat rows)
                  = length prompts * length model_aliases
               /\ Forall (fun t : task =>
                            registry_get MODEL_REGISTRY t.1.2 = Some t.2)
                         (concat rows)).
    { induction prompts as [|p prompts (rows & Hrows & Hkeys & Hlen & Hall)].
      - exists []. by split_and!.
      - destruct (work_row_inr p model_aliases Hreg)
          as (row & Hrow & Hrk & Hrr).
        exists (row :: rows). cbn [traverse]. rewrite Hrow. simpl.
        rewrite Hrows. simpl. split_and!; [done| | |].
        + by rewrite map_app, Hrk, Hkeys.
        + rewrite length_app, Hlen.
          rewrite <- (length_map (fun t : task => t.1) row), Hrk, length_map.
          done.
        + by apply Forall_app. }
    destruct Hrows as (rows & -> & Hkeys & Hlen & Hall). simpl. eauto.
  - intros a Hin Hnone Hne. unfold work_list.
    destruct prompts as [|p prompts]; [done|]. cbn [traverse].
    destruct (work_row_inl p model_aliases a Hin Hnone)
      as (a' & -> & Ha' & Hnone').
    simpl. eauto.
  - intros a. split.
    + intros [info Ha]. unfold MODEL_REGISTRY in Ha.
      cbn [registry_get] in Ha.
      destruct (String.eqb "claude" a) eqn:E1;
        [apply String.eqb_eq in E1 as <-; by left|].
      destruct (String.eqb "chatgpt" a) eqn:E2;
        [apply String.eqb_eq in E2 as <-; right; by left|].
      destruct (String.eqb "gemini" a) eqn:E3;
        [apply String.eqb_eq in E3 as <-; right; right; by left|].
      destruct (String.eqb "gemma" a) eqn:E4;
        [apply String.eqb_eq in E4 as <-; right; right; right; by left|].
      done.
    + intros Ha. repeat (apply elem_of_cons in Ha as [->|Ha]; [by eexists|]).
      by apply elem_of_nil in Ha.
Qed.

Lemma work_list_pairs_witness :
  exists work : list task,
    work_list [sample_prompt] ["claude"; "gemma"] = inr work
    /\ length work = 1 * 2.
Proof.
  destruct (proj1 (work_list_pairs [sample_prompt] ["claude"; "gemma"]))
    as (work & Hwork & _ & Hlen & _).
  - constructor; [by eexists|]. constructor; [by eexists|]. constructor.
  - exists work. split; [exact Hwork|exact Hlen].
Defined.

Lemma completed_keys_fold (results : list result) :
  forall (keys : gset (string * string)) (k : string * string),
  k ∈ fold_left (fun keys r =>
                   match res_error r with
                   | None => {[ (res_prompt_id r, res_model_alias r) ]} ∪ keys
                   | Some _ => keys
                   end) results keys
  <-> k ∈ keys
      \/ exists r, r ∈ results /\ res_error r = None
                   /\ (res_prompt_id r, res_model_alias r) = k.
Proof.
  induction results as [|r results IH]; intros keys k; cbn [fold_left].
  - split; [by left|]. intros [?|(r & Hr & _)]; [done|by inversion Hr].
  - rewrite IH. destruct (res_error r) eqn:He.
    + split.
      * intros [?|(r' & Hr' & ?)]; [by left|]. right. exists r'.
        split; [by right|done].
      * intros [?|(r' & Hr' & He' & Hk)]; [by left|].
        apply elem_of_cons in Hr' as [->|Hr']; [congruence|]. right. eauto.
    + rewrite elem_of_union, elem_of_singleton. split.
      * intros [[->|?]|(r' & Hr' & ?)]; [|by left|].
        -- right. exists r. split; [by left|done].
        -- right. exists r'. split; [by right|done].
      * intros [?|(r' & Hr' & He' & Hk)]; [left; by right|].
        apply elem_of_cons in Hr' as [->|Hr']; [left; by left|].
        right. eauto.
Qed.

Lemma completed_keys_elem (results : list result) (k : string * string) :
  k ∈ _completed_keys results
  <-> exists r, r ∈ results /\ res_error r = None
                /\ (res_prompt_id r, res_model_alias r) = k.
Proof.
  unfold _completed_keys. rewrite completed_keys_fold.
  split; [|by right]. intros [H|H]; [|done]. by apply elem_of_empty in H.
Qed.

(** X29: resuming a run.  A task is run again exactly when no result of
    the earlier run for its prompt and alias is free of error: failed
    calls are retried, and a pair that succeeded once is never called
    again.  The tasks that remain keep the order of the work list, and
    the number announced as already done, with the number that remain,
    makes up the total.  Appending the result of a call completes its
    pair exactly when the call succeeded. *)
Theorem resume_accounting (work : list task) (results : list result) :
  let completed := _completed_keys results in
  let rest := remaining work completed in
  (forall t : task,
     t ∈ rest
     <-> t ∈ work
         /\ ~ exists r, r ∈ results /\ res_error r = None
                        /\ res_prompt_id r = p_id t.1.1
                        /\ res_model_alias r = t.1.2)
  /\ rest `sublist_of` work
  /\ (0 <= done_so_far work completed)%Z
  /\ (done_so_far work completed + Z.of_nat (length rest)
      = Z.of_nat (length work))%Z
  /\ done_so_far work completed
     = Z.of_nat (length (filter (fun t => task_key t ∈ completed) work))
  /\ (forall (p : prompt) (alias : string) (info : model_info)
             (timestamp : string) (resp : response),
        (p_id p, alias)
          ∈ _completed_keys
              (results ++ [_run_single p alias info timestamp resp])
        <-> (exists out, resp = inr out)
            \/ (p_id p, alias) ∈ completed).
Proof.
  cbv zeta. split_and!.
  - intros t. unfold remaining. rewrite list_elem_of_filter.
    rewrite completed_keys_elem. unfold task_key.
    split.
    + intros [Hno Hin]. split; [done|].
      intros (r & Hr & He & Hp & Ha). apply Hno. exists r.
      by rewrite Hp, Ha.
    + intros [Hin Hno]. split; [|done].
      intros (r & Hr & He & [= Hp Ha]). apply Hno. eauto.
  - apply sublist_filter.
  - unfold done_so_far, remaining.
    pose proof (length_filter (fun t => task_key t ∉ _completed_keys results)
                  work). lia.
  - unfold done_so_far. lia.
  - unfold done_so_far, remaining.
    generalize (_completed_keys results). intros completed.
    induction work as [|t work IH]; [done|].
    rewrite !filter_cons. destruct (decide (task_key t ∈ completed)).
    + rewrite decide_False by tauto. cbn [length]. lia.
    + rewrite decide_True by done. cbn [length]. lia.
  - intros p alias info timestamp resp. rewrite !completed_keys_elem. split.
    + intros (r & Hr & He & Hk). apply elem_of_app in Hr as [Hr|Hr].
      * right. eauto.
      * apply list_elem_of_singleton in Hr as ->. left.
        destruct resp as [message|[[[out tin] tout] latency]]; [done|].
        by eexists.
    + intros [[out ->]|(r & Hr & He & Hk)].
      * eexists. split; [apply elem_of_app; right; by left|].
        by destruct out as [[[out tin] tout] latency].
      * exists r. split; [apply elem_of_app; by left|done].
Qed.

Lemma put_nowait_queue (queues : list (provider * list task)) (item : task)
    (p : provider) :
  queue_of (put_nowait queues item) p
  = if decide (mi_provider item.2 = p)
    then (queue_of queues p ++ [item])%list
    else queue_of queues p.
Proof.
  induction queues as [|[p' queue] queues IH]; simpl.
  - by repeat case_decide.
  - destruct (decide (p' = mi_provider item.2)) as [->|Hne]; simpl.
    + by repeat case_decide.
    + rewrite IH. repeat case_decide; congruence.
Qed.

Lemma put_nowait_keys (queues : list (provider * list task)) (item : task) :
  map fst (put_nowait queues item)
  = if decide (mi_provider item.2 ∈ map fst queues) then map fst queues
    else (map fst queues ++ [mi_provider item.2])%list.
Proof.
  induction queues as [|[p' queue] queues IH]; cbn [put_nowait map fst].
  - case_decide as Hin; [by apply elem_of_nil in Hin|done].
  - destruct (decide (p' = mi_provider item.2)) as [->|Hne]; cbn [map fst].
    + clear IH. case_decide as Hin; [done|]. destruct Hin. by left.
    + rewrite IH. clear IH.
      destruct (decide (mi_provider item.2 ∈ map fst queues)) as [Hin|Hin].
      * rewrite decide_True; [done|]. by right.
      * rewrite decide_False; [done|].
        intros [?|?]%elem_of_cons; congruence.
Qed.

Lemma put_nowait_nonempty (queues : list (provider * list task))
    (item : task) :
  Forall (fun pq : provider * list task => pq.2 ≠ []) queues ->
  Forall (fun pq : provider * list task => pq.2 ≠ [])
         (put_nowait queues item).
Proof.
  induction 1 as [|[p' queue] queues Hq Hrest IH]; simpl.
  - by repeat constructor.
  - destruct (decide (p' = mi_provider item.2)); constructor; try done.
    simpl. by destruct queue.
Qed.

Lemma provider_queues_fold (rest : list task) :
  forall queues : list (provider * list task),
  NoDup (map fst queues) ->
  Forall (fun pq : provider * list task => pq.2 ≠ []) queues ->
  let queues' := fold_left put_nowait rest queues in
  NoDup (map fst queues')
  /\ Forall (fun pq : provider * list task => pq.2 ≠ []) queues'
  /\ (forall p, queue_of queues' p
                = (queue_of queues p
                   ++ filter (fun t : task => mi_provider t.2 = p) rest)%list)
  /\ (forall p, p ∈ map fst queues'
                <-> p ∈ map fst queues
                    \/ exists t : task, t ∈ rest /\ mi_provider t.2 = p).
Proof.
  induction rest as [|t rest IH]; intros queues Hnd Hne; cbn [fold_left].
  - cbv zeta. split_and!; [done|done| |].
    + intros p. by rewrite app_nil_r.
    + intros p. split; [by left|]. intros [?|(t & Ht & _)]; [done|].
      by inversion Ht.
  - assert (Hnd' : NoDup (map fst (put_nowait queues t))).
    { rewrite put_nowait_keys. case_decide; [done|].
      apply NoDup_app. split_and!; [done| |apply NoDup_singleton].
      intros x Hx ->%list_elem_of_singleton. done. }
    destruct (IH _ Hnd' (put_nowait_nonempty _ t Hne))
      as (Hnd'' & Hne'' & Hq & Hk).
    cbv zeta. split_and!; [done|done| |].
    + intros p. rewrite Hq, put_nowait_queue, filter_cons.
      case_decide; [|done]. by rewrite <- app_assoc.
    + intros p. rewrite Hk, put_nowait_keys. case_decide as Hin.
      * split.
        -- intros [?|(t' & Ht' & ?)]; [by left|]. right. exists t'.
           split; [by right|done].
        -- intros [?|(t' & Ht' & Hp)]; [by left|].
           apply elem_of_cons in Ht' as [->|Ht']; [left; by rewrite <- Hp|].
           right. eauto.
      * rewrite elem_of_app, list_elem_of_singleton. split.
        -- intros [[? | ->] | (t' & Ht' & ?)]; [by left| |].
           ++ right. exists t. split; [by left|done].
           ++ right. exists t'. split; [by right|done].
        -- intros [?|(t' & Ht' & Hp)]; [left; by left|].
           apply elem_of_cons in Ht' as [->|Ht']; [left; by right|].
           right. eauto.
Qed.

Lemma queue_of_elem (queues : list (provider * list task)) (p : provider)
    (queue : list task) :
  NoDup (map fst queues) -> (p, queue) ∈ queues -> queue_of queues p = queue.
Proof.
  induction queues as [|[p' q'] queues IH]; intros Hnd Hin; [by inversion Hin|].
  simpl in *. apply NoDup_cons in Hnd as [Hp' Hnd].
  apply elem_of_cons in Hin as [[= -> ->]|Hin].
  - by rewrite decide_True.
  - rewrite decide_False; [by apply IH|]. intros ->. apply Hp'.
    change (map ?f ?l) with (f <$> l). apply list_elem_of_fmap.
    by exists (p, queue).
Qed.

(** X30: the provider queues split the remaining tasks: there is one
    queue per provider that has a task, at most three, none of them
    empty; the queue of a provider holds exactly the remaining tasks of
    that provider, in the order of the work list.  The tasks of gemini
    and gemma, which share the provider google, are in one queue. *)
Theorem provider_queues_partition (rest : list task) :
  let queues := provider_queues rest in
  NoDup (map fst queues)
  /\ length queues <= 3
  /\ (forall (p : provider) (queue : list task),
        (p, queue) ∈ queues ->
        queue ≠ []
        /\ queue = filter (fun t : task => mi_provider t.2 = p) rest)
  /\ (forall t : task,
        t ∈ rest ->
        exists queue, (mi_provider t.2, queue) ∈ queues /\ t ∈ queue).
Proof.
  cbv zeta. unfold provider_queues.
  destruct (provider_queues_fold rest []) as (Hnd & Hne & Hq & Hk);
    [constructor|constructor|].
  split_and!.
  - done.
  - rewrite <- (length_map fst).
    change 3 with (length [anthropic; openai; google]).
    apply submseteq_length, NoDup_submseteq; [done|].
    intros [] _; [by left|right; by left|right; right; by left].
  - intros p queue Hin. split.
    + rewrite Forall_forall in Hne. apply (Hne _ Hin).
    + rewrite <- (queue_of_elem _ _ _ Hnd Hin). by rewrite Hq.
  - intros t Ht.
    assert (Hp : mi_provider t.2 ∈ map fst (fold_left put_nowait rest [])).
    { apply Hk. right. eauto. }
    change (map ?f ?l) with (f <$> l) in Hp.
    apply list_elem_of_fmap in Hp as ([p queue] & Hp & Hin).
    simpl in Hp. subst p. exists queue. split; [done|].
    rewrite <- (queue_of_elem _ _ _ Hnd Hin), Hq. simpl.
    by apply list_elem_of_filter.
Qed.

Lemma provider_queues_partition_witness :
  let gemini : task :=
    (sample_prompt, "gemini",
     {| mi_provider := google; mi_model_id := "gemini-2.0-flash" |}) in
  let gemma : task :=
    (sample_prompt, "gemma",
     {| mi_provider := google; mi_model_id := "gemma-2-9b-it" |}) in
  exists queue,
    (google, queue) ∈ provider_queues [gemini; gemma] /\ gemma ∈ queue.
Proof.
  intros gemini gemma.
  apply (proj2 (proj2 (proj2 (provider_queues_partition [gemini; gemma])))
           gemma).
  apply elem_of_cons. right. apply elem_of_cons. by left.
Defined.

End RunModelsFacts.
